(** * The constellation engine of gr-digital (constellation.cc)

    A shallow embedding of [gr::digital::constellation] and of the classes
    derived from it, followed by the properties of hard and soft decisions.

    Conventions of the embedding.
    - [float] and [double] values are idealised as real numbers ([R]): no
      rounding, no infinities, no NaN.  Comparisons on them are the decidable
      comparisons of [R] turned into booleans.
    - [unsigned int] and [int] values are integers ([Z]); arithmetic that the
      source performs on [unsigned int] is written with its wrap-around
      ([wrap_u32]), conversions to [int] with [wrap_i32].
    - a [std::vector] is a list; [operator[]] outside the vector is undefined
      behaviour and is reported as [Undefined].  The number of elements of a
      vector is taken to fit [unsigned int]: conversions of [size()] are not
      wrapped, and the objects of the theorems hold fewer than 2^32 points.
    - a call either returns a value ([Ok]), throws [std::runtime_error]
      ([Throw]), runs into undefined behaviour ([Undefined]) or, for the two
      [while] loops over floats, is still running when its budget of
      iterations is used up ([Unfinished]).
    - real numbers do not compute: a run of the code on a concrete input is
      a lemma, proved by rewriting with the comparisons that hold there. *)

From Stdlib Require Import Reals Lra Lia ZArith List String Bool.
Import ListNotations.

Local Open Scope Z_scope.

(** ** Outcomes of a call *)

Inductive result (A : Type) : Type :=
| Ok (a : A)
| Throw (what : string)
| Undefined
| Unfinished.

Arguments Ok {A} a.
Arguments Throw {A} what.
Arguments Undefined {A}.
Arguments Unfinished {A}.

Definition bind {A B : Type} (r : result A) (k : A -> result B) : result B :=
  match r with
  | Ok a => k a
  | Throw w => Throw w
  | Undefined => Undefined
  | Unfinished => Unfinished
  end.

Notation "x <- r ;; k" := (bind r (fun x => k))
  (at level 61, r at next level, right associativity).

Definition throws {A : Type} (r : result A) : Prop :=
  exists w, r = Throw w.

Definition succeeds {A : Type} (r : result A) : Prop :=
  exists a, r = Ok a.

(** [for (unsigned int i = lo; i < hi; i++) body] threading a state. *)
Fixpoint for_loop {S : Type} (i : Z) (n : nat)
         (body : Z -> S -> result S) (s : S) : result S :=
  match n with
  | O => Ok s
  | Datatypes.S n' => s' <- body i s ;; for_loop (i + 1) n' body s'
  end.

Definition for_range {S : Type} (lo hi : Z)
           (body : Z -> S -> result S) (s : S) : result S :=
  for_loop lo (Z.to_nat (hi - lo)) body s.

(** ** Vectors *)

Definition size {A : Type} (v : list A) : Z := Z.of_nat (List.length v).

(** [v[i]] *)
Definition vec_at {A : Type} (v : list A) (i : Z) : result A :=
  if i <? 0 then Undefined
  else match nth_error v (Z.to_nat i) with
       | Some a => Ok a
       | None => Undefined
       end.

Fixpoint replace_nth {A : Type} (n : nat) (x : A) (v : list A) : list A :=
  match v, n with
  | [], _ => []
  | _ :: t, O => x :: t
  | h :: t, Datatypes.S n' => h :: replace_nth n' x t
  end.

(** [v[i] = x] *)
Definition vec_set {A : Type} (v : list A) (i : Z) (x : A) : result (list A) :=
  if (0 <=? i) && (i <? size v) then Ok (replace_nth (Z.to_nat i) x v)
  else Undefined.

(** ** Machine integers *)

Definition UINT_MOD : Z := 4294967296.
Definition INT_MIN : Z := -2147483648.
Definition INT_MAX : Z := 2147483647.

Definition wrap_u32 (z : Z) : Z := z mod UINT_MOD.

Definition wrap_i32 (z : Z) : Z :=
  let u := wrap_u32 z in if u <=? INT_MAX then u else u - UINT_MOD.

(** ** Floats, idealised as reals *)

Definition fltb (a b : R) : bool := if Rlt_dec a b then true else false.
Definition fleb (a b : R) : bool := if Rle_dec a b then true else false.
Definition feqb (a b : R) : bool := if Req_dec_T a b then true else false.

Definition fmax (a b : R) : R := if fltb a b then b else a.
Definition fmin (a b : R) : R := if fltb b a then b else a.

(** Conversion of a floating value to an integer drops the fraction. *)
Definition Ztrunc (x : R) : Z :=
  if fltb x 0 then Zceil x else Zfloor x.

(** The integer that [int(x)] and [static_cast<int>(x)] deliver: the
    truncated value where it fits [int], and outside that range, where the
    conversion is undefined in C++, what the x86 conversion instructions
    deliver, [INT_MIN].  Where the value converted depends on a caller's
    sample ([constellation_rect::get_sector]) the conversion is checked
    first ([quotient_to_int]) and the call is [Undefined] outside the range;
    the other uses are on values that the objects of the theorems keep
    inside [int]. *)
Definition float_to_int (x : R) : Z :=
  let z := Ztrunc x in
  if (INT_MIN <=? z) && (z <=? INT_MAX) then z else INT_MIN.

(** [int(x / width + n / 2.0)], the conversion of one axis of
    [constellation_rect::get_sector].  With a zero width the quotient of the
    source is infinite or NaN, and converting such a value to [int], like
    converting any value whose integer part does not fit [int], is undefined
    behaviour. *)
Definition quotient_to_int (x width : R) (n : Z) : result Z :=
  let v := (x / width + IZR n / 2)%R in
  if feqb width 0 then Undefined
  else if fltb (IZR INT_MIN - 1) v && fltb v (IZR INT_MAX + 1)
       then Ok (float_to_int v)
       else Undefined.

(** Conversion of a floating value to [unsigned int]. *)
Definition float_to_uint (x : R) : Z := wrap_u32 (Ztrunc x).

(** ** gr_complex *)

Definition gr_complex : Type := (R * R)%type.

Definition real (z : gr_complex) : R := fst z.
Definition imag (z : gr_complex) : R := snd z.

Local Open Scope R_scope.

Definition Csub (a b : gr_complex) : gr_complex :=
  (real a - real b, imag a - imag b).

Definition Cmul (a b : gr_complex) : gr_complex :=
  (real a * real b - imag a * imag b, real a * imag b + imag a * real b).

Definition Cscale (a : gr_complex) (s : R) : gr_complex :=
  (real a * s, imag a * s).

Definition conj (a : gr_complex) : gr_complex := (real a, - imag a).

(** [std::norm]: the squared magnitude. *)
Definition norm (a : gr_complex) : R := real a * real a + imag a * imag a.

(** [std::abs] *)
Definition Cabs (a : gr_complex) : R := sqrt (norm a).

(** [atan2(y, x)], the angle of the point (x, y) in (-pi, pi]. *)
Definition atan2 (y x : R) : R :=
  if fltb 0 x then atan (y / x)
  else if fltb x 0 then
         (if fltb y 0 then atan (y / x) - PI else atan (y / x) + PI)
       else if fltb 0 y then PI / 2
            else if fltb y 0 then - (PI / 2) else 0.

(** [std::arg] *)
Definition arg (a : gr_complex) : R := atan2 (imag a) (real a).

Local Close Scope R_scope.

(** ** The base class [constellation] *)

Record constellation : Type := mk_constellation {
  d_constellation : list gr_complex;
  d_pre_diff_code : list Z;
  d_apply_pre_diff_code : bool;
  d_rotational_symmetry : Z;
  d_dimensionality : Z;
  d_arity : Z;
  d_scalefactor : R;
  d_re_min : R;
  d_re_max : R;
  d_im_min : R;
  d_im_max : R;
  d_soft_dec_lut : list (list R);
  d_lut_precision : Z;
  d_lut_scale : R
}.

Definition with_arity (c : constellation) (a : Z) : constellation :=
  mk_constellation (d_constellation c) (d_pre_diff_code c)
    (d_apply_pre_diff_code c) (d_rotational_symmetry c) (d_dimensionality c)
    a (d_scalefactor c) (d_re_min c) (d_re_max c) (d_im_min c) (d_im_max c)
    (d_soft_dec_lut c) (d_lut_precision c) (d_lut_scale c).

Definition with_axes (c : constellation) (re_min re_max im_min im_max : R)
  : constellation :=
  mk_constellation (d_constellation c) (d_pre_diff_code c)
    (d_apply_pre_diff_code c) (d_rotational_symmetry c) (d_dimensionality c)
    (d_arity c) (d_scalefactor c) re_min re_max im_min im_max
    (d_soft_dec_lut c) (d_lut_precision c) (d_lut_scale c).

Definition with_lut (c : constellation) (lut : list (list R))
           (precision : Z) (scale : R) : constellation :=
  mk_constellation (d_constellation c) (d_pre_diff_code c)
    (d_apply_pre_diff_code c) (d_rotational_symmetry c) (d_dimensionality c)
    (d_arity c) (d_scalefactor c) (d_re_min c) (d_re_max c) (d_im_min c)
    (d_im_max c) lut precision scale.

Definition with_points (c : constellation) (pts : list gr_complex)
           (code : list Z) (apply : bool) (rot dim : Z) : constellation :=
  mk_constellation pts code apply rot dim
    (d_arity c) (d_scalefactor c) (d_re_min c) (d_re_max c) (d_im_min c)
    (d_im_max c) (d_soft_dec_lut c) (d_lut_precision c) (d_lut_scale c).

(** [constellation::calc_arity] *)
Definition calc_arity (c : constellation) : result constellation :=
  if d_dimensionality c =? 0 then Undefined
  else if negb (size (d_constellation c) mod d_dimensionality c =? 0) then
    Throw "Constellation vector size must be a multiple of the dimensionality."%string
  else Ok (with_arity c (size (d_constellation c) / d_dimensionality c)).

(** The sum of the magnitudes of the points, accumulated as the first loop
    of the constructor does. *)
Definition summed_mag (constell : list gr_complex) : R :=
  fold_left
    (fun acc c => (acc + sqrt (real c * real c + imag c * imag c))%R)
    constell 0%R.

Definition big : R := 100000000000000000000%R.

(** [constellation::constellation(constell, pre_diff_code,
    rotational_symmetry, dimensionality)] *)
Definition constellation_ctor (constell : list gr_complex)
           (pre_diff_code : list Z) (rotational_symmetry dimensionality : Z)
  : result constellation :=
  let constsize := size constell in
  let scalefactor := (IZR constsize / summed_mag constell)%R in
  let scaled := map (fun c => Cscale c scalefactor) constell in
  apply <- (if size pre_diff_code =? 0 then Ok false
            else if negb (size pre_diff_code =? constsize) then
              Throw "The constellation and pre-diff code must be of the same length."%string
            else Ok true) ;;
  calc_arity
    (mk_constellation scaled pre_diff_code apply rotational_symmetry
       dimensionality 0 scalefactor big big big big [] 0 0%R).

(** [constellation::constellation()] *)
Definition constellation_default : result constellation :=
  calc_arity
    (mk_constellation [] [] false 0 1 0 1%R big big big big [] 0 0%R).

(** [constellation::map_to_points], returning the filled buffer. *)
Definition map_to_points (c : constellation) (value : Z)
  : result (list gr_complex) :=
  for_range 0 (d_dimensionality c)
    (fun i points =>
       p <- vec_at (d_constellation c)
                   (wrap_u32 (value * d_dimensionality c + i)) ;;
       Ok (points ++ [p]))
    [].

(** [constellation::get_distance] *)
Definition get_distance (c : constellation) (index : Z)
           (sample : list gr_complex) : result R :=
  for_range 0 (d_dimensionality c)
    (fun i dist =>
       s <- vec_at sample i ;;
       p <- vec_at (d_constellation c)
                   (wrap_u32 (index * d_dimensionality c + i)) ;;
       Ok (dist + norm (Csub s p))%R)
    0%R.

(** [constellation::get_closest_point] *)
Definition get_closest_point (c : constellation) (sample : list gr_complex)
  : result Z :=
  d0 <- get_distance c 0 sample ;;
  r <- for_range 1 (d_arity c)
         (fun j (st : Z * R) =>
            let (min_index, min_euclid_dist) := st in
            euclid_dist <- get_distance c j sample ;;
            if fltb euclid_dist min_euclid_dist
            then Ok (j, euclid_dist)
            else Ok (min_index, min_euclid_dist))
         (0, d0) ;;
  Ok (fst r).

(** [constellation::s_points] *)
Definition s_points (c : constellation) : result (list gr_complex) :=
  if negb (d_dimensionality c =? 1) then
    Throw "s_points only works for dimensionality 1 constellations."%string
  else Ok (d_constellation c).

(** [constellation::v_points] *)
Definition v_points (c : constellation) : result (list (list gr_complex)) :=
  for_range 0 (d_arity c)
    (fun p vv_const =>
       v_const <-
         for_range 0 (d_dimensionality c)
           (fun d v_const =>
              x <- vec_at (d_constellation c)
                          (wrap_u32 (p * d_dimensionality c + d)) ;;
              vec_set v_const d x)
           (repeat (0%R, 0%R) (Z.to_nat (d_dimensionality c))) ;;
       vec_set vv_const p v_const)
    (repeat [] (Z.to_nat (d_arity c))).

(** [constellation::calc_euclidean_metric], returning the filled buffer. *)
Definition calc_euclidean_metric (c : constellation)
           (sample : list gr_complex) : result (list R) :=
  for_range 0 (d_arity c)
    (fun o metric => dist <- get_distance c o sample ;; Ok (metric ++ [dist]))
    [].

(** [FLT_MAX] of [<cfloat>], the largest finite [float]:
    (2 - 2^-23) * 2^127. *)
Definition FLT_MAX : R := 340282346638528859811704183484516925440%R.

(** [constellation::calc_hard_symbol_metric], returning the filled buffer. *)
Definition calc_hard_symbol_metric (c : constellation)
           (sample : list gr_complex) : result (list R) :=
  st <- for_range 0 (d_arity c)
          (fun o (st : R * Z) =>
             let (minm, minmi) := st in
             dist <- get_distance c o sample ;;
             if fltb dist minm then Ok (dist, o) else Ok (minm, minmi))
          (FLT_MAX, 0) ;;
  let minmi := snd st in
  for_range 0 (d_arity c)
    (fun o metric => Ok (metric ++ [if o =? minmi then 0%R else 1%R]))
    [].

(** The enumeration [trellis_metric_type_t] is declared outside the sources
    at hand; its three names are those of the [switch] in [calc_metric], and
    every other value of the type reaches [default]. *)
Inductive trellis_metric_type_t : Type :=
| TRELLIS_EUCLIDEAN
| TRELLIS_HARD_SYMBOL
| TRELLIS_HARD_BIT
| TRELLIS_other (value : Z).

(** [constellation::calc_metric] *)
Definition calc_metric (c : constellation) (sample : list gr_complex)
           (type : trellis_metric_type_t) : result (list R) :=
  match type with
  | TRELLIS_EUCLIDEAN => calc_euclidean_metric c sample
  | TRELLIS_HARD_SYMBOL => calc_hard_symbol_metric c sample
  | TRELLIS_HARD_BIT =>
      Throw "Invalid metric type (not yet implemented)."%string
  | TRELLIS_other _ => Throw "Invalid metric type."%string
  end.

(** [constellation::max_min_axes] *)
Definition max_min_axes (c : constellation) : constellation :=
  let '(re_min, im_min, re_max, im_max) :=
    fold_left
      (fun (st : R * R * R * R) p =>
         let '(re_min, im_min, re_max, im_max) := st in
         let re_max := if fltb re_max (real p) then real p else re_max in
         let im_max := if fltb im_max (imag p) then imag p else im_max in
         let re_min := if fltb (real p) re_min then real p else re_min in
         let im_min := if fltb (imag p) im_min then imag p else im_min in
         (re_min, im_min, re_max, im_max))
      (d_constellation c) (big, big, (- big)%R, (- big)%R) in
  let im_min := if feqb im_min 0 then re_min else im_min in
  let im_max := if feqb im_max 0 then re_max else im_max in
  let re_min := if feqb re_min 0 then im_min else re_min in
  let re_max := if feqb re_max 0 then im_max else re_max in
  with_axes c re_min re_max im_min im_max.

(** [constellation::calc_soft_dec].  For an empty constellation the source
    converts [log(0)/log(2)], minus infinity, to [int]: undefined. *)
Definition calc_soft_dec (c : constellation) (sample : gr_complex) (npwr : R)
  : result (list R) :=
  let M := wrap_i32 (size (d_constellation c)) in
  if M <=? 0 then Undefined
  else
    let k := float_to_int (ln (IZR M) / ln 2) in
    let tmp0 := repeat 0%R (Z.to_nat (2 * k)) in
    let s0 := repeat 0%R (Z.to_nat k) in
    let scale := (d_scalefactor c * d_scalefactor c)%R in
    tmp <- for_range 0 M
             (fun i tmp =>
                p <- vec_at (d_constellation c) i ;;
                let dist := (Cabs (Csub sample p) * Cabs (Csub sample p))%R in
                let d := exp (- dist / (2 * npwr * scale)) in
                for_range 0 k
                  (fun j tmp =>
                     let mask := Z.shiftl 1 j in
                     code <- vec_at (d_pre_diff_code c) i ;;
                     let bit := Z.shiftr (Z.land code mask) j in
                     if bit =? 0
                     then t <- vec_at tmp (2 * j + 0) ;;
                          vec_set tmp (2 * j + 0) (t + d)%R
                     else t <- vec_at tmp (2 * j + 1) ;;
                          vec_set tmp (2 * j + 1) (t + d)%R)
                  tmp)
             tmp0 ;;
    for_range 0 k
      (fun i s =>
         t1 <- vec_at tmp (2 * i + 1) ;;
         t0 <- vec_at tmp (2 * i + 0) ;;
         vec_set s (k - 1 - i) ((ln t1 - ln t0) * scale)%R)
      s0.

(** The inner [while(x < d_re_max)] loop of [gen_soft_dec_lut]. *)
Fixpoint lut_row (fuel : nat) (c : constellation) (npwr y x xstep : R)
         (lut : list (list R)) : result (list (list R)) :=
  match fuel with
  | O => Unfinished
  | Datatypes.S fuel' =>
      if fltb x (d_re_max c)
      then v <- calc_soft_dec c (x, y) npwr ;;
           lut_row fuel' c npwr y (x + xstep)%R xstep (lut ++ [v])
      else Ok lut
  end.

(** The outer [while(y < d_im_max)] loop of [gen_soft_dec_lut]. *)
Fixpoint lut_rows (fuel budget : nat) (c : constellation)
         (npwr y xstep ystep : R) (lut : list (list R))
  : result (list (list R)) :=
  match fuel with
  | O => Unfinished
  | Datatypes.S fuel' =>
      if fltb y (d_im_max c)
      then lut' <- lut_row budget c npwr y (d_re_min c) xstep lut ;;
           lut_rows fuel' budget c npwr (y + ystep)%R xstep ystep lut'
      else Ok lut
  end.

(** [constellation::gen_soft_dec_lut].  The source loops while [x] and [y]
    are below the upper bounds, with no bound on the number of rounds (a
    step that is not positive never ends); each [while] loop of the model
    may take [budget] rounds and reports [Unfinished] beyond that. *)
Definition gen_soft_dec_lut (budget : nat) (c : constellation)
           (precision : Z) (npwr : R) : result constellation :=
  let c := max_min_axes c in
  let lut_scale := powerRZ 2 precision in
  let xstep := ((d_re_max c - d_re_min c) / (lut_scale - 1))%R in
  let ystep := ((d_im_max c - d_im_min c) / (lut_scale - 1))%R in
  lut <- lut_rows budget budget c npwr (d_im_min c) xstep ystep [] ;;
  Ok (with_lut c lut precision lut_scale).

(** [constellation::set_soft_dec_lut] *)
Definition set_soft_dec_lut (c : constellation) (soft_dec_lut : list (list R))
           (precision : Z) : constellation :=
  with_lut (max_min_axes c) soft_dec_lut precision (powerRZ 2 precision).

(** [constellation::has_soft_dec_lut] *)
Definition has_soft_dec_lut (c : constellation) : bool :=
  0 <? size (d_soft_dec_lut c).

(** The flat table index that [soft_decision_maker] computes for a sample. *)
Definition lut_index (c : constellation) (sample : gr_complex) : Z :=
  let xre := real sample in
  let xim := imag sample in
  let xstep := ((d_re_max c - d_re_min c) / d_lut_scale c)%R in
  let ystep := ((d_im_max c - d_im_min c) / d_lut_scale c)%R in
  let xscale := (d_lut_scale c / (d_re_max c - d_re_min c) - xstep)%R in
  let yscale := (d_lut_scale c / (d_im_max c - d_im_min c) - ystep)%R in
  let xre :=
    IZR (Zfloor ((- d_re_min c
                  + fmin (d_re_max c) (fmax (d_re_min c) xre)) * xscale)%R) in
  let xim :=
    IZR (Zfloor ((- d_im_min c
                  + fmin (d_im_max c) (fmax (d_im_min c) xim)) * yscale)%R) in
  float_to_int (d_lut_scale c * xim + xre)%R.

(** [constellation::soft_decision_maker].  The call [calc_soft_dec(sample)]
    of the source relies on a default noise power given in the class
    declaration; it is the parameter [default_npwr] here. *)
Definition soft_decision_maker (default_npwr : R) (c : constellation)
           (sample : gr_complex) : result (list R) :=
  if has_soft_dec_lut c then
    let index := lut_index c sample in
    let max_index := float_to_int (d_lut_scale c * d_lut_scale c)%R in
    if max_index <? index then vec_at (d_soft_dec_lut c) (max_index - 1)
    else if index <? 0 then
      Throw "constellation::soft_decision_maker: input sample out of range."%string
    else vec_at (d_soft_dec_lut c) index
  else calc_soft_dec c sample default_npwr.

(** ** The derived classes *)

(** Members added by [constellation_sector]. *)
Record sector_state : Type := mk_sector {
  n_sectors : Z;
  sector_values : list Z
}.

(** Members added by [constellation_rect]. *)
Record rect_state : Type := mk_rect {
  n_real_sectors : Z;
  n_imag_sectors : Z;
  d_width_real_sectors : R;
  d_width_imag_sectors : R
}.

(** The dynamic class of a constellation object with the members that the
    class adds to the base. *)
Inductive derived : Type :=
| Calcdist
| Rect (s : sector_state) (r : rect_state)
| ExplRect (s : sector_state) (r : rect_state) (d_sector_values : list Z)
| Psk (s : sector_state)
| Bpsk
| Qpsk
| Dqpsk
| Psk8.

Record object : Type := mk_object {
  base : constellation;
  cls : derived
}.

Definition SQRT_TWO : R := (707107 / 1000000)%R.

Definition b2z (b : bool) : Z := if b then 1 else 0.

Module constellation_calcdist.

(** [constellation_calcdist::make] *)
Definition make (constell : list gr_complex) (pre_diff_code : list Z)
           (rotational_symmetry dimensionality : Z) : result object :=
  b <- constellation_ctor constell pre_diff_code rotational_symmetry
         dimensionality ;;
  Ok (mk_object b Calcdist).

(** [constellation_calcdist::decision_maker] *)
Definition decision_maker (b : constellation) (sample : list gr_complex)
  : result Z :=
  get_closest_point b sample.

End constellation_calcdist.

Module constellation_sector.

(** [constellation_sector::decision_maker], for the [get_sector] that the
    virtual call reaches. *)
Definition decision_maker (get_sector : list gr_complex -> result Z)
           (s : sector_state) (sample : list gr_complex) : result Z :=
  sector <- get_sector sample ;;
  vec_at (sector_values s) sector.

(** [constellation_sector::find_sector_values], for the [calc_sector_value]
    that the virtual call reaches. *)
Definition find_sector_values (calc_sector_value : Z -> result Z) (n : Z)
  : result (list Z) :=
  for_range 0 n
    (fun i values => v <- calc_sector_value i ;; Ok (values ++ [v]))
    [].

End constellation_sector.

Module constellation_rect.

(** [constellation_rect::get_sector] *)
Definition get_sector (r : rect_state) (sample : list gr_complex)
  : result Z :=
  s <- vec_at sample 0 ;;
  real_sector <-
    quotient_to_int (real s) (d_width_real_sectors r) (n_real_sectors r) ;;
  let real_sector := if real_sector <? 0 then 0 else real_sector in
  let real_sector :=
    if wrap_i32 (n_real_sectors r) <=? real_sector
    then wrap_i32 (wrap_u32 (n_real_sectors r - 1)) else real_sector in
  imag_sector <-
    quotient_to_int (imag s) (d_width_imag_sectors r) (n_imag_sectors r) ;;
  let imag_sector := if imag_sector <? 0 then 0 else imag_sector in
  let imag_sector :=
    if wrap_i32 (n_imag_sectors r) <=? imag_sector
    then wrap_i32 (wrap_u32 (n_imag_sectors r - 1)) else imag_sector in
  Ok (wrap_u32 (real_sector * n_imag_sectors r + imag_sector)).

(** [constellation_rect::calc_sector_center] *)
Definition calc_sector_center (r : rect_state) (sector : Z) : gr_complex :=
  let real_sector :=
    float_to_uint (IZR sector / IZR (n_imag_sectors r))%R in
  let imag_sector := wrap_u32 (sector - real_sector * n_imag_sectors r) in
  ((IZR real_sector + 5 / 10 - IZR (n_real_sectors r) / 2)
   * d_width_real_sectors r,
   (IZR imag_sector + 5 / 10 - IZR (n_imag_sectors r) / 2)
   * d_width_imag_sectors r)%R.

(** [constellation_rect::calc_sector_value] *)
Definition calc_sector_value (b : constellation) (r : rect_state)
           (sector : Z) : result Z :=
  get_closest_point b [calc_sector_center r sector].

(** [constellation_rect::constellation_rect]: the base is built with
    dimensionality 1 and [real_sectors * imag_sectors] sectors, the widths
    are scaled, and [find_sector_values] runs.  The object under
    construction has the class [constellation_rect] at that point, also
    when it is the base of a [constellation_expl_rect]: the virtual call
    reaches [constellation_rect::calc_sector_value]. *)
Definition construct (constell : list gr_complex)
           (pre_diff_code : list Z) (rotational_symmetry : Z)
           (real_sectors imag_sectors : Z)
           (width_real_sectors width_imag_sectors : R)
  : result (constellation * sector_state * rect_state) :=
  b <- constellation_ctor constell pre_diff_code rotational_symmetry 1 ;;
  let n := wrap_u32 (real_sectors * imag_sectors) in
  let r := mk_rect real_sectors imag_sectors
             (width_real_sectors * d_scalefactor b)%R
             (width_imag_sectors * d_scalefactor b)%R in
  values <- constellation_sector.find_sector_values (calc_sector_value b r) n ;;
  Ok (b, mk_sector n values, r).

(** [constellation_rect::make] *)
Definition make (constell : list gr_complex)
           (pre_diff_code : list Z) (rotational_symmetry : Z)
           (real_sectors imag_sectors : Z)
           (width_real_sectors width_imag_sectors : R) : result object :=
  st <- construct constell pre_diff_code rotational_symmetry
          real_sectors imag_sectors width_real_sectors width_imag_sectors ;;
  let '(b, s, r) := st in
  Ok (mk_object b (Rect s r)).

End constellation_rect.

Module constellation_expl_rect.

(** [constellation_expl_rect::make] with the constructor
    [constellation_expl_rect::constellation_expl_rect]: the base-class
    constructor runs, then the member [d_sector_values] is initialised from
    the argument; the body is empty. *)
Definition make (constell : list gr_complex)
           (pre_diff_code : list Z) (rotational_symmetry : Z)
           (real_sectors imag_sectors : Z)
           (width_real_sectors width_imag_sectors : R)
           (sector_values_arg : list Z) : result object :=
  st <- constellation_rect.construct constell pre_diff_code
          rotational_symmetry real_sectors imag_sectors width_real_sectors
          width_imag_sectors ;;
  let '(b, s, r) := st in
  Ok (mk_object b (ExplRect s r sector_values_arg)).

End constellation_expl_rect.

Module constellation_psk.

(** [constellation_psk::get_sector] *)
Definition get_sector (s : sector_state) (sample : list gr_complex)
  : result Z :=
  z <- vec_at sample 0 ;;
  let phase := arg z in
  let width := (2 * PI / IZR (n_sectors s))%R in
  let sector := float_to_int (IZR (Zfloor (phase / width + 5 / 10)%R)) in
  let sector :=
    if sector <? 0 then wrap_i32 (wrap_u32 (sector + n_sectors s))
    else sector in
  Ok (wrap_u32 sector).

(** The local [sector_center] of [constellation_psk::calc_sector_value]. *)
Definition sector_center (n : Z) (sector : Z) : gr_complex :=
  let phase := (IZR sector * (2 * PI) / IZR n)%R in
  (cos phase, sin phase).

(** [constellation_psk::calc_sector_value] *)
Definition calc_sector_value (b : constellation) (n : Z) (sector : Z)
  : result Z :=
  get_closest_point b [sector_center n sector].

(** [constellation_psk::make] with the constructor. *)
Definition make (constell : list gr_complex)
           (pre_diff_code : list Z) (n : Z) : result object :=
  b <- constellation_ctor constell pre_diff_code
         (wrap_u32 (size constell)) 1 ;;
  values <- constellation_sector.find_sector_values (calc_sector_value b n) n ;;
  Ok (mk_object b (Psk (mk_sector n values))).

End constellation_psk.

Module constellation_bpsk.

(** [constellation_bpsk::make] with the constructor. *)
Definition make : result object :=
  b <- constellation_default ;;
  b <- calc_arity
         (with_points b [((-1)%R, 0%R); (1%R, 0%R)]
            (d_pre_diff_code b) (d_apply_pre_diff_code b) 2 1) ;;
  Ok (mk_object b Bpsk).

(** [constellation_bpsk::decision_maker] *)
Definition decision_maker (sample : list gr_complex) : result Z :=
  s <- vec_at sample 0 ;;
  Ok (b2z (fltb 0 (real s))).

End constellation_bpsk.

Module constellation_qpsk.

(** [constellation_qpsk::make] with the constructor. *)
Definition make : result object :=
  b <- constellation_default ;;
  b <- calc_arity
         (with_points b
            [((- SQRT_TWO)%R, (- SQRT_TWO)%R); (SQRT_TWO, (- SQRT_TWO)%R);
             ((- SQRT_TWO)%R, SQRT_TWO); (SQRT_TWO, SQRT_TWO)]
            [0; 2; 3; 1] (d_apply_pre_diff_code b) 4 1) ;;
  Ok (mk_object b Qpsk).

(** [constellation_qpsk::decision_maker] *)
Definition decision_maker (sample : list gr_complex) : result Z :=
  s <- vec_at sample 0 ;;
  Ok (2 * b2z (fltb 0 (imag s)) + b2z (fltb 0 (real s))).

End constellation_qpsk.

Module constellation_dqpsk.

(** [constellation_dqpsk::make] with the constructor. *)
Definition make : result object :=
  b <- constellation_default ;;
  b <- calc_arity
         (with_points b
            [(SQRT_TWO, SQRT_TWO); ((- SQRT_TWO)%R, SQRT_TWO);
             ((- SQRT_TWO)%R, (- SQRT_TWO)%R); (SQRT_TWO, (- SQRT_TWO)%R)]
            [0; 1; 3; 2] true 4 1) ;;
  Ok (mk_object b Dqpsk).

(** [constellation_dqpsk::decision_maker] *)
Definition decision_maker (sample : list gr_complex) : result Z :=
  s <- vec_at sample 0 ;;
  let a := fltb 0 (real s) in
  let b := fltb 0 (imag s) in
  Ok (if a then (if b then 0 else 3) else (if b then 1 else 2)).

End constellation_dqpsk.

Module constellation_8psk.

(** [constellation_8psk::make] with the constructor. *)
Definition make : result object :=
  b <- constellation_default ;;
  let angle := (PI / 8)%R in
  let pt (m : R) : gr_complex := (cos (m * angle), sin (m * angle))%R in
  b <- calc_arity
         (with_points b
            [pt 1%R; pt 7%R; pt 15%R; pt 9%R; pt 3%R; pt 5%R; pt 13%R; pt 11%R]
            (d_pre_diff_code b) (d_apply_pre_diff_code b) 8 1) ;;
  Ok (mk_object b Psk8).

(** [constellation_8psk::decision_maker] *)
Definition decision_maker (sample : list gr_complex) : result Z :=
  s <- vec_at sample 0 ;;
  let re := real s in
  let im := imag s in
  let ret := 0 in
  let ret := if fleb (Rabs re) (Rabs im) then 4 else ret in
  let ret := if fleb re 0 then Z.lor ret 1 else ret in
  let ret := if fleb im 0 then Z.lor ret 2 else ret in
  Ok ret.

End constellation_8psk.

(** The virtual [decision_maker], dispatched on the dynamic class.  The
    three sector classes inherit [constellation_sector::decision_maker];
    [constellation_expl_rect] inherits [get_sector] from
    [constellation_rect]. *)
Definition decision_maker (o : object) (sample : list gr_complex)
  : result Z :=
  match cls o with
  | Calcdist => constellation_calcdist.decision_maker (base o) sample
  | Rect s r =>
      constellation_sector.decision_maker (constellation_rect.get_sector r)
        s sample
  | ExplRect s r _ =>
      constellation_sector.decision_maker (constellation_rect.get_sector r)
        s sample
  | Psk s =>
      constellation_sector.decision_maker (constellation_psk.get_sector s)
        s sample
  | Bpsk => constellation_bpsk.decision_maker sample
  | Qpsk => constellation_qpsk.decision_maker sample
  | Dqpsk => constellation_dqpsk.decision_maker sample
  | Psk8 => constellation_8psk.decision_maker sample
  end.

(** [constellation::decision_maker_pe] *)
Definition decision_maker_pe (o : object) (sample : list gr_complex)
  : result (Z * R) :=
  index <- decision_maker o sample ;;
  phase_error <-
    for_range 0 (d_dimensionality (base o))
      (fun d phase_error =>
         s <- vec_at sample d ;;
         p <- vec_at (d_constellation (base o)) (wrap_u32 (index + d)) ;;
         Ok (phase_error + - arg (Cmul s (conj p)))%R)
      0%R ;;
  Ok (index, phase_error).

(** ** Definitions used in the statements *)

(** What [calc_arity] establishes, for a vector of points whose size fits
    [unsigned int]. *)
Definition wf (c : constellation) : Prop :=
  1 <= d_dimensionality c
  /\ size (d_constellation c) = d_arity c * d_dimensionality c
  /\ size (d_constellation c) < UINT_MOD.

(** The [d]-th stored point of symbol [j]. *)
Definition point (c : constellation) (j d : Z) : gr_complex :=
  nth (Z.to_nat (j * d_dimensionality c + d)) (d_constellation c) (0%R, 0%R).

(** The distance accumulated by the first [k] rounds of [get_distance]. *)
Fixpoint dist_upto (c : constellation) (j : Z) (sample : list gr_complex)
         (k : nat) : R :=
  match k with
  | O => 0%R
  | Datatypes.S k' =>
      (dist_upto c j sample k'
       + norm (Csub (nth k' sample (0%R, 0%R)) (point c j (Z.of_nat k'))))%R
  end.

(** The points of BPSK, as [constellation_bpsk.make] leaves the base. *)
Definition bpsk_base : constellation :=
  mk_constellation [((-1)%R, 0%R); (1%R, 0%R)] [] false 2 1 2 1%R
    big big big big [] 0 0%R.

(** The failure condition of construction in the words of the
    specification: the size is not a multiple of the dimensionality, or the
    pre-diff code is non-empty and its length differs from the arity. *)
Definition spec_construct_fails (points : list gr_complex)
           (preDiffCode : list Z) (dimensionality : Z) : Prop :=
  size points mod dimensionality <> 0
  \/ (preDiffCode <> [] /\ size preDiffCode <> size points / dimensionality).

(** The failure condition of the constructor as the code has it: the
    pre-diff code is compared with the number of stored points. *)
Definition code_construct_fails (constell : list gr_complex)
           (pre_diff_code : list Z) (dimensionality : Z) : Prop :=
  size constell mod dimensionality <> 0
  \/ (pre_diff_code <> [] /\ size pre_diff_code <> size constell).

(** The phase error in the words of the specification: the negative sum
    over the dimensions of the argument of the sample times the conjugate of
    the [d]-th stored point of the decided symbol, [points[index*D + d]]. *)
Definition spec_phase_error (c : constellation) (index : Z)
           (sample : list gr_complex) : result R :=
  total <- for_range 0 (d_dimensionality c)
             (fun d acc =>
                s <- vec_at sample d ;;
                p <- vec_at (d_constellation c)
                            (index * d_dimensionality c + d) ;;
                Ok (acc + arg (Cmul s (conj p)))%R)
             0%R ;;
  Ok (- total)%R.

(** Two symbols of dimensionality 2: (-1, 1) and (1, -1). *)
Definition pe_points : list gr_complex :=
  [((-1)%R, 0%R); (1%R, 0%R); (1%R, 0%R); ((-1)%R, 0%R)].

Definition pe_sample : list gr_complex := [(1%R, 0%R); ((-1)%R, 0%R)].

Definition bpsk_points : list gr_complex := [((-1)%R, 0%R); (1%R, 0%R)].

(** The centre of the bin in column [kr] and row [ki]. *)
Definition bin_center (r : rect_state) (kr ki : Z) : gr_complex :=
  ((IZR kr + 5 / 10 - IZR (n_real_sectors r) / 2) * d_width_real_sectors r,
   (IZR ki + 5 / 10 - IZR (n_imag_sectors r) / 2) * d_width_imag_sectors r)%R.

(** One axis of [constellation_rect::get_sector], where its conversion is
    defined: the converted value and the two clamps. *)
Definition axis_sector (x width : R) (n : Z) : Z :=
  let sector := float_to_int (x / width + IZR n / 2)%R in
  let sector := if sector <? 0 then 0 else sector in
  if wrap_i32 n <=? sector then wrap_i32 (wrap_u32 (n - 1)) else sector.

(** The conversion of one axis of [constellation_rect::get_sector] is
    defined: the width is not zero and the integer part of the value
    converted fits [int]. *)
Definition axis_defined (x width : R) (n : Z) : Prop :=
  width <> 0%R
  /\ (IZR INT_MIN - 1 < x / width + IZR n / 2 < IZR INT_MAX + 1)%R.

(** The geometry of two real sectors and one imaginary sector of width 1,
    after scaling by a scale factor of 1. *)
Definition two_bins : rect_state := mk_rect 2 1 (1 * 1)%R (1 * 1)%R.



(** The buffer that [map_to_points] fills for an existing symbol. *)
Definition symbol_points (c : constellation) (j : Z) : list gr_complex :=
  map (fun d => point c j (Z.of_nat d))
      (seq 0 (Z.to_nat (d_dimensionality c))).

(** The log-likelihood ratio that [calc_soft_dec] computes over the points
    -1 and 1 with the pre-diff code 0, 1 and scale factor 1. *)
Definition bpsk_llr (sample : gr_complex) (npwr : R) : R :=
  let d (p : gr_complex) :=
    exp (- (Cabs (Csub sample p) * Cabs (Csub sample p))
         / (2 * npwr * (1 * 1)))%R in
  ((ln (0 + d (1%R, 0%R)) - ln (0 + d ((-1)%R, 0%R))) * (1 * 1))%R.

(** The weight [d] that [calc_soft_dec] computes for point [i]. *)
Definition soft_weight (c : constellation) (sample : gr_complex) (npwr : R)
           (i : nat) : R :=
  let p := nth i (d_constellation c) (0%R, 0%R) in
  let dist := (Cabs (Csub sample p) * Cabs (Csub sample p))%R in
  exp (- dist / (2 * npwr * (d_scalefactor c * d_scalefactor c)))%R.

(** The bit that [calc_soft_dec] takes at position [j] of the code of point
    [i]. *)
Definition code_bit (c : constellation) (i : nat) (j : Z) : Z :=
  Z.shiftr (Z.land (nth i (d_pre_diff_code c) 0) (Z.shiftl 1 j)) j.

(** What [calc_soft_dec] has added to [tmp[2*j + b]] after the first [n]
    points: the weights of the points whose code has bit [j] equal to 0, for
    [b = 0], and different from 0, for [b = 1]. *)
Fixpoint bit_sum (c : constellation) (sample : gr_complex) (npwr : R)
         (j : Z) (b : bool) (n : nat) : R :=
  match n with
  | O => 0%R
  | Datatypes.S n' =>
      let acc := bit_sum c sample npwr j b n' in
      if Bool.eqb (negb (code_bit c n' j =? 0)) b
      then (acc + soft_weight c sample npwr n')%R
      else acc
  end.

(** The vector [tmp] of [calc_soft_dec] when [done j] points have been
    added at bit position [j]. *)
Definition tmp_holds (c : constellation) (sample : gr_complex) (npwr : R)
           (k : Z) (done : Z -> nat) (tmp : list R) : Prop :=
  List.length tmp = Z.to_nat (2 * k)
  /\ forall j b, 0 <= j < k ->
                 nth (Z.to_nat (2 * j + b2z b)) tmp 0%R
                 = bit_sum c sample npwr j b (done j).

(** * Properties *)

(** ** Comparisons, loops and vectors *)

Lemma fltb_true (a b : R) : (a < b)%R -> fltb a b = true.
Proof. intros H. unfold fltb. destruct (Rlt_dec a b); [reflexivity | contradiction]. Qed.

Lemma fltb_false (a b : R) : (b <= a)%R -> fltb a b = false.
Proof. intros H. unfold fltb. destruct (Rlt_dec a b); [lra | reflexivity]. Qed.

Lemma fleb_true (a b : R) : (a <= b)%R -> fleb a b = true.
Proof. intros H. unfold fleb. destruct (Rle_dec a b); [reflexivity | contradiction]. Qed.

Lemma fleb_false (a b : R) : (b < a)%R -> fleb a b = false.
Proof. intros H. unfold fleb. destruct (Rle_dec a b); [lra | reflexivity]. Qed.

Lemma feqb_true (a b : R) : a = b -> feqb a b = true.
Proof. intros H. unfold feqb. destruct (Req_dec_T a b); [reflexivity | contradiction]. Qed.

Lemma feqb_false (a b : R) : a <> b -> feqb a b = false.
Proof. intros H. unfold feqb. destruct (Req_dec_T a b); [contradiction | reflexivity]. Qed.

Lemma bind_Ok {A B : Type} (a : A) (k : A -> result B) : bind (Ok a) k = k a.
Proof. reflexivity. Qed.

Lemma for_loop_S {S : Type} (body : Z -> S -> result S) (n : nat)
      (lo : Z) (s : S) :
  for_loop lo (Datatypes.S n) body s
  = (s' <- body lo s ;; for_loop (lo + 1) n body s').
Proof. reflexivity. Qed.

Lemma for_loop_snoc {S : Type} (body : Z -> S -> result S) (n : nat) :
  forall (lo : Z) (s : S),
    for_loop lo (Datatypes.S n) body s
    = (s' <- for_loop lo n body s ;; body (lo + Z.of_nat n) s').
Proof.
  induction n as [|n IH]; intros lo s.
  - simpl. rewrite Z.add_0_r. destruct (body lo s); reflexivity.
  - rewrite for_loop_S. rewrite (for_loop_S body n lo s).
    destruct (body lo s) as [s1| | |]; unfold bind at 1 3; try reflexivity.
    rewrite IH.
    replace (lo + 1 + Z.of_nat n) with (lo + Z.of_nat (Datatypes.S n)) by lia.
    reflexivity.
Qed.

Lemma size_nonneg {A : Type} (v : list A) : 0 <= size v.
Proof. unfold size. lia. Qed.

Lemma vec_at_nth {A : Type} (v : list A) (i : Z) (d : A) :
  0 <= i < size v -> vec_at v i = Ok (nth (Z.to_nat i) v d).
Proof.
  intros [H0 H1]. unfold vec_at, size in *.
  destruct (Z.ltb_spec i 0); [lia|].
  destruct (nth_error v (Z.to_nat i)) as [a|] eqn:E.
  - f_equal. symmetry. apply nth_error_nth. exact E.
  - apply nth_error_None in E. lia.
Qed.

Lemma vec_at_outside {A : Type} (v : list A) (i : Z) :
  size v <= i -> vec_at v i = Undefined.
Proof.
  intros H. unfold vec_at, size in *.
  destruct (Z.ltb_spec i 0); [reflexivity|].
  destruct (nth_error v (Z.to_nat i)) eqn:E; [|reflexivity].
  assert (nth_error v (Z.to_nat i) <> None) as N by congruence.
  apply nth_error_Some in N. lia.
Qed.

Lemma wrap_u32_small (z : Z) : 0 <= z < UINT_MOD -> wrap_u32 z = z.
Proof. intros H. unfold wrap_u32. apply Z.mod_small. exact H. Qed.

Lemma wrap_u32_range (z : Z) : 0 <= wrap_u32 z < UINT_MOD.
Proof. unfold wrap_u32, UINT_MOD. apply Z.mod_pos_bound. lia. Qed.

Lemma wrap_i32_small (z : Z) : 0 <= z <= INT_MAX -> wrap_i32 z = z.
Proof.
  intros H. unfold wrap_i32. rewrite wrap_u32_small by (unfold INT_MAX, UINT_MOD in *; lia).
  destruct (Z.leb_spec z INT_MAX); [reflexivity | lia].
Qed.

(** ** Well-formed constellation objects *)

Lemma calc_arity_wf (c c' : constellation) :
  0 <= d_dimensionality c -> size (d_constellation c) < UINT_MOD ->
  calc_arity c = Ok c' ->
  wf c' /\ d_constellation c' = d_constellation c
  /\ d_dimensionality c' = d_dimensionality c
  /\ d_pre_diff_code c' = d_pre_diff_code c
  /\ d_scalefactor c' = d_scalefactor c.
Proof.
  intros HD Hsz. unfold calc_arity.
  destruct (Z.eqb_spec (d_dimensionality c) 0) as [|HD0]; [discriminate|].
  destruct (Z.eqb_spec (size (d_constellation c) mod d_dimensionality c) 0)
    as [Hm|]; simpl; [|discriminate].
  intros E. injection E as <-. unfold wf. simpl.
  repeat split; try lia.
  apply Z.div_exact in Hm; lia.
Qed.

Lemma symbol_index_in_range (c : constellation) (j d : Z) :
  wf c -> 0 <= j < d_arity c -> 0 <= d < d_dimensionality c ->
  0 <= j * d_dimensionality c + d < size (d_constellation c).
Proof.
  intros (HD & Hsz & _) Hj Hd. rewrite Hsz. nia.
Qed.

Lemma vec_at_point (c : constellation) (j d : Z) :
  wf c -> 0 <= j < d_arity c -> 0 <= d < d_dimensionality c ->
  vec_at (d_constellation c) (wrap_u32 (j * d_dimensionality c + d))
  = Ok (point c j d).
Proof.
  intros W Hj Hd.
  pose proof (symbol_index_in_range c j d W Hj Hd) as Hr.
  destruct W as (_ & _ & Hlt).
  rewrite wrap_u32_small by lia.
  apply vec_at_nth. exact Hr.
Qed.

Lemma get_distance_eq (c : constellation) (j : Z) (sample : list gr_complex) :
  wf c -> 0 <= j < d_arity c -> size sample = d_dimensionality c ->
  get_distance c j sample
  = Ok (dist_upto c j sample (Z.to_nat (d_dimensionality c))).
Proof.
  intros W Hj Hs. unfold get_distance, for_range. rewrite Z.sub_0_r.
  assert (forall k : nat, Z.of_nat k <= d_dimensionality c ->
            for_loop 0 k
              (fun i dist =>
                 s <- vec_at sample i ;;
                 p <- vec_at (d_constellation c)
                             (wrap_u32 (j * d_dimensionality c + i)) ;;
                 Ok (dist + norm (Csub s p))%R) 0%R
            = Ok (dist_upto c j sample k)) as H.
  { induction k as [|k IH]; intros Hk; [reflexivity|].
    rewrite for_loop_snoc, IH by lia. rewrite bind_Ok, Z.add_0_l.
    rewrite (vec_at_nth sample (Z.of_nat k) (0%R, 0%R)) by lia.
    rewrite bind_Ok, vec_at_point by (auto; lia).
    rewrite bind_Ok. simpl. rewrite Nat2Z.id. reflexivity. }
  apply H. destruct W. lia.
Qed.

Lemma norm_nonneg (z : gr_complex) : (0 <= norm z)%R.
Proof. unfold norm. nra. Qed.

Lemma dist_upto_nonneg (c : constellation) (j : Z) (sample : list gr_complex)
      (k : nat) : (0 <= dist_upto c j sample k)%R.
Proof.
  induction k as [|k IH]; simpl; [lra|].
  pose proof (norm_nonneg (Csub (nth k sample (0%R, 0%R)) (point c j (Z.of_nat k)))).
  lra.
Qed.

(** The scan of [get_closest_point]: it ends on an index of least distance,
    and every symbol before that index is strictly farther. *)
Lemma get_closest_point_scan (c : constellation) (sample : list gr_complex) :
  wf c -> 1 <= d_arity c -> size sample = d_dimensionality c ->
  let dist j := dist_upto c j sample (Z.to_nat (d_dimensionality c)) in
  exists m,
    get_closest_point c sample = Ok m
    /\ 0 <= m < d_arity c
    /\ forall j, 0 <= j < d_arity c ->
                 (dist m <= dist j)%R /\ (j < m -> (dist m < dist j)%R).
Proof.
  intros W Ha Hs dist. unfold get_closest_point.
  rewrite get_distance_eq by (auto; lia). rewrite bind_Ok.
  unfold for_range.
  assert (forall k : nat, 1 + Z.of_nat k <= d_arity c ->
            exists m,
              for_loop 1 k
                (fun j (st : Z * R) =>
                   let (min_index, min_euclid_dist) := st in
                   euclid_dist <- get_distance c j sample ;;
                   if fltb euclid_dist min_euclid_dist
                   then Ok (j, euclid_dist)
                   else Ok (min_index, min_euclid_dist))
                (0, dist_upto c 0 sample (Z.to_nat (d_dimensionality c)))
              = Ok (m, dist m)
              /\ 0 <= m < 1 + Z.of_nat k
              /\ forall j, 0 <= j < 1 + Z.of_nat k ->
                           (dist m <= dist j)%R /\ (j < m -> (dist m < dist j)%R))
    as H.
  { induction k as [|k IH]; intros Hk.
    - exists 0. simpl. split; [reflexivity|]. split; [lia|].
      intros j Hj. assert (j = 0) by lia. subst j. split; [lra | lia].
    - destruct IH as (m & Hrun & Hm & Hmin); [lia|].
      rewrite for_loop_snoc, Hrun, bind_Ok.
      rewrite get_distance_eq by (auto; lia). rewrite bind_Ok.
      fold (dist (1 + Z.of_nat k)).
      unfold fltb. destruct (Rlt_dec (dist (1 + Z.of_nat k)) (dist m)) as [Hlt|Hge].
      + exists (1 + Z.of_nat k). split; [reflexivity|]. split; [lia|].
        intros j Hj. split.
        * destruct (Z.eq_dec j (1 + Z.of_nat k)) as [->|Hne]; [lra|].
          destruct (Hmin j) as [Hle _]; [lia|]. lra.
        * intros Hjm. destruct (Hmin j) as [Hle _]; [lia|]. lra.
      + exists m. split; [reflexivity|]. split; [lia|].
        intros j Hj. split.
        * destruct (Z.eq_dec j (1 + Z.of_nat k)) as [->|Hne]; [lra|].
          apply Hmin. lia.
        * intros Hjm. apply Hmin; lia. }
  destruct (H (Z.to_nat (d_arity c - 1))) as (m & Hrun & Hm & Hmin); [lia|].
  rewrite Hrun, bind_Ok. simpl. exists m. split; [reflexivity|].
  split; [lia|]. intros j Hj. apply Hmin. lia.
Qed.

(** ** Nearest-point search *)

Lemma constellation_bpsk_ctor_eq :
  constellation_bpsk.make = Ok (mk_object bpsk_base Bpsk).
Proof. reflexivity. Qed.

Lemma bpsk_base_wf : wf bpsk_base.
Proof.
  unfold wf, size, UINT_MOD.
  cbn [d_dimensionality d_constellation d_arity bpsk_base List.length]. lia.
Qed.

(** C9.  On a non-empty point set and a sample of [d_dimensionality] values,
    the decision of [constellation_calcdist] is an index whose distance to
    the sample ([get_distance]) is least among all [d_arity] symbols, and
    every symbol with a smaller index is strictly farther away: the first
    index wins ties. *)
Theorem calcdist_decision_is_first_minimum
        (c : constellation) (sample : list gr_complex) :
  wf c -> 1 <= d_arity c -> size sample = d_dimensionality c ->
  exists m dm,
    decision_maker (mk_object c Calcdist) sample = Ok m
    /\ 0 <= m < d_arity c
    /\ get_distance c m sample = Ok dm
    /\ forall j, 0 <= j < d_arity c ->
         exists dj, get_distance c j sample = Ok dj
                    /\ (dm <= dj)%R /\ (j < m -> (dm < dj)%R).
Proof.
  intros W Ha Hs.
  destruct (get_closest_point_scan c sample W Ha Hs) as (m & Hrun & Hm & Hmin).
  exists m, (dist_upto c m sample (Z.to_nat (d_dimensionality c))).
  split; [exact Hrun|]. split; [exact Hm|].
  split; [apply get_distance_eq; assumption|].
  intros j Hj. exists (dist_upto c j sample (Z.to_nat (d_dimensionality c))).
  split; [apply get_distance_eq; assumption|]. apply Hmin. exact Hj.
Qed.

Lemma calcdist_decision_is_first_minimum_witness :
  wf bpsk_base /\ 1 <= d_arity bpsk_base
  /\ size [(0%R, 0%R)] = d_dimensionality bpsk_base
  /\ exists m dm,
       decision_maker (mk_object bpsk_base Calcdist) [(0%R, 0%R)] = Ok m
       /\ 0 <= m < d_arity bpsk_base
       /\ get_distance bpsk_base m [(0%R, 0%R)] = Ok dm
       /\ forall j, 0 <= j < d_arity bpsk_base ->
            exists dj, get_distance bpsk_base j [(0%R, 0%R)] = Ok dj
                       /\ (dm <= dj)%R /\ (j < m -> (dm < dj)%R).
Proof.
  assert (1 <= d_arity bpsk_base) as Ha by (cbn [d_arity bpsk_base]; lia).
  assert (size [(0%R, 0%R)] = d_dimensionality bpsk_base) as Hs by reflexivity.
  split; [exact bpsk_base_wf|]. split; [exact Ha|]. split; [exact Hs|].
  exact (calcdist_decision_is_first_minimum bpsk_base [(0%R, 0%R)]
           bpsk_base_wf Ha Hs).
Defined.

(** ** Construction *)

Lemma size_zero_nil {A : Type} (v : list A) : size v = 0 <-> v = [].
Proof.
  unfold size. destruct v; simpl; split; intros H; try reflexivity;
    try discriminate; lia.
Qed.

(** C3, as the code has it.  For a dimensionality of at least 1 the
    constructor throws exactly when the number of points is not a multiple of
    the dimensionality, or the pre-diff code is non-empty and its length
    differs from the number of points; in every other case it returns an
    object. *)
Theorem constructor_throws_iff
        (constell : list gr_complex) (pre_diff_code : list Z)
        (rotational_symmetry dimensionality : Z) :
  1 <= dimensionality ->
  (throws (constellation_ctor constell pre_diff_code rotational_symmetry
             dimensionality)
   <-> code_construct_fails constell pre_diff_code dimensionality)
  /\ (~ code_construct_fails constell pre_diff_code dimensionality ->
      succeeds (constellation_ctor constell pre_diff_code rotational_symmetry
                  dimensionality)).
Proof.
  intros HD. unfold constellation_ctor, code_construct_fails, calc_arity.
  cbn [d_dimensionality d_constellation].
  pose proof (size_zero_nil pre_diff_code) as Hnil.
  replace (size (map (fun c =>
                        Cscale c (IZR (size constell) / summed_mag constell)%R)
                     constell))
    with (size constell) by (unfold size; rewrite length_map; reflexivity).
  destruct (Z.eqb_spec (size pre_diff_code) 0) as [Hp0|Hp0].
  - rewrite bind_Ok.
    destruct (Z.eqb_spec dimensionality 0) as [|_]; [lia|].
    destruct (Z.eqb_spec (size constell mod dimensionality) 0) as [Hm|Hm];
      cbn [negb].
    + split.
      * split.
        -- intros [w Hw]. discriminate.
        -- intros [H|[H _]]; [contradiction|]. apply Hnil in Hp0. contradiction.
      * intros _. eexists. reflexivity.
    + split.
      * split; [intros _; left; exact Hm | intros _; eexists; reflexivity].
      * intros H. exfalso. apply H. left. exact Hm.
  - destruct (Z.eqb_spec (size pre_diff_code) (size constell)) as [He|He];
      cbn [negb].
    + rewrite bind_Ok.
      destruct (Z.eqb_spec dimensionality 0) as [|_]; [lia|].
      destruct (Z.eqb_spec (size constell mod dimensionality) 0) as [Hm|Hm];
        cbn [negb].
      * split.
        -- split.
           ++ intros [w Hw]. discriminate.
           ++ intros [H|[_ H]]; contradiction.
        -- intros _. eexists. reflexivity.
      * split.
        -- split; [intros _; left; exact Hm | intros _; eexists; reflexivity].
        -- intros H. exfalso. apply H. left. exact Hm.
    + split.
      * split; [|intros _; eexists; reflexivity].
        intros _. right. split; [|exact He].
        intros E. apply Hp0. apply Hnil. exact E.
      * intros H. exfalso. apply H. right. split; [|exact He].
        intros E. apply Hp0. apply Hnil. exact E.
Qed.

Lemma constructor_throws_iff_witness :
  1 <= 2
  /\ (throws (constellation_ctor [(1%R, 0%R); (1%R, 0%R)] [] 0 2)
      <-> code_construct_fails [(1%R, 0%R); (1%R, 0%R)] [] 2)
  /\ (~ code_construct_fails [(1%R, 0%R); (1%R, 0%R)] [] 2 ->
      succeeds (constellation_ctor [(1%R, 0%R); (1%R, 0%R)] [] 0 2)).
Proof.
  assert (1 <= 2) as H by lia.
  split; [exact H|].
  exact (constructor_throws_iff [(1%R, 0%R); (1%R, 0%R)] [] 0 2 H).
Defined.

(** C3 fails as the specification words it: four points of dimensionality 2
    make two symbols, and a pre-diff code of length 2, the arity, is
    rejected. *)
Lemma constructor_rejects_code_of_arity_length :
  let points := [(1%R, 0%R); (0%R, 1%R); ((-1)%R, 0%R); (0%R, (-1)%R)] in
  ~ (throws (constellation_ctor points [0; 1] 0 2)
     <-> spec_construct_fails points [0; 1] 2).
Proof.
  intros points [H _].
  assert (throws (constellation_ctor points [0; 1] 0 2)) as T
      by (eexists; reflexivity).
  destruct (H T) as [Hm|[_ Hl]].
  - apply Hm. reflexivity.
  - apply Hl. reflexivity.
Qed.

(** What an object returned by the constructor holds. *)
Lemma constellation_ctor_ok
      (constell : list gr_complex) (pre_diff_code : list Z)
      (rotational_symmetry dimensionality : Z) (c : constellation) :
  constellation_ctor constell pre_diff_code rotational_symmetry dimensionality
  = Ok c ->
  d_scalefactor c = (IZR (size constell) / summed_mag constell)%R
  /\ d_constellation c = map (fun p => Cscale p (d_scalefactor c)) constell
  /\ d_pre_diff_code c = pre_diff_code
  /\ d_dimensionality c = dimensionality
  /\ d_arity c = size constell / dimensionality
  /\ dimensionality <> 0
  /\ size constell mod dimensionality = 0
  /\ (pre_diff_code = [] \/ size pre_diff_code = size constell)
  /\ d_soft_dec_lut c = [].
Proof.
  unfold constellation_ctor, calc_arity.
  cbn [d_dimensionality d_constellation].
  replace (size (map (fun c =>
                        Cscale c (IZR (size constell) / summed_mag constell)%R)
                     constell))
    with (size constell) by (unfold size; rewrite length_map; reflexivity).
  intros H.
  assert (pre_diff_code = [] \/ size pre_diff_code = size constell) as Hpre.
  { destruct (Z.eqb_spec (size pre_diff_code) 0) as [Hp0|Hp0].
    - left. apply size_zero_nil. exact Hp0.
    - destruct (Z.eqb_spec (size pre_diff_code) (size constell)); [right; assumption|].
      discriminate H. }
  destruct (if size pre_diff_code =? 0 then Ok false
            else if negb (size pre_diff_code =? size constell)
                 then Throw _ else Ok true) as [apply| | |];
    try discriminate H.
  rewrite bind_Ok in H.
  destruct (Z.eqb_spec dimensionality 0) as [|HD]; [discriminate|].
  destruct (Z.eqb_spec (size constell mod dimensionality) 0) as [Hm|Hm];
    cbn [negb] in H; [|discriminate].
  injection H as <-. cbn. repeat split; auto.
Qed.

Lemma fold_summed_mag_acc (l : list gr_complex) (a : R) :
  fold_left
    (fun acc c => (acc + sqrt (real c * real c + imag c * imag c))%R) l a
  = (a + summed_mag l)%R.
Proof.
  unfold summed_mag. revert a.
  induction l as [|p l IH]; intros a; simpl.
  - lra.
  - rewrite IH. rewrite (IH (0 + _)%R). lra.
Qed.

Lemma summed_mag_cons (p : gr_complex) (l : list gr_complex) :
  summed_mag (p :: l)
  = (sqrt (real p * real p + imag p * imag p) + summed_mag l)%R.
Proof.
  unfold summed_mag at 1. simpl. rewrite fold_summed_mag_acc. lra.
Qed.

Lemma summed_mag_nonneg (l : list gr_complex) : (0 <= summed_mag l)%R.
Proof.
  induction l as [|p l IH]; [unfold summed_mag; simpl; lra|].
  rewrite summed_mag_cons.
  pose proof (sqrt_pos (real p * real p + imag p * imag p)). lra.
Qed.

Lemma summed_mag_scale (l : list gr_complex) (s : R) :
  (0 <= s)%R ->
  summed_mag (map (fun p => Cscale p s) l) = (s * summed_mag l)%R.
Proof.
  intros Hs. induction l as [|p l IH].
  - unfold summed_mag. simpl. lra.
  - cbn [map]. rewrite !summed_mag_cons, IH. unfold Cscale, real, imag.
    cbn [fst snd].
    replace (fst p * s * (fst p * s) + snd p * s * (snd p * s))%R
      with ((s * s) * (fst p * fst p + snd p * snd p))%R by ring.
    rewrite sqrt_mult by nra. rewrite sqrt_square by exact Hs. ring.
Qed.

(** C4, as the code has it.  When the magnitudes of the raw points do not
    sum to zero, the constructor takes as scale factor the NUMBER OF POINTS
    divided by the summed magnitude, multiplies every point by it, and the
    stored magnitudes then sum to the number of points: their mean over all
    stored points is 1 (in real arithmetic). *)
Theorem scaling_gives_unit_mean_magnitude
        (constell : list gr_complex) (pre_diff_code : list Z)
        (rotational_symmetry dimensionality : Z) (c : constellation) :
  constellation_ctor constell pre_diff_code rotational_symmetry dimensionality
  = Ok c ->
  summed_mag constell <> 0%R ->
  d_scalefactor c = (IZR (size constell) / summed_mag constell)%R
  /\ d_constellation c = map (fun p => Cscale p (d_scalefactor c)) constell
  /\ (summed_mag (d_constellation c) / IZR (size (d_constellation c)) = 1)%R.
Proof.
  intros Hc Hsum.
  destruct (constellation_ctor_ok _ _ _ _ _ Hc) as (Hsf & Hpts & _).
  split; [exact Hsf|]. split; [exact Hpts|].
  pose proof (summed_mag_nonneg constell) as Hnn.
  assert (constell <> []) as Hne.
  { intros ->. apply Hsum. reflexivity. }
  assert (0 < IZR (size constell))%R as Hsz.
  { apply IZR_lt. unfold size. destruct constell; [contradiction|]. simpl. lia. }
  assert (0 < summed_mag constell)%R as Hpos by lra.
  assert (0 <= d_scalefactor c)%R as Hs0.
  { rewrite Hsf. apply Rlt_le, Rdiv_lt_0_compat; assumption. }
  rewrite Hpts at 1. rewrite summed_mag_scale by exact Hs0.
  replace (size (d_constellation c)) with (size constell)
    by (rewrite Hpts; unfold size; rewrite length_map; reflexivity).
  rewrite Hsf. field. split; lra.
Qed.

Lemma summed_mag_unit_pair : summed_mag [(1%R, 0%R); (1%R, 0%R)] = 2%R.
Proof.
  rewrite !summed_mag_cons. unfold summed_mag, real, imag. simpl.
  replace (1 * 1 + 0 * 0)%R with 1%R by lra. rewrite sqrt_1. lra.
Qed.

Lemma scaling_gives_unit_mean_magnitude_witness :
  exists c,
    constellation_ctor [(1%R, 0%R); (1%R, 0%R)] [] 0 2 = Ok c
    /\ summed_mag [(1%R, 0%R); (1%R, 0%R)] <> 0%R
    /\ d_scalefactor c
       = (IZR (size [(1%R, 0%R); (1%R, 0%R)])
          / summed_mag [(1%R, 0%R); (1%R, 0%R)])%R
    /\ d_constellation c
       = map (fun p => Cscale p (d_scalefactor c)) [(1%R, 0%R); (1%R, 0%R)]
    /\ (summed_mag (d_constellation c) / IZR (size (d_constellation c)) = 1)%R.
Proof.
  eexists.
  assert (summed_mag [(1%R, 0%R); (1%R, 0%R)] <> 0%R) as Hsum
      by (rewrite summed_mag_unit_pair; lra).
  split; [reflexivity|]. split; [exact Hsum|].
  exact (scaling_gives_unit_mean_magnitude
           [(1%R, 0%R); (1%R, 0%R)] [] 0 2 _ eq_refl Hsum).
Defined.

(** C4 fails as the specification words it: for one symbol of
    dimensionality 2 made of the points 1 and 1, the scale factor is 2/2 and
    not arity/2, and the stored magnitudes divided by the arity give 2. *)
Lemma scale_factor_is_not_arity_over_sum :
  exists c,
    constellation_ctor [(1%R, 0%R); (1%R, 0%R)] [] 0 2 = Ok c
    /\ summed_mag [(1%R, 0%R); (1%R, 0%R)] <> 0%R
    /\ d_scalefactor c
       <> (IZR (d_arity c) / summed_mag [(1%R, 0%R); (1%R, 0%R)])%R
    /\ (summed_mag (d_constellation c) / IZR (d_arity c) <> 1)%R.
Proof.
  eexists. split; [reflexivity|].
  cbn [d_scalefactor d_arity d_constellation with_arity].
  change (size [(1%R, 0%R); (1%R, 0%R)]) with 2.
  rewrite summed_mag_unit_pair.
  rewrite summed_mag_scale by lra. rewrite summed_mag_unit_pair.
  repeat match goal with
         | |- context [IZR (?a / ?b)] => change (a / b) with 1
         end.
  repeat split; lra.
Qed.

(** ** Soft decisions *)

Lemma Ztrunc_nonneg (x : R) : (0 <= x)%R -> Ztrunc x = Zfloor x.
Proof. intros H. unfold Ztrunc. rewrite fltb_false by exact H. reflexivity. Qed.

Lemma float_to_int_floor (x : R) :
  (0 <= x)%R -> (x < IZR (INT_MAX + 1))%R -> float_to_int x = Zfloor x.
Proof.
  intros H0 H1. unfold float_to_int. rewrite Ztrunc_nonneg by exact H0.
  assert (0 <= Zfloor x) as L by (apply Zfloor_lub; exact H0).
  assert (Zfloor x <= INT_MAX) as U.
  { destruct (Zfloor_bound x) as [Hb _].
    assert (IZR (Zfloor x) < IZR (INT_MAX + 1))%R as Hlt by lra.
    apply lt_IZR in Hlt. lia. }
  destruct (Z.leb_spec INT_MIN (Zfloor x)); [|unfold INT_MIN in *; lia].
  destruct (Z.leb_spec (Zfloor x) INT_MAX); [reflexivity | lia].
Qed.

Lemma ln_2_pos : (0 < ln 2)%R.
Proof. pose proof ln_lt_2. lra. Qed.

(** The number of bits per symbol that [calc_soft_dec] derives from the
    number of points. *)
Lemma bits_per_symbol_bounds (M : Z) :
  2 <= M <= INT_MAX ->
  1 <= float_to_int (ln (IZR M) / ln 2) <= 30.
Proof.
  intros [H2 HM]. pose proof ln_2_pos as L2.
  assert (ln 2 <= ln (IZR M))%R as Hlo.
  { destruct (Z.eq_dec M 2) as [->|Hne]; [lra|].
    apply Rlt_le, ln_increasing; [lra|]. apply IZR_lt. lia. }
  assert (ln (IZR M) < 31 * ln 2)%R as Hhi.
  { replace (31 * ln 2)%R with (ln (2 ^ 31)).
    - apply ln_increasing; [apply IZR_lt; lia|].
      rewrite pow_IZR. apply IZR_lt. unfold INT_MAX in HM.
      change (2 ^ Z.of_nat 31) with 2147483648. lia.
    - rewrite ln_pow by lra. simpl INR. lra. }
  assert (1 <= ln (IZR M) / ln 2 < 31)%R as [Hx1 Hx31].
  { split.
    - apply Rmult_le_reg_r with (ln 2); [exact L2|]. field_simplify; lra.
    - apply Rmult_lt_reg_r with (ln 2); [exact L2|]. field_simplify; lra. }
  rewrite float_to_int_floor; [|lra|unfold INT_MAX; simpl; lra].
  split.
  - apply Zfloor_lub. simpl. exact Hx1.
  - destruct (Zfloor_bound (ln (IZR M) / ln 2)) as [Hb _].
    assert (IZR (Zfloor (ln (IZR M) / ln 2)) < IZR 31)%R as Hlt by lra.
    apply lt_IZR in Hlt. lia.
Qed.

(** C1, what the code does.  [calc_soft_dec] takes bit [j] of
    [d_pre_diff_code[i]] whether or not a pre-diff code was given; on an
    object built with an empty pre-diff code and at least two points its
    first read of the code is outside the (empty) vector. *)
Theorem calc_soft_dec_reads_missing_code
        (constell : list gr_complex) (rotational_symmetry dimensionality : Z)
        (c : constellation) (sample : gr_complex) (npwr : R) :
  constellation_ctor constell [] rotational_symmetry dimensionality = Ok c ->
  2 <= size constell <= INT_MAX ->
  calc_soft_dec c sample npwr = Undefined.
Proof.
  intros Hc HM.
  destruct (constellation_ctor_ok _ _ _ _ _ Hc) as (_ & Hpts & Hcode & _).
  assert (size (d_constellation c) = size constell) as Hsz
      by (rewrite Hpts; unfold size; rewrite length_map; reflexivity).
  unfold calc_soft_dec. rewrite Hsz, Hcode.
  rewrite wrap_i32_small by lia.
  destruct (Z.leb_spec (size constell) 0); [lia|].
  pose proof (bits_per_symbol_bounds (size constell) HM) as Hk.
  set (k := float_to_int (ln (IZR (size constell)) / ln 2)) in *.
  unfold for_range at 1.
  destruct (Z.to_nat (size constell - 0)) as [|n] eqn:En; [lia|].
  rewrite for_loop_S.
  rewrite (vec_at_nth (d_constellation c) 0 (0%R, 0%R)) by lia.
  rewrite bind_Ok. unfold for_range at 1.
  destruct (Z.to_nat (k - 0)) as [|n'] eqn:En'; [lia|].
  rewrite for_loop_S. reflexivity.
Qed.

Lemma calc_soft_dec_reads_missing_code_witness :
  exists c,
    constellation_ctor [((-1)%R, 0%R); (1%R, 0%R)] [] 2 1 = Ok c
    /\ 2 <= size [((-1)%R, 0%R); (1%R, 0%R)] <= INT_MAX
    /\ calc_soft_dec c (0%R, 0%R) 1%R = Undefined.
Proof.
  eexists.
  assert (2 <= size [((-1)%R, 0%R); (1%R, 0%R)] <= INT_MAX) as HM
      by (unfold size, INT_MAX; simpl; lia).
  split; [reflexivity|]. split; [exact HM|].
  exact (calc_soft_dec_reads_missing_code
           [((-1)%R, 0%R); (1%R, 0%R)] 2 1 _ (0%R, 0%R) 1%R eq_refl HM).
Defined.

(** ** Evaluation on concrete inputs *)

Ltac fcmp :=
  repeat match goal with
    | |- context [fltb ?a ?b] =>
        first [rewrite (fltb_true a b) by lra | rewrite (fltb_false a b) by lra]
    | |- context [fleb ?a ?b] =>
        first [rewrite (fleb_true a b) by lra | rewrite (fleb_false a b) by lra]
    | |- context [feqb ?a ?b] =>
        first [rewrite (feqb_true a b) by lra | rewrite (feqb_false a b) by lra]
    end.

Ltac run := repeat (progress (unfold for_range; simpl; fcmp)).

Lemma sqrt_unit (x y : R) :
  (x * x + y * y = 1)%R -> sqrt (x * x + y * y) = 1%R.
Proof. intros ->. apply sqrt_1. Qed.

Lemma Cscale_one (p : gr_complex) : Cscale p 1 = p.
Proof. destruct p as [x y]. unfold Cscale, real, imag. simpl. f_equal; lra. Qed.

Lemma map_Cscale_one (l : list gr_complex) :
  map (fun p => Cscale p 1) l = l.
Proof.
  induction l as [|p l IH]; [reflexivity|].
  simpl. rewrite IH, Cscale_one. reflexivity.
Qed.

(** Raw points whose magnitudes sum to their number are stored unchanged. *)
Lemma constellation_ctor_unit_scale
      (constell : list gr_complex) (pre_diff_code : list Z)
      (rotational_symmetry dimensionality : Z) (c : constellation) :
  constellation_ctor constell pre_diff_code rotational_symmetry dimensionality
  = Ok c ->
  summed_mag constell = IZR (size constell) -> constell <> [] ->
  d_scalefactor c = 1%R /\ d_constellation c = constell.
Proof.
  intros Hc Hsum Hne.
  destruct (constellation_ctor_ok _ _ _ _ _ Hc) as (Hsf & Hpts & _).
  assert (d_scalefactor c = 1%R) as H1.
  { rewrite Hsf, Hsum. field. apply not_0_IZR.
    unfold size. destruct constell; [contradiction|]. simpl. lia. }
  split; [exact H1|]. rewrite Hpts, H1. apply map_Cscale_one.
Qed.

Lemma atan2_pos_real_axis (x y : R) : (0 < x)%R -> y = 0%R -> atan2 y x = 0%R.
Proof.
  intros Hx ->. unfold atan2. rewrite fltb_true by exact Hx.
  replace (0 / x)%R with 0%R by (field; lra). apply atan_0.
Qed.

Lemma atan2_neg_real_axis (x y : R) : (x < 0)%R -> y = 0%R -> atan2 y x = PI.
Proof.
  intros Hx ->. unfold atan2.
  rewrite (fltb_false 0 x) by lra. rewrite (fltb_true x 0) by exact Hx.
  rewrite (fltb_false 0 0) by lra.
  replace (0 / x)%R with 0%R by (field; lra). rewrite atan_0. lra.
Qed.

(** ** Phase error *)

Lemma summed_mag_pe_points : summed_mag pe_points = 4%R.
Proof.
  unfold pe_points. rewrite !summed_mag_cons. unfold summed_mag, real, imag.
  simpl. rewrite !sqrt_unit by lra. lra.
Qed.

(** C2, what the code does.  For the second of two symbols of
    dimensionality 2, [decision_maker_pe] conjugates [d_constellation[index+d]],
    the points 1 and 2, where [map_to_points] and [get_distance] read
    [d_constellation[index*D+d]], the points 2 and 3.  At the sample that IS
    the second symbol the reported phase error is - PI; the formula of the
    specification gives 0. *)
Theorem decision_maker_pe_reads_index_plus_d :
  exists o,
    constellation_calcdist.make pe_points [] 0 2 = Ok o
    /\ map_to_points (base o) 1 = Ok pe_sample
    /\ decision_maker_pe o pe_sample = Ok (1, (- PI)%R)
    /\ spec_phase_error (base o) 1 pe_sample = Ok 0%R.
Proof.
  assert (exists c, constellation_ctor pe_points [] 0 2 = Ok c) as [c Hc]
      by (eexists; reflexivity).
  destruct (constellation_ctor_unit_scale _ _ _ _ _ Hc) as [Hsf Hpts];
    [rewrite summed_mag_pe_points; reflexivity | discriminate |].
  destruct (constellation_ctor_ok _ _ _ _ _ Hc) as (_ & _ & _ & HD & Ha & _).
  change (size pe_points / 2) with 2 in Ha.
  exists (mk_object c Calcdist).
  split; [unfold constellation_calcdist.make; rewrite Hc; reflexivity|].
  split; [|split].
  - unfold map_to_points. cbn [base]. rewrite HD, Hpts. reflexivity.
  - unfold decision_maker_pe, decision_maker,
      constellation_calcdist.decision_maker. cbn [base cls].
    unfold get_closest_point, get_distance. rewrite HD, Ha, Hpts.
    unfold pe_points, pe_sample, norm, Csub, arg, Cmul, conj, real, imag.
    run.
    rewrite atan2_pos_real_axis by lra.
    rewrite atan2_neg_real_axis by lra.
    do 2 f_equal. lra.
  - unfold spec_phase_error. cbn [base]. rewrite HD, Hpts.
    unfold pe_points, pe_sample, arg, Cmul, conj, real, imag.
    run.
    rewrite !atan2_pos_real_axis by lra.
    do 2 f_equal. lra.
Qed.

(** ** Conversions of concrete floats *)

Lemma float_to_int_eq (z : Z) (x : R) :
  0 <= z <= INT_MAX -> (IZR z <= x < IZR z + 1)%R -> float_to_int x = z.
Proof.
  intros Hz Hx.
  assert (0 <= IZR z)%R as H0 by (apply IZR_le; lia).
  assert (IZR z + 1 <= IZR (INT_MAX + 1))%R as H1.
  { rewrite <- plus_IZR. apply IZR_le. lia. }
  rewrite float_to_int_floor by lra.
  apply Zfloor_eq. exact Hx.
Qed.

Lemma float_to_uint_eq (z : Z) (x : R) :
  0 <= z < UINT_MOD -> (IZR z <= x < IZR z + 1)%R -> float_to_uint x = z.
Proof.
  intros Hz Hx.
  assert (0 <= IZR z)%R as H0 by (apply IZR_le; lia).
  unfold float_to_uint. rewrite Ztrunc_nonneg by lra.
  rewrite (Zfloor_eq z) by exact Hx. apply wrap_u32_small. exact Hz.
Qed.

Ltac int_range := unfold INT_MAX, UINT_MOD; lia.

Ltac fconv z :=
  first [ rewrite (float_to_int_eq z) by (first [int_range | split; lra])
        | rewrite (float_to_uint_eq z) by (first [int_range | split; lra]) ].

(** ** Sector tables *)

Lemma summed_mag_bpsk_points : summed_mag bpsk_points = 2%R.
Proof.
  unfold bpsk_points. rewrite !summed_mag_cons. unfold summed_mag, real, imag.
  simpl. rewrite !sqrt_unit by lra. lra.
Qed.

(** The base that the constructor builds from the two points -1 and 1. *)
Lemma bpsk_points_ctor (pre_diff_code : list Z) (rot : Z) :
  pre_diff_code = [] \/ size pre_diff_code = 2 ->
  exists b,
    constellation_ctor bpsk_points pre_diff_code rot 1 = Ok b
    /\ d_scalefactor b = 1%R /\ d_constellation b = bpsk_points
    /\ d_pre_diff_code b = pre_diff_code
    /\ d_dimensionality b = 1 /\ d_arity b = 2 /\ d_soft_dec_lut b = [].
Proof.
  intros Hpre.
  assert (exists b, constellation_ctor bpsk_points pre_diff_code rot 1 = Ok b)
    as [b Hb].
  { unfold constellation_ctor.
    destruct Hpre as [->|Hp]; [eexists; reflexivity|].
    change (size bpsk_points) with 2. rewrite Hp. eexists. reflexivity. }
  exists b. split; [exact Hb|].
  destruct (constellation_ctor_unit_scale _ _ _ _ _ Hb) as [Hsf Hpts];
    [rewrite summed_mag_bpsk_points; reflexivity | discriminate |].
  destruct (constellation_ctor_ok _ _ _ _ _ Hb)
    as (_ & _ & Hcode & HD & Ha & _ & _ & _ & Hlut).
  repeat split; assumption.
Qed.

(** Nearest-point search over the points -1 and 1 looks at the sign of the
    real part only. *)
Lemma bpsk_points_closest (b : constellation) (x y : R) :
  d_constellation b = bpsk_points -> d_dimensionality b = 1 ->
  d_arity b = 2 ->
  get_closest_point b [(x, y)] = Ok (b2z (fltb 0 x)).
Proof.
  intros Hpts HD Ha.
  unfold get_closest_point, get_distance. rewrite HD, Ha, Hpts.
  unfold bpsk_points, norm, Csub, real, imag. unfold for_range. simpl.
  unfold fltb.
  destruct (Rlt_dec _ _) as [H|H]; destruct (Rlt_dec 0 x) as [H'|H'];
    simpl; try reflexivity; exfalso; nra.
Qed.

(** The table built by [constellation_sector.find_sector_values] holds, sector by sector, what
    [calc_sector_value] returned. *)
Lemma find_sector_values_ok (f : Z -> result Z) (n : Z) (values : list Z) :
  constellation_sector.find_sector_values f n = Ok values ->
  size values = Z.max 0 n
  /\ forall i, 0 <= i < n -> f i = vec_at values i.
Proof.
  unfold constellation_sector.find_sector_values, for_range. rewrite Z.sub_0_r.
  assert (forall (k : nat) (l : list Z),
             for_loop 0 k
               (fun i values => v <- f i ;; Ok (values ++ [v])) [] = Ok l ->
             size l = Z.of_nat k
             /\ forall i, 0 <= i < Z.of_nat k -> f i = vec_at l i) as H.
  { induction k as [|k IH]; intros l Hl.
    - injection Hl as <-. split; [reflexivity | intros i Hi; lia].
    - rewrite for_loop_snoc in Hl.
      destruct (for_loop 0 k _ []) as [l'| | |]; try discriminate Hl.
      rewrite bind_Ok, Z.add_0_l in Hl.
      destruct (f (Z.of_nat k)) as [v| | |] eqn:Ev; try discriminate Hl.
      rewrite bind_Ok in Hl. injection Hl as <-.
      destruct (IH l' eq_refl) as [Hsz Hval].
      assert (size (l' ++ [v]) = Z.of_nat (Datatypes.S k)) as Hsz'.
      { unfold size in *. rewrite length_app. simpl. lia. }
      split; [exact Hsz'|].
      intros i Hi.
      destruct (Z.eq_dec i (Z.of_nat k)) as [->|Hne].
      + rewrite Ev. rewrite (vec_at_nth _ _ 0) by lia.
        f_equal. rewrite Nat2Z.id.
        unfold size in Hsz. apply Nat2Z.inj in Hsz. rewrite <- Hsz.
        rewrite nth_middle. reflexivity.
      + rewrite Hval by lia.
        rewrite (vec_at_nth l' i 0) by lia.
        rewrite (vec_at_nth (l' ++ [v]) i 0) by lia.
        f_equal. rewrite app_nth1; [reflexivity|].
        unfold size in Hsz. lia. }
  intros Hv. destruct (H (Z.to_nat n) values Hv) as [Hsz Hval].
  split; [lia|]. intros i Hi. apply Hval. lia.
Qed.

Lemma calc_sector_center_eq (r : rect_state) (kr ki : Z) :
  0 <= kr -> 0 <= ki < n_imag_sectors r ->
  kr * n_imag_sectors r + ki < UINT_MOD ->
  constellation_rect.calc_sector_center r (kr * n_imag_sectors r + ki) = bin_center r kr ki.
Proof.
  intros Hkr Hki Hlt. unfold constellation_rect.calc_sector_center, bin_center.
  assert (0 < IZR (n_imag_sectors r))%R as Hn by (apply IZR_lt; lia).
  assert (kr < UINT_MOD) as Hkr' by nia.
  rewrite (float_to_uint_eq kr).
  - replace (kr * n_imag_sectors r + ki - kr * n_imag_sectors r) with ki by ring.
    rewrite wrap_u32_small by nia. reflexivity.
  - lia.
  - rewrite plus_IZR, mult_IZR.
    assert (0 <= IZR ki < IZR (n_imag_sectors r))%R as [Hi0 Hi1]
        by (split; [apply IZR_le | apply IZR_lt]; lia).
    split.
    + apply Rmult_le_reg_r with (IZR (n_imag_sectors r)); [exact Hn|].
      unfold Rdiv. rewrite Rmult_assoc, Rinv_l by lra. nra.
    + apply Rmult_lt_reg_r with (IZR (n_imag_sectors r)); [exact Hn|].
      unfold Rdiv. rewrite Rmult_assoc, Rinv_l by lra. nra.
Qed.

Lemma quotient_to_int_defined (x width : R) (n : Z) :
  axis_defined x width n ->
  quotient_to_int x width n = Ok (float_to_int (x / width + IZR n / 2)).
Proof.
  intros [Hw [Hlo Hhi]]. unfold quotient_to_int.
  rewrite feqb_false by exact Hw.
  rewrite (fltb_true _ _ Hlo), (fltb_true _ _ Hhi). reflexivity.
Qed.

Lemma quotient_to_int_zero_width (x : R) (n : Z) :
  quotient_to_int x 0 n = Undefined.
Proof. unfold quotient_to_int. rewrite feqb_true by reflexivity. reflexivity. Qed.

Lemma rect_get_sector_axes (r : rect_state) (s : gr_complex)
      (rest : list gr_complex) :
  axis_defined (real s) (d_width_real_sectors r) (n_real_sectors r) ->
  axis_defined (imag s) (d_width_imag_sectors r) (n_imag_sectors r) ->
  constellation_rect.get_sector r (s :: rest)
  = Ok (wrap_u32
          (axis_sector (real s) (d_width_real_sectors r) (n_real_sectors r)
           * n_imag_sectors r
           + axis_sector (imag s) (d_width_imag_sectors r) (n_imag_sectors r))).
Proof.
  intros Hre Him. unfold constellation_rect.get_sector.
  change (vec_at (s :: rest) 0) with (Ok s). rewrite bind_Ok.
  rewrite (quotient_to_int_defined _ _ _ Hre), bind_Ok.
  rewrite (quotient_to_int_defined _ _ _ Him), bind_Ok.
  reflexivity.
Qed.

(** The value converted at the centre of a bin is the bin number plus one
    half. *)
Lemma axis_defined_center (k n : Z) (width : R) :
  1 <= n <= INT_MAX -> 0 <= k < n -> width <> 0%R ->
  axis_defined ((IZR k + 5 / 10 - IZR n / 2) * width) width n.
Proof.
  intros Hn Hk Hw. split; [exact Hw|].
  replace ((IZR k + 5 / 10 - IZR n / 2) * width / width + IZR n / 2)%R
    with (IZR k + 5 / 10)%R by (field; exact Hw).
  assert (0 <= IZR k <= IZR INT_MAX)%R
    by (split; apply IZR_le; lia).
  unfold INT_MIN, INT_MAX in *. lra.
Qed.

(** [axis_defined] at explicit numbers. *)
Ltac axis_numbers :=
  unfold axis_defined, real, imag, INT_MIN, INT_MAX;
  cbn [fst snd n_real_sectors n_imag_sectors d_width_real_sectors
       d_width_imag_sectors];
  split; lra.

(** A quotient of at most 10^9 in absolute value, shifted by half a sector
    count that fits [int], is converted inside [int]. *)
Lemma axis_defined_bounded (x width : R) (n : Z) :
  0 <= n <= INT_MAX -> width <> 0%R ->
  (Rabs (x / width) <= 1000000000)%R ->
  axis_defined x width n.
Proof.
  intros Hn Hw Hq. split; [exact Hw|].
  assert (0 <= IZR n <= IZR INT_MAX)%R
    by (split; apply IZR_le; lia).
  unfold Rabs in Hq. destruct (Rcase_abs (x / width));
    unfold INT_MIN, INT_MAX in *; lra.
Qed.

Lemma axis_sector_center (k n : Z) (width : R) :
  1 <= n <= INT_MAX -> 0 <= k < n -> width <> 0%R ->
  axis_sector ((IZR k + 5 / 10 - IZR n / 2) * width) width n = k.
Proof.
  intros Hn Hk Hw. unfold axis_sector.
  replace ((IZR k + 5 / 10 - IZR n / 2) * width / width + IZR n / 2)%R
    with (IZR k + 5 / 10)%R by (field; exact Hw).
  rewrite (float_to_int_eq k) by (try lia; split; lra).
  destruct (Z.ltb_spec k 0); [lia|].
  rewrite wrap_i32_small by lia.
  destruct (Z.leb_spec n k); [lia | reflexivity].
Qed.

Lemma rect_get_sector_center (r : rect_state) (kr ki : Z) :
  1 <= n_real_sectors r <= INT_MAX -> 1 <= n_imag_sectors r <= INT_MAX ->
  d_width_real_sectors r <> 0%R -> d_width_imag_sectors r <> 0%R ->
  0 <= kr < n_real_sectors r -> 0 <= ki < n_imag_sectors r ->
  constellation_rect.get_sector r [bin_center r kr ki]
  = Ok (wrap_u32 (kr * n_imag_sectors r + ki)).
Proof.
  intros Hnr Hni Hwr Hwi Hkr Hki.
  rewrite rect_get_sector_axes;
    unfold bin_center, real, imag; cbn [fst snd];
    try (apply axis_defined_center; assumption).
  rewrite !axis_sector_center by assumption. reflexivity.
Qed.

Lemma float_to_int_range (x : R) : INT_MIN <= float_to_int x <= INT_MAX.
Proof.
  unfold float_to_int.
  destruct (Z.leb_spec INT_MIN (Ztrunc x)); simpl.
  - destruct (Z.leb_spec (Ztrunc x) INT_MAX); [lia|].
    unfold INT_MIN, INT_MAX. lia.
  - unfold INT_MIN, INT_MAX. lia.
Qed.

Lemma wrap_u32_idem_i32 (z : Z) : wrap_u32 (wrap_i32 z) = wrap_u32 z.
Proof.
  unfold wrap_i32. destruct (Z.leb_spec (wrap_u32 z) INT_MAX).
  - unfold wrap_u32. apply Z.mod_mod. unfold UINT_MOD. lia.
  - unfold wrap_u32.
    replace (z mod UINT_MOD - UINT_MOD) with (z mod UINT_MOD + (-1) * UINT_MOD)
      by ring.
    rewrite Z.mod_add by (unfold UINT_MOD; lia).
    apply Z.mod_mod. unfold UINT_MOD. lia.
Qed.

(** The index that one axis delivers after the two clamps is, as an
    [unsigned int], below the sector count of the axis. *)
Lemma axis_sector_range (x width : R) (n : Z) :
  1 <= n < UINT_MOD -> 0 <= wrap_u32 (axis_sector x width n) < n.
Proof.
  intros Hn. unfold axis_sector.
  pose proof (float_to_int_range (x / width + IZR n / 2)) as Hr.
  set (s0 := float_to_int (x / width + IZR n / 2)) in *.
  assert (0 <= (if s0 <? 0 then 0 else s0) <= INT_MAX) as Hs.
  { destruct (Z.ltb_spec s0 0); unfold INT_MAX in *; lia. }
  set (s1 := if s0 <? 0 then 0 else s0) in *.
  destruct (Z.leb_spec (wrap_i32 n) s1) as [Hge|Hlt].
  - rewrite wrap_u32_idem_i32.
    rewrite (wrap_u32_small (n - 1)) by lia.
    rewrite wrap_u32_small by lia. lia.
  - assert (wrap_i32 n <= n) as Hle.
    { unfold wrap_i32. rewrite wrap_u32_small by lia.
      destruct (Z.leb_spec n INT_MAX); unfold UINT_MOD; lia. }
    rewrite wrap_u32_small; unfold INT_MAX, UINT_MOD in *; lia.
Qed.

Lemma wrap_u32_combine (a b n : Z) :
  wrap_u32 (a * n + b) = wrap_u32 (wrap_u32 a * n + wrap_u32 b).
Proof.
  unfold wrap_u32.
  rewrite (Z.add_mod (a * n) b), (Z.mul_mod a n) by (unfold UINT_MOD; lia).
  rewrite (Z.add_mod (a mod UINT_MOD * n) (b mod UINT_MOD)),
    (Z.mul_mod (a mod UINT_MOD) n) by (unfold UINT_MOD; lia).
  rewrite !Z.mod_mod by (unfold UINT_MOD; lia). reflexivity.
Qed.

(** [constellation_rect::get_sector] stays below the product of the sector
    counts. *)
Lemma rect_get_sector_range (r : rect_state) (s : gr_complex)
      (rest : list gr_complex) :
  1 <= n_real_sectors r < UINT_MOD -> 1 <= n_imag_sectors r < UINT_MOD ->
  axis_defined (real s) (d_width_real_sectors r) (n_real_sectors r) ->
  axis_defined (imag s) (d_width_imag_sectors r) (n_imag_sectors r) ->
  exists sector,
    constellation_rect.get_sector r (s :: rest) = Ok sector
    /\ 0 <= sector <= n_real_sectors r * n_imag_sectors r - 1.
Proof.
  intros Hnr Hni Hdre Hdim. rewrite rect_get_sector_axes by assumption.
  eexists. split; [reflexivity|].
  rewrite wrap_u32_combine.
  pose proof (axis_sector_range (real s) (d_width_real_sectors r) _ Hnr) as Ha.
  pose proof (axis_sector_range (imag s) (d_width_imag_sectors r) _ Hni) as Hb.
  set (a := wrap_u32 (axis_sector (real s) _ _)) in *.
  set (b := wrap_u32 (axis_sector (imag s) _ _)) in *.
  pose proof (wrap_u32_range (a * n_imag_sectors r + b)) as Hw.
  assert (wrap_u32 (a * n_imag_sectors r + b) <= a * n_imag_sectors r + b).
  { unfold wrap_u32. apply Z.mod_le; [nia | unfold UINT_MOD; lia]. }
  split; [lia | nia].
Qed.

(** What [constellation_rect.construct] returns. *)
Lemma constellation_rect_build_ok
      (constell : list gr_complex) (pre_diff_code : list Z)
      (rotational_symmetry real_sectors imag_sectors : Z)
      (width_real_sectors width_imag_sectors : R)
      (b : constellation) (st : sector_state) (r : rect_state) :
  constellation_rect.construct constell pre_diff_code rotational_symmetry
    real_sectors imag_sectors width_real_sectors width_imag_sectors
  = Ok (b, st, r) ->
  constellation_ctor constell pre_diff_code rotational_symmetry 1 = Ok b
  /\ r = mk_rect real_sectors imag_sectors
           (width_real_sectors * d_scalefactor b)%R
           (width_imag_sectors * d_scalefactor b)%R
  /\ n_sectors st = wrap_u32 (real_sectors * imag_sectors)
  /\ constellation_sector.find_sector_values
       (constellation_rect.calc_sector_value b r) (n_sectors st)
     = Ok (sector_values st).
Proof.
  unfold constellation_rect.construct. intros H.
  destruct (constellation_ctor constell pre_diff_code rotational_symmetry 1)
    as [b'| | |]; try discriminate H.
  rewrite bind_Ok in H.
  destruct (constellation_sector.find_sector_values _ _) as [values| | |] eqn:Ev;
    try discriminate H.
  rewrite bind_Ok in H. injection H as <- <- <-.
  repeat split. exact Ev.
Qed.

Lemma constellation_ctor_wf
      (constell : list gr_complex) (pre_diff_code : list Z)
      (rotational_symmetry dimensionality : Z) (c : constellation) :
  constellation_ctor constell pre_diff_code rotational_symmetry dimensionality
  = Ok c ->
  1 <= dimensionality -> size constell < UINT_MOD -> wf c.
Proof.
  intros Hc HD Hsz.
  destruct (constellation_ctor_ok _ _ _ _ _ Hc)
    as (_ & Hpts & _ & HD' & Ha & _ & Hm & _).
  assert (size (d_constellation c) = size constell) as Hs
      by (rewrite Hpts; unfold size; rewrite length_map; reflexivity).
  unfold wf. rewrite Hs, HD', Ha. repeat split; try lia.
  apply Z.div_exact in Hm; lia.
Qed.

Lemma two_bin_rect_build :
  exists b,
    constellation_rect.construct bpsk_points [] 2 2 1 1%R 1%R
    = Ok (b, mk_sector 2 [0; 1], two_bins)
    /\ d_constellation b = bpsk_points
    /\ d_dimensionality b = 1 /\ d_arity b = 2.
Proof.
  destruct (bpsk_points_ctor [] 2 (or_introl eq_refl))
    as (b & Hb & Hsf & Hpts & _ & HD & Ha & _).
  exists b. split; [|repeat split; assumption].
  unfold constellation_rect.construct. rewrite Hb, bind_Ok, Hsf.
  fold two_bins.
  unfold constellation_sector.find_sector_values, for_range,
    constellation_rect.calc_sector_value.
  change (Z.to_nat (wrap_u32 (2 * 1) - 0)) with 2%nat.
  rewrite for_loop_S.
  change (constellation_rect.calc_sector_center two_bins 0)
    with (constellation_rect.calc_sector_center two_bins (0 * n_imag_sectors two_bins + 0)).
  rewrite calc_sector_center_eq by (cbn; int_range).
  unfold bin_center at 1. rewrite (bpsk_points_closest b) by assumption.
  rewrite (fltb_false 0) by (cbn; lra).
  cbn [bind b2z app]. rewrite for_loop_S.
  change (constellation_rect.calc_sector_center two_bins (0 + 1))
    with (constellation_rect.calc_sector_center two_bins (1 * n_imag_sectors two_bins + 0)).
  rewrite calc_sector_center_eq by (cbn; int_range).
  unfold bin_center at 1. rewrite (bpsk_points_closest b) by assumption.
  rewrite (fltb_true 0) by (cbn; lra).
  reflexivity.
Qed.

Lemma axis_sector_eq (z n : Z) (x width : R) :
  0 <= z <= INT_MAX -> 1 <= n <= INT_MAX -> z < n ->
  (IZR z <= x / width + IZR n / 2 < IZR z + 1)%R ->
  axis_sector x width n = z.
Proof.
  intros Hz Hn Hlt Hx. unfold axis_sector.
  rewrite (float_to_int_eq z) by assumption.
  destruct (Z.ltb_spec z 0); [lia|].
  rewrite wrap_i32_small by lia.
  destruct (Z.leb_spec n z); [lia | reflexivity].
Qed.

(** The sector table supplied to [constellation_expl_rect] is stored in
    [d_sector_values] and never read: two objects that differ only in the
    supplied table decide alike. *)
Lemma expl_rect_table_is_not_consulted
      (constell : list gr_complex) (pre_diff_code : list Z)
      (rot real_sectors imag_sectors : Z) (w_re w_im : R)
      (table1 table2 : list Z) (sample : list gr_complex) :
  (o <- constellation_expl_rect.make constell pre_diff_code rot real_sectors
          imag_sectors w_re w_im table1 ;;
   decision_maker o sample)
  = (o <- constellation_expl_rect.make constell pre_diff_code rot real_sectors
            imag_sectors w_re w_im table2 ;;
     decision_maker o sample).
Proof.
  unfold constellation_expl_rect.make.
  destruct (constellation_rect.construct _ _ _ _ _ _ _) as [[[b s] r]| | |];
    reflexivity.
Qed.

(** C5, what the code does.  The object is built over the points -1 and 1
    with two real sectors; the caller's table sends sector 1 to symbol 0.
    The sample 1/2 lies in sector 1, and the decision is symbol 1: the entry
    of the table that [find_sector_values] computed by nearest-point search
    in the base-class constructor, not the caller's entry. *)
Theorem expl_rect_decides_by_computed_table :
  exists b,
    constellation_expl_rect.make bpsk_points [] 2 2 1 1%R 1%R [1; 0]
    = Ok (mk_object b (ExplRect (mk_sector 2 [0; 1]) two_bins [1; 0]))
    /\ constellation_rect.get_sector two_bins [((1 / 2)%R, 0%R)] = Ok 1
    /\ vec_at [1; 0] 1 = Ok 0
    /\ decision_maker
         (mk_object b (ExplRect (mk_sector 2 [0; 1]) two_bins [1; 0]))
         [((1 / 2)%R, 0%R)] = Ok 1
    /\ get_closest_point b [((1 / 2)%R, 0%R)] = Ok 1.
Proof.
  destruct two_bin_rect_build as (b & Hbuild & Hpts & HD & Ha).
  assert (constellation_rect.get_sector two_bins [((1 / 2)%R, 0%R)] = Ok 1) as Hsec.
  { rewrite rect_get_sector_axes by (unfold two_bins; axis_numbers).
    unfold two_bins, real, imag.
    cbn [fst snd n_real_sectors n_imag_sectors d_width_real_sectors
         d_width_imag_sectors].
    rewrite (axis_sector_eq 1) by (try int_range; split; lra).
    rewrite (axis_sector_eq 0) by (try int_range; split; lra).
    reflexivity. }
  exists b. split; [|split; [exact Hsec|split; [reflexivity|split]]].
  - unfold constellation_expl_rect.make. rewrite Hbuild. reflexivity.
  - unfold decision_maker, constellation_sector.decision_maker. cbn [cls].
    rewrite Hsec. reflexivity.
  - rewrite (bpsk_points_closest b) by assumption.
    rewrite fltb_true by lra. reflexivity.
Qed.




(** ** Angles *)

Lemma tan_shift_PI (x : R) : cos x <> 0%R -> tan (x + PI) = tan x.
Proof.
  intros Hc. unfold tan. rewrite neg_sin, neg_cos. field. exact Hc.
Qed.

Lemma cos_pos_quadrants (x : R) :
  (- PI < x <= PI)%R -> (0 < cos x)%R -> (- (PI / 2) < x < PI / 2)%R.
Proof.
  intros [Hlo Hhi] Hc. pose proof PI_RGT_0 as Hpi. split.
  - destruct (Rlt_dec (- (PI / 2)) x) as [H|H]; [exact H|]. exfalso.
    assert (cos (- x) <= 0)%R by (apply cos_le_0; lra).
    rewrite cos_neg in *. lra.
  - destruct (Rlt_dec x (PI / 2)) as [H|H]; [exact H|]. exfalso.
    assert (cos x <= 0)%R by (apply cos_le_0; lra). lra.
Qed.

Lemma cos_neg_quadrants (x : R) :
  (- PI < x <= PI)%R -> (cos x < 0)%R ->
  (x < - (PI / 2) \/ PI / 2 < x)%R.
Proof.
  intros [Hlo Hhi] Hc.
  destruct (Rlt_dec x (- (PI / 2))) as [H|H]; [left; exact H|].
  destruct (Rlt_dec (PI / 2) x) as [H'|H']; [right; exact H'|]. exfalso.
  assert (0 <= cos x)%R by (apply cos_ge_0; lra). lra.
Qed.

Lemma cos_zero_quadrants (x : R) :
  (- PI < x <= PI)%R -> cos x = 0%R -> x = (- (PI / 2))%R \/ x = (PI / 2)%R.
Proof.
  intros [Hlo Hhi] Hc. pose proof PI_RGT_0 as Hpi.
  destruct (Rtotal_order x (- (PI / 2))) as [H|[H|H]].
  - exfalso. assert (cos (- x) < 0)%R by (apply cos_lt_0; lra).
    rewrite cos_neg in *. lra.
  - left. exact H.
  - destruct (Rtotal_order x (PI / 2)) as [H'|[H'|H']].
    + exfalso. assert (0 < cos x)%R by (apply cos_gt_0; lra). lra.
    + right. exact H'.
    + exfalso. assert (cos x < 0)%R by (apply cos_lt_0; lra). lra.
Qed.

(** [atan2] recovers the angle of a point of the unit circle. *)
Lemma atan2_sin_cos (x : R) :
  (- PI < x <= PI)%R -> atan2 (sin x) (cos x) = x.
Proof.
  intros Hx. pose proof PI_RGT_0 as Hpi. unfold atan2.
  destruct (Rtotal_order 0 (cos x)) as [Hc|[Hc|Hc]].
  - rewrite fltb_true by exact Hc.
    pose proof (cos_pos_quadrants x Hx Hc) as Hq.
    change (sin x / cos x)%R with (tan x). apply atan_tan. exact Hq.
  - rewrite (fltb_false 0 (cos x)), (fltb_false (cos x) 0) by lra.
    destruct (cos_zero_quadrants x Hx (eq_sym Hc)) as [->| ->].
    + rewrite sin_neg, sin_PI2.
      rewrite fltb_false by lra. rewrite fltb_true by lra. reflexivity.
    + rewrite sin_PI2. rewrite fltb_true by lra. reflexivity.
  - rewrite (fltb_false 0 (cos x)), (fltb_true (cos x) 0) by lra.
    change (sin x / cos x)%R with (tan x).
    destruct (cos_neg_quadrants x Hx Hc) as [Hq|Hq].
    + assert (sin x < 0)%R as Hs by (apply sin_lt_0_var; lra).
      rewrite fltb_true by exact Hs.
      rewrite <- (tan_shift_PI x) by lra.
      rewrite atan_tan by lra. lra.
    + assert (0 <= sin x)%R as Hs by (apply sin_ge_0; lra).
      rewrite fltb_false by exact Hs.
      replace x with ((x - PI) + PI)%R at 1 by ring.
      rewrite tan_shift_PI.
      * rewrite atan_tan by lra. lra.
      * replace (x - PI)%R with (- (PI - x))%R by ring.
        rewrite cos_neg, Rtrigo_facts.cos_pi_minus. lra.
Qed.

Lemma Ztrunc_IZR (z : Z) : Ztrunc (IZR z) = z.
Proof.
  unfold Ztrunc. destruct (Rlt_dec (IZR z) 0) as [H|H].
  - rewrite fltb_true by exact H. apply Zceil_eq. lra.
  - rewrite fltb_false by lra. apply ZfloorZ.
Qed.

Lemma float_to_int_IZR (z : Z) :
  INT_MIN <= z <= INT_MAX -> float_to_int (IZR z) = z.
Proof.
  intros [Hlo Hhi]. unfold float_to_int. rewrite Ztrunc_IZR.
  destruct (Z.leb_spec INT_MIN z); [|lia].
  destruct (Z.leb_spec z INT_MAX); [reflexivity | lia].
Qed.

(** The wedge of a point of the unit circle at the centre angle of wedge
    [s] is [s]. *)
Lemma psk_get_sector_center (st : sector_state) (s : Z) :
  1 <= n_sectors st < UINT_MOD -> 0 <= s < n_sectors st ->
  constellation_psk.get_sector st [constellation_psk.sector_center (n_sectors st) s] = Ok s.
Proof.
  intros Hn Hs. pose proof PI_RGT_0 as Hpi.
  unfold constellation_psk.get_sector, constellation_psk.sector_center.
  set (n := n_sectors st) in *.
  assert (0 < IZR n)%R as Hnr by (apply IZR_lt; lia).
  assert (0 <= IZR s < IZR n)%R as [Hs0 Hs1]
      by (split; [apply IZR_le | apply IZR_lt]; lia).
  set (phi := (IZR s * (2 * PI) / IZR n)%R).
  assert (phi * IZR n = IZR s * (2 * PI))%R as Hphi
      by (unfold phi; field; lra).
  change (vec_at [(cos phi, sin phi)] 0) with (Ok (cos phi, sin phi)).
  rewrite bind_Ok. unfold arg, real, imag. cbn [fst snd].
  destruct (Z.le_gt_cases (2 * s) n) as [Hhalf|Hhalf].
  - assert (2 * IZR s <= IZR n)%R as Hh.
    { rewrite <- mult_IZR. apply IZR_le. exact Hhalf. }
    assert (0 <= phi <= PI)%R as Hrange by (split; nra).
    rewrite atan2_sin_cos by lra.
    replace (phi / (2 * PI / IZR n) + 5 / 10)%R with (IZR s + 5 / 10)%R
      by (unfold phi; field; lra).
    rewrite (Zfloor_eq s) by lra.
    rewrite float_to_int_IZR by (unfold INT_MIN, INT_MAX, UINT_MOD in *; lia).
    destruct (Z.ltb_spec s 0); [lia|].
    rewrite wrap_u32_small by lia. reflexivity.
  - assert (IZR n < 2 * IZR s)%R as Hh.
    { rewrite <- mult_IZR. apply IZR_lt. lia. }
    assert (PI < phi < 2 * PI)%R as Hrange by (split; nra).
    replace (sin phi) with (sin (phi - 2 * PI)).
    2:{ rewrite <- (sin_period (phi - 2 * PI) 1). f_equal. simpl INR. ring. }
    replace (cos phi) with (cos (phi - 2 * PI)).
    2:{ rewrite <- (cos_period (phi - 2 * PI) 1). f_equal. simpl INR. ring. }
    rewrite atan2_sin_cos by lra.
    replace ((phi - 2 * PI) / (2 * PI / IZR n) + 5 / 10)%R
      with (IZR (s - n) + 5 / 10)%R
      by (rewrite minus_IZR; unfold phi; field; lra).
    rewrite (Zfloor_eq (s - n)) by lra.
    rewrite float_to_int_IZR by (unfold INT_MIN, INT_MAX, UINT_MOD in *; lia).
    destruct (Z.ltb_spec (s - n) 0); [|lia].
    rewrite wrap_u32_idem_i32.
    replace (s - n + n) with s by ring.
    rewrite !wrap_u32_small by (try rewrite wrap_u32_small; lia).
    reflexivity.
Qed.

(** ** Sector decisions at sector centres *)

Lemma sector_table_entry (f : Z -> result Z) (st : sector_state) (s : Z) :
  constellation_sector.find_sector_values f (n_sectors st) = Ok (sector_values st) ->
  0 <= s < n_sectors st ->
  exists v, vec_at (sector_values st) s = Ok v /\ f s = Ok v.
Proof.
  intros Hvals Hs.
  destruct (find_sector_values_ok _ _ _ Hvals) as [Hsz Hf].
  exists (nth (Z.to_nat s) (sector_values st) 0).
  assert (vec_at (sector_values st) s
          = Ok (nth (Z.to_nat s) (sector_values st) 0)) as Hat
      by (apply vec_at_nth; lia).
  split; [exact Hat|]. rewrite Hf by exact Hs. exact Hat.
Qed.

(** A rectangular decision at the centre of sector [s] is the table entry
    of [s], which is the nearest point to that centre. *)
Lemma rect_decision_at_center
      (b : constellation) (st : sector_state) (r : rect_state) (s : Z) :
  n_sectors st = wrap_u32 (n_real_sectors r * n_imag_sectors r) ->
  constellation_sector.find_sector_values
    (constellation_rect.calc_sector_value b r) (n_sectors st)
  = Ok (sector_values st) ->
  0 <= n_real_sectors r <= INT_MAX -> 0 <= n_imag_sectors r <= INT_MAX ->
  d_width_real_sectors r <> 0%R -> d_width_imag_sectors r <> 0%R ->
  0 <= s < n_sectors st ->
  exists v,
    constellation_sector.decision_maker (constellation_rect.get_sector r) st
      [constellation_rect.calc_sector_center r s]
    = Ok v
    /\ get_closest_point b [constellation_rect.calc_sector_center r s] = Ok v.
Proof.
  intros Hn Hvals Hnr Hni Hwr Hwi Hs.
  assert (n_sectors st <= n_real_sectors r * n_imag_sectors r) as Hle.
  { rewrite Hn. unfold wrap_u32.
    apply Z.mod_le; [nia | unfold UINT_MOD; lia]. }
  assert (1 <= n_imag_sectors r) as Hi1 by nia.
  assert (s = (s / n_imag_sectors r) * n_imag_sectors r
              + s mod n_imag_sectors r) as Hdiv.
  { rewrite Z.mul_comm. apply Z.div_mod. lia. }
  pose proof (Z.mod_pos_bound s (n_imag_sectors r)) as Hki.
  assert (0 <= s / n_imag_sectors r) as Hkr0 by (apply Z.div_pos; lia).
  assert (s / n_imag_sectors r < n_real_sectors r) as Hkr1.
  { apply Z.div_lt_upper_bound; [lia|]. rewrite Z.mul_comm. lia. }
  assert (s < UINT_MOD) as Hs32.
  { pose proof (wrap_u32_range (n_real_sectors r * n_imag_sectors r)). lia. }
  destruct (sector_table_entry _ st s Hvals Hs) as (v & Hat & Hf).
  exists v. split; [|exact Hf].
  unfold constellation_sector.decision_maker.
  rewrite Hdiv at 1.
  rewrite calc_sector_center_eq by lia.
  rewrite rect_get_sector_center by (first [assumption | lia]).
  rewrite <- Hdiv, wrap_u32_small by lia.
  rewrite bind_Ok. exact Hat.
Qed.

Lemma constellation_psk_ctor_ok
      (constell : list gr_complex) (pre_diff_code : list Z) (n : Z)
      (b : constellation) (st : sector_state) :
  constellation_psk.make constell pre_diff_code n = Ok (mk_object b (Psk st)) ->
  n_sectors st = n
  /\ constellation_sector.find_sector_values
       (constellation_psk.calc_sector_value b n) n
     = Ok (sector_values st).
Proof.
  unfold constellation_psk.make. intros H.
  destruct (constellation_ctor _ _ _ _) as [b'| | |]; try discriminate H.
  rewrite bind_Ok in H.
  destruct (constellation_sector.find_sector_values _ _) as [values| | |] eqn:Ev;
    try discriminate H.
  rewrite bind_Ok in H. injection H as <- <-. split; [reflexivity | exact Ev].
Qed.

(** C8, as the code has it, in real arithmetic.  For sector counts that fit
    [int] and non-zero bin widths, the rectangular decision at the centre of
    every sector of the table equals the nearest-point decision there; so
    does the PSK decision at the unit-circle point of every wedge's centre
    angle.  Centres, phases, quotients and distances are exact real
    numbers here: the statement does not cover what rounding to [float]
    does to the centres of very many sectors. *)
Theorem sector_decision_at_center_is_nearest_point :
  (forall (constell : list gr_complex) (pre_diff_code : list Z)
          (rot real_sectors imag_sectors : Z) (w_re w_im : R)
          (b : constellation) (st : sector_state) (r : rect_state) (s : Z),
      constellation_rect.construct constell pre_diff_code rot real_sectors
        imag_sectors w_re w_im = Ok (b, st, r) ->
      0 <= real_sectors <= INT_MAX -> 0 <= imag_sectors <= INT_MAX ->
      d_width_real_sectors r <> 0%R -> d_width_imag_sectors r <> 0%R ->
      0 <= s < n_sectors st ->
      exists v,
        decision_maker (mk_object b (Rect st r)) [constellation_rect.calc_sector_center r s]
        = Ok v
        /\ decision_maker (mk_object b Calcdist) [constellation_rect.calc_sector_center r s]
           = Ok v)
  /\ (forall (constell : list gr_complex) (pre_diff_code : list Z) (n : Z)
             (b : constellation) (st : sector_state) (s : Z),
         constellation_psk.make constell pre_diff_code n
         = Ok (mk_object b (Psk st)) ->
         0 <= n < UINT_MOD -> 0 <= s < n ->
         exists v,
           decision_maker (mk_object b (Psk st)) [constellation_psk.sector_center n s]
           = Ok v
           /\ decision_maker (mk_object b Calcdist) [constellation_psk.sector_center n s]
              = Ok v).
Proof.
  split.
  - intros constell pre_diff_code rot real_sectors imag_sectors w_re w_im
           b st r s Hbuild Hnr Hni Hwr Hwi Hs.
    destruct (constellation_rect_build_ok _ _ _ _ _ _ _ _ _ _ Hbuild)
      as (_ & Hr & Hn & Hvals).
    unfold decision_maker. cbn [cls base].
    apply rect_decision_at_center; try assumption; rewrite Hr; assumption.
  - intros constell pre_diff_code n b st s Hctor Hn Hs.
    destruct (constellation_psk_ctor_ok _ _ _ _ _ Hctor) as [Hst Hvals].
    rewrite <- Hst in Hvals, Hs, Hn.
    destruct (sector_table_entry _ st s Hvals Hs) as (v & Hat & Hf).
    exists v. unfold decision_maker, constellation_sector.decision_maker. cbn [cls base].
    rewrite <- Hst at 1. rewrite psk_get_sector_center by lia.
    rewrite bind_Ok. split; [exact Hat|].
    unfold constellation_psk.calc_sector_value in Hf. rewrite <- Hst. exact Hf.
Qed.

(** Two wedges over the points -1 and 1: wedge 0 points at 1 (symbol 1),
    wedge 1 at -1 (symbol 0). *)
Lemma two_wedge_psk_ctor :
  exists b,
    constellation_psk.make bpsk_points [] 2
    = Ok (mk_object b (Psk (mk_sector 2 [1; 0]))).
Proof.
  destruct (bpsk_points_ctor [] 2 (or_introl eq_refl))
    as (b & Hb & _ & Hpts & _ & HD & Ha & _).
  exists b. unfold constellation_psk.make.
  change (wrap_u32 (size bpsk_points)) with 2. rewrite Hb, bind_Ok.
  unfold constellation_sector.find_sector_values, for_range,
    constellation_psk.calc_sector_value,
    constellation_psk.sector_center.
  change (Z.to_nat (2 - 0)) with 2%nat.
  rewrite for_loop_S. rewrite (bpsk_points_closest b) by assumption.
  replace (0 * (2 * PI) / 2)%R with 0%R by lra.
  rewrite cos_0, (fltb_true 0 1) by lra.
  cbn [bind b2z app]. rewrite for_loop_S.
  rewrite (bpsk_points_closest b) by assumption.
  replace (IZR (0 + 1) * (2 * PI) / 2)%R with PI by (simpl; lra).
  rewrite cos_PI, (fltb_false 0 (-1)) by lra.
  reflexivity.
Qed.

Lemma sector_decision_at_center_is_nearest_point_witness :
  (exists b,
      constellation_rect.construct bpsk_points [] 2 2 1 1%R 1%R
      = Ok (b, mk_sector 2 [0; 1], two_bins)
      /\ 0 <= 2 <= INT_MAX /\ 0 <= 1 <= INT_MAX
      /\ d_width_real_sectors two_bins <> 0%R
      /\ d_width_imag_sectors two_bins <> 0%R
      /\ 0 <= 1 < n_sectors (mk_sector 2 [0; 1])
      /\ exists v,
           decision_maker (mk_object b (Rect (mk_sector 2 [0; 1]) two_bins))
             [constellation_rect.calc_sector_center two_bins 1] = Ok v
           /\ decision_maker (mk_object b Calcdist)
                [constellation_rect.calc_sector_center two_bins 1] = Ok v)
  /\ (exists b,
         constellation_psk.make bpsk_points [] 2
         = Ok (mk_object b (Psk (mk_sector 2 [1; 0])))
         /\ 0 <= 2 < UINT_MOD /\ 0 <= 1 < 2
         /\ exists v,
              decision_maker (mk_object b (Psk (mk_sector 2 [1; 0])))
                [constellation_psk.sector_center 2 1] = Ok v
              /\ decision_maker (mk_object b Calcdist)
                   [constellation_psk.sector_center 2 1] = Ok v).
Proof.
  assert (0 <= 2 <= INT_MAX) as H2 by (unfold INT_MAX; lia).
  assert (0 <= 1 <= INT_MAX) as H1 by (unfold INT_MAX; lia).
  assert (d_width_real_sectors two_bins <> 0%R) as Hwr by (simpl; lra).
  assert (d_width_imag_sectors two_bins <> 0%R) as Hwi by (simpl; lra).
  assert (0 <= 1 < n_sectors (mk_sector 2 [0; 1])) as Hs by (simpl; lia).
  assert (0 <= 2 < UINT_MOD) as Hn by (unfold UINT_MOD; lia).
  assert (0 <= 1 < 2) as Hs' by lia.
  split.
  - destruct two_bin_rect_build as (b & Hbuild & _).
    exists b. repeat (split; [assumption|]).
    exact (proj1 sector_decision_at_center_is_nearest_point
             bpsk_points [] 2 2 1 1%R 1%R b (mk_sector 2 [0; 1]) two_bins 1
             Hbuild H2 H1 Hwr Hwi Hs).
  - destruct two_wedge_psk_ctor as (b & Hctor).
    exists b. repeat (split; [assumption|]).
    exact (proj2 sector_decision_at_center_is_nearest_point
             bpsk_points [] 2 b (mk_sector 2 [1; 0]) 1 Hctor Hn Hs').
Defined.

Lemma axis_sector_beyond_int (x width : R) (n : Z) :
  INT_MAX < n < UINT_MOD ->
  axis_sector x width n = wrap_i32 (wrap_u32 (n - 1)).
Proof.
  intros Hn. unfold axis_sector.
  pose proof (float_to_int_range (x / width + IZR n / 2)) as Hr.
  set (s0 := float_to_int (x / width + IZR n / 2)) in *.
  assert (wrap_i32 n < 0) as Hneg.
  { unfold wrap_i32. rewrite wrap_u32_small by (unfold INT_MAX in Hn; lia).
    destruct (Z.leb_spec n INT_MAX); unfold UINT_MOD, INT_MAX in *; lia. }
  destruct (Z.ltb_spec s0 0).
  - destruct (Z.leb_spec (wrap_i32 n) 0); [reflexivity | lia].
  - destruct (Z.leb_spec (wrap_i32 n) s0); [reflexivity | lia].
Qed.

(** C8 fails as stated for a sector count beyond [INT_MAX]: with
    2863311531 real and 3 imaginary sectors the table has one entry
    ([n_sectors] wraps to 1), the cast [(int)n_real_sectors] is negative,
    the real index of every sample is forced to [n_real_sectors - 1], and
    the decision at the centre of sector 0 reads entry 4294967294. *)
Lemma rect_center_decision_beyond_int_count :
  exists b st r,
    constellation_rect.make bpsk_points [] 2 2863311531 3 1%R 1%R
    = Ok (mk_object b (Rect st r))
    /\ 0 <= 0 < n_sectors st
    /\ decision_maker (mk_object b (Rect st r)) [constellation_rect.calc_sector_center r 0]
       = Undefined
    /\ decision_maker (mk_object b Calcdist)
         [constellation_rect.calc_sector_center r 0] = Ok 0.
Proof.
  destruct (bpsk_points_ctor [] 2 (or_introl eq_refl))
    as (b & Hb & Hsf & Hpts & _ & HD & Ha & _).
  set (r := mk_rect 2863311531 3 (1 * 1)%R (1 * 1)%R).
  assert (constellation_rect.calc_sector_center r 0 = bin_center r 0 0) as Hcen.
  { change (constellation_rect.calc_sector_center r 0)
      with (constellation_rect.calc_sector_center r (0 * n_imag_sectors r + 0)).
    apply calc_sector_center_eq; cbn; int_range. }
  assert (get_closest_point b [constellation_rect.calc_sector_center r 0] = Ok 0) as Hnear.
  { rewrite Hcen. unfold bin_center.
    rewrite (bpsk_points_closest b) by assumption.
    rewrite fltb_false by (cbn; lra). reflexivity. }
  exists b, (mk_sector 1 [0]), r.
  split; [|split; [cbn; lia|split; [|exact Hnear]]].
  - unfold constellation_rect.make, constellation_rect.construct.
    rewrite Hb, bind_Ok, Hsf. fold r.
    unfold constellation_sector.find_sector_values, for_range,
    constellation_rect.calc_sector_value.
    change (Z.to_nat (wrap_u32 (2863311531 * 3) - 0)) with 1%nat.
    rewrite for_loop_S, Hnear. reflexivity.
  - unfold decision_maker, constellation_sector.decision_maker. cbn [cls].
    rewrite Hcen, rect_get_sector_axes by (unfold bin_center, r; axis_numbers).
    unfold bin_center, real, imag. cbn [fst snd].
    rewrite axis_sector_beyond_int by (cbn; int_range).
    rewrite (axis_sector_eq 0) by (cbn; try int_range; split; lra).
    reflexivity.
Qed.

(** ** Decisions at the constellation's own points *)

Lemma sin_cos_PI8 : (0 < sin (PI / 8) < cos (PI / 8))%R.
Proof.
  pose proof PI_RGT_0 as Hpi. split.
  - apply sin_gt_0; lra.
  - rewrite <- (cos_shift (PI / 8)). apply cos_decreasing_1; lra.
Qed.

Lemma psk8_angles :
  let c := cos (PI / 8) in
  let s := sin (PI / 8) in
  (cos (1 * (PI / 8)) = c /\ sin (1 * (PI / 8)) = s)
  /\ (cos (7 * (PI / 8)) = - c /\ sin (7 * (PI / 8)) = s)%R
  /\ (cos (15 * (PI / 8)) = c /\ sin (15 * (PI / 8)) = - s)%R
  /\ (cos (9 * (PI / 8)) = - c /\ sin (9 * (PI / 8)) = - s)%R
  /\ (cos (3 * (PI / 8)) = s /\ sin (3 * (PI / 8)) = c)
  /\ (cos (5 * (PI / 8)) = - s /\ sin (5 * (PI / 8)) = c)%R
  /\ (cos (13 * (PI / 8)) = s /\ sin (13 * (PI / 8)) = - c)%R
  /\ (cos (11 * (PI / 8)) = - s /\ sin (11 * (PI / 8)) = - c)%R.
Proof.
  intros c s.
  assert (cos (3 * (PI / 8)) = s /\ sin (3 * (PI / 8)) = c) as [C3 S3].
  { replace (3 * (PI / 8))%R with (PI / 2 - PI / 8)%R by lra.
    rewrite cos_shift, sin_shift. split; reflexivity. }
  split; [rewrite Rmult_1_l; split; reflexivity|].
  split.
  { replace (7 * (PI / 8))%R with (PI - PI / 8)%R by lra.
    rewrite Rtrigo_facts.cos_pi_minus, sin_PI_x. split; reflexivity. }
  split.
  { replace (15 * (PI / 8))%R with (- (PI / 8) + 2 * INR 1 * PI)%R
      by (simpl; lra).
    rewrite cos_period, sin_period, cos_neg, sin_neg. split; reflexivity. }
  split.
  { replace (9 * (PI / 8))%R with (PI / 8 + PI)%R by lra.
    rewrite neg_cos, neg_sin. split; reflexivity. }
  split; [split; assumption|].
  split.
  { replace (5 * (PI / 8))%R with (PI - 3 * (PI / 8))%R by lra.
    rewrite Rtrigo_facts.cos_pi_minus, sin_PI_x, C3, S3. split; reflexivity. }
  split.
  { replace (13 * (PI / 8))%R with (- (3 * (PI / 8)) + 2 * INR 1 * PI)%R
      by (simpl; lra).
    rewrite cos_period, sin_period, cos_neg, sin_neg, C3, S3.
    split; reflexivity. }
  replace (11 * (PI / 8))%R with (3 * (PI / 8) + PI)%R by lra.
  rewrite neg_cos, neg_sin, C3, S3. split; reflexivity.
Qed.

Lemma psk8_decision_eq (re im : R) (le_abs le_re le_im : bool) :
  fleb (Rabs re) (Rabs im) = le_abs -> fleb re 0 = le_re ->
  fleb im 0 = le_im ->
  constellation_8psk.decision_maker [(re, im)]
  = Ok (let ret := if le_abs then 4 else 0 in
        let ret := if le_re then Z.lor ret 1 else ret in
        if le_im then Z.lor ret 2 else ret).
Proof.
  intros <- <- <-. reflexivity.
Qed.

Ltac abs_cmp :=
  unfold fleb, Rabs;
  repeat match goal with
    | |- context [Rcase_abs ?x] => destruct (Rcase_abs x)
    | |- context [Rle_dec ?x ?y] => destruct (Rle_dec x y)
    end;
  first [reflexivity | exfalso; lra].





Lemma map_to_points_eq (c : constellation) (j : Z) :
  wf c -> 0 <= j < d_arity c ->
  map_to_points c j = Ok (symbol_points c j).
Proof.
  intros W Hj. unfold map_to_points, symbol_points, for_range.
  rewrite Z.sub_0_r.
  assert (forall k : nat, Z.of_nat k <= d_dimensionality c ->
            for_loop 0 k
              (fun i points =>
                 p <- vec_at (d_constellation c)
                             (wrap_u32 (j * d_dimensionality c + i)) ;;
                 Ok (points ++ [p])) []
            = Ok (map (fun d => point c j (Z.of_nat d)) (seq 0 k))) as H.
  { induction k as [|k IH]; intros Hk; [reflexivity|].
    rewrite for_loop_snoc, IH by lia. rewrite bind_Ok, Z.add_0_l.
    rewrite vec_at_point by (auto; lia). rewrite bind_Ok.
    rewrite seq_S, map_app. reflexivity. }
  apply H. destruct W. lia.
Qed.


Lemma nth_symbol_points (c : constellation) (j : Z) (k : nat) :
  (k < Z.to_nat (d_dimensionality c))%nat ->
  nth k (symbol_points c j) (0%R, 0%R) = point c j (Z.of_nat k).
Proof.
  intros Hk. unfold symbol_points.
  rewrite (nth_indep _ (0%R, 0%R) (point c j (Z.of_nat 0)))
    by (rewrite length_map, length_seq; exact Hk).
  pose proof (map_nth (fun d => point c j (Z.of_nat d))
                (seq 0 (Z.to_nat (d_dimensionality c))) 0%nat k) as E.
  cbv beta in E. etransitivity; [exact E|].
  rewrite seq_nth by exact Hk. reflexivity.
Qed.

Lemma norm_zero (a b : gr_complex) : norm (Csub a b) = 0%R -> a = b.
Proof.
  destruct a as [x y], b as [x' y']. unfold norm, Csub, real, imag.
  cbn [fst snd]. intros H.
  pose proof (Rle_0_sqr (x - x')) as Hx.
  pose proof (Rle_0_sqr (y - y')) as Hy.
  assert (Rsqr (x - x') = 0%R) as Ex by (unfold Rsqr in *; lra).
  assert (Rsqr (y - y') = 0%R) as Ey by (unfold Rsqr in *; lra).
  apply Rsqr_0_uniq in Ex. apply Rsqr_0_uniq in Ey.
  f_equal; lra.
Qed.

(** A zero distance means the sample is the symbol. *)
Lemma dist_upto_zero (c : constellation) (j : Z) (sample : list gr_complex)
      (k : nat) :
  dist_upto c j sample k = 0%R ->
  forall k', (k' < k)%nat ->
             nth k' sample (0%R, 0%R) = point c j (Z.of_nat k').
Proof.
  induction k as [|k IH]; intros H k' Hk'; [lia|].
  simpl in H.
  pose proof (dist_upto_nonneg c j sample k) as H0.
  pose proof (norm_nonneg (Csub (nth k sample (0%R, 0%R))
                                (point c j (Z.of_nat k)))) as H1.
  destruct (Nat.eq_dec k' k) as [->|Hne].
  - apply norm_zero. lra.
  - apply IH; [lra | lia].
Qed.

Lemma dist_upto_self (c : constellation) (j : Z) (k : nat) :
  (k <= Z.to_nat (d_dimensionality c))%nat ->
  dist_upto c j (symbol_points c j) k = 0%R.
Proof.
  induction k as [|k IH]; intros Hk; [reflexivity|].
  simpl. rewrite IH by lia. rewrite nth_symbol_points by lia.
  unfold norm, Csub, real, imag. cbn [fst snd]. ring.
Qed.






(** ** The soft-decision table *)

Lemma ln_ratio_2 : (ln 2 / ln 2 = 1)%R.
Proof. pose proof ln_2_pos. field. lra. Qed.

Lemma calc_soft_dec_bpsk (b : constellation) (sample : gr_complex) (npwr : R) :
  d_constellation b = bpsk_points -> d_pre_diff_code b = [0; 1] ->
  d_scalefactor b = 1%R ->
  calc_soft_dec b sample npwr = Ok [bpsk_llr sample npwr].
Proof.
  intros Hpts Hcode Hsf. unfold calc_soft_dec. rewrite Hpts, Hcode, Hsf.
  change (wrap_i32 (size bpsk_points)) with 2.
  change (2 <=? 0) with false. cbv iota.
  rewrite ln_ratio_2. rewrite (float_to_int_eq 1) by (try int_range; split; lra).
  unfold bpsk_points, for_range. simpl. reflexivity.
Qed.

Lemma lut_row_step (fuel : nat) (c : constellation) (npwr y x xstep : R)
      (lut : list (list R)) (v : list R) :
  (x < d_re_max c)%R -> calc_soft_dec c (x, y) npwr = Ok v ->
  lut_row (Datatypes.S fuel) c npwr y x xstep lut
  = lut_row fuel c npwr y (x + xstep)%R xstep (lut ++ [v]).
Proof.
  intros Hx Hv. simpl. rewrite fltb_true by exact Hx. rewrite Hv. reflexivity.
Qed.

Lemma lut_row_stop (fuel : nat) (c : constellation) (npwr y x xstep : R)
      (lut : list (list R)) :
  (d_re_max c <= x)%R ->
  lut_row (Datatypes.S fuel) c npwr y x xstep lut = Ok lut.
Proof. intros Hx. simpl. rewrite fltb_false by exact Hx. reflexivity. Qed.

Lemma lut_rows_step (fuel budget : nat) (c : constellation)
      (npwr y xstep ystep : R) (lut lut' : list (list R)) :
  (y < d_im_max c)%R ->
  lut_row budget c npwr y (d_re_min c) xstep lut = Ok lut' ->
  lut_rows (Datatypes.S fuel) budget c npwr y xstep ystep lut
  = lut_rows fuel budget c npwr (y + ystep)%R xstep ystep lut'.
Proof.
  intros Hy Hrow. simpl. rewrite fltb_true by exact Hy. rewrite Hrow.
  reflexivity.
Qed.

Lemma lut_rows_stop (fuel budget : nat) (c : constellation)
      (npwr y xstep ystep : R) (lut : list (list R)) :
  (d_im_max c <= y)%R ->
  lut_rows (Datatypes.S fuel) budget c npwr y xstep ystep lut = Ok lut.
Proof. intros Hy. simpl. rewrite fltb_false by exact Hy. reflexivity. Qed.

(** The bounding box of the points -1 and 1: the imaginary bounds are 0 and
    inherit the real bounds. *)
Lemma max_min_axes_bpsk (b : constellation) :
  d_constellation b = bpsk_points ->
  d_re_min (max_min_axes b) = (-1)%R /\ d_re_max (max_min_axes b) = 1%R
  /\ d_im_min (max_min_axes b) = (-1)%R /\ d_im_max (max_min_axes b) = 1%R.
Proof.
  intros Hpts. unfold max_min_axes. rewrite Hpts.
  unfold bpsk_points, big, real, imag. simpl. fcmp. simpl.
  repeat split; reflexivity.
Qed.

Lemma max_min_axes_keeps (b : constellation) :
  d_constellation (max_min_axes b) = d_constellation b
  /\ d_pre_diff_code (max_min_axes b) = d_pre_diff_code b
  /\ d_scalefactor (max_min_axes b) = d_scalefactor b.
Proof.
  unfold max_min_axes.
  destruct (fold_left _ _ _) as [[[re_min im_min] re_max] im_max].
  repeat split; reflexivity.
Qed.

Section BpskTable.

Variable c : constellation.
Variable npwr : R.
Hypothesis re_min_c : d_re_min c = (-1)%R.
Hypothesis re_max_c : d_re_max c = 1%R.
Hypothesis im_min_c : d_im_min c = (-1)%R.
Hypothesis im_max_c : d_im_max c = 1%R.
Hypothesis calc_c :
  forall s, calc_soft_dec c s npwr = Ok [bpsk_llr s npwr].

(** One row of the table for precision 2: three cells, at -1, -1/3 and
    1/3; the fourth abscissa is 1, which is not below [d_re_max]. *)
Lemma bpsk_lut_row (n : nat) (y : R) (lut : list (list R)) :
  lut_row (4 + n) c npwr y (d_re_min c) (2 / 3)%R lut
  = Ok (lut ++ [[bpsk_llr ((-1)%R, y) npwr];
                [bpsk_llr ((-1 + 2 / 3)%R, y) npwr];
                [bpsk_llr ((-1 + 2 / 3 + 2 / 3)%R, y) npwr]]).
Proof.
  rewrite re_min_c.
  change (4 + n)%nat with (Datatypes.S (Datatypes.S (Datatypes.S (Datatypes.S n)))).
  do 3 (erewrite lut_row_step
          by first [apply calc_c | rewrite re_max_c; lra]).
  rewrite lut_row_stop by (rewrite re_max_c; lra).
  rewrite <- !app_assoc. reflexivity.
Qed.

(** The whole table for precision 2 has three rows of three cells. *)
Lemma bpsk_lut_rows (n : nat) :
  exists lut,
    lut_rows (4 + n) (4 + n) c npwr (d_im_min c) (2 / 3)%R (2 / 3)%R []
    = Ok lut
    /\ size lut = 9.
Proof.
  rewrite im_min_c.
  change (lut_rows (4 + n)) with
    (lut_rows (Datatypes.S (Datatypes.S (Datatypes.S (Datatypes.S n))))).
  do 3 (erewrite lut_rows_step
          by first [apply bpsk_lut_row | rewrite im_max_c; lra]).
  rewrite lut_rows_stop by (rewrite im_max_c; lra).
  eexists. split; [reflexivity | reflexivity].
Qed.

End BpskTable.

(** C6, what the code does.  Over the points -1 and 1 (pre-diff code 0, 1),
    [gen_soft_dec_lut] with precision 2 builds a table of 9 cells, whatever
    budget of at least 4 iterations its loops are given.  For the sample
    1 + 1i the lookup computes the flat index 15; the guard compares it with
    [max_index] = 16, does not fire, and entry 15 of the 9-cell table is
    read: outside the table, where the specification asks for the last
    entry. *)
Theorem soft_decision_lookup_reads_past_table
        (n : nat) (npwr default_npwr : R) :
  exists b c',
    constellation_ctor bpsk_points [0; 1] 2 1 = Ok b
    /\ gen_soft_dec_lut (4 + n) b 2 npwr = Ok c'
    /\ size (d_soft_dec_lut c') = 9
    /\ lut_index c' (1%R, 1%R) = 15
    /\ float_to_int (d_lut_scale c' * d_lut_scale c')%R = 16
    /\ soft_decision_maker default_npwr c' (1%R, 1%R) = Undefined.
Proof.
  destruct (bpsk_points_ctor [0; 1] 2 (or_intror eq_refl))
    as (b & Hb & Hsf & Hpts & Hcode & _).
  destruct (max_min_axes_bpsk b Hpts) as (Hremin & Hremax & Himin & Himax).
  destruct (max_min_axes_keeps b) as (Kpts & Kcode & Ksf).
  assert (forall s, calc_soft_dec (max_min_axes b) s npwr
                    = Ok [bpsk_llr s npwr]) as Hcalc.
  { intros s. apply calc_soft_dec_bpsk; congruence. }
  destruct (bpsk_lut_rows (max_min_axes b) npwr Hremin Hremax Himin Himax
              Hcalc n) as (lut & Hrows & Hsize).
  set (c' := with_lut (max_min_axes b) lut 2 (powerRZ 2 2)).
  assert (gen_soft_dec_lut (4 + n) b 2 npwr = Ok c') as Hgen.
  { unfold gen_soft_dec_lut. rewrite Himin in Hrows.
    rewrite Hremin, Hremax, Himin, Himax.
    replace ((1 - -1) / (powerRZ 2 2 - 1))%R with (2 / 3)%R by (simpl; lra).
    rewrite Hrows. reflexivity. }
  assert (lut_index c' (1%R, 1%R) = 15) as Hidx.
  { unfold lut_index, c', real, imag.
    cbn [d_re_min d_re_max d_im_min d_im_max d_lut_scale with_lut fst snd].
    rewrite Hremin, Hremax, Himin, Himax. unfold fmin, fmax. simpl powerRZ.
    fcmp. rewrite !(Zfloor_eq 3) by (split; lra).
    apply float_to_int_eq; [int_range | split; lra]. }
  assert (float_to_int (d_lut_scale c' * d_lut_scale c')%R = 16) as Hmax.
  { unfold c'. cbn [d_lut_scale with_lut]. simpl powerRZ.
    apply float_to_int_eq; [int_range | split; lra]. }
  exists b, c'.
  split; [exact Hb|]. split; [exact Hgen|]. split; [exact Hsize|].
  split; [exact Hidx|]. split; [exact Hmax|].
  unfold soft_decision_maker, has_soft_dec_lut. rewrite Hidx, Hmax.
  change (d_soft_dec_lut c') with lut. rewrite Hsize.
  change (0 <? 9) with true. change (16 <? 15) with false.
  change (15 <? 0) with false. cbv iota.
  apply vec_at_outside. lia.
Qed.

(** The guards of the lookup in the order of the source: a negative index
    throws, and without a table the decision is computed directly. *)
Lemma soft_decision_maker_negative_index
      (default_npwr : R) (c : constellation) (sample : gr_complex) :
  has_soft_dec_lut c = true -> lut_index c sample < 0 ->
  0 <= float_to_int (d_lut_scale c * d_lut_scale c)%R ->
  throws (soft_decision_maker default_npwr c sample).
Proof.
  intros Hlut Hneg Hmax. unfold soft_decision_maker. rewrite Hlut.
  destruct (Z.ltb_spec (float_to_int (d_lut_scale c * d_lut_scale c))
                       (lut_index c sample)); [lia|].
  destruct (Z.ltb_spec (lut_index c sample) 0); [|lia].
  eexists. reflexivity.
Qed.

Lemma soft_decision_maker_without_table
      (default_npwr : R) (c : constellation) (sample : gr_complex) :
  has_soft_dec_lut c = false ->
  soft_decision_maker default_npwr c sample
  = calc_soft_dec c sample default_npwr.
Proof. intros Hlut. unfold soft_decision_maker. rewrite Hlut. reflexivity. Qed.

(** * Further properties of the code *)

(** ** Symbols and their points *)

Lemma nth_ext_default {A : Type} (l l' : list A) (d : A) :
  List.length l = List.length l' ->
  (forall k, (k < List.length l)%nat -> nth k l d = nth k l' d) -> l = l'.
Proof.
  intros Hlen H. apply (nth_ext l l' d d); assumption.
Qed.

(** X1.  For an existing symbol and a sample of [d_dimensionality] values,
    [get_distance] returns a value; the value is never negative, and it is
    zero exactly when the sample is the buffer that [map_to_points] fills
    for that symbol. *)
Theorem get_distance_zero_iff_symbol
        (c : constellation) (j : Z) (sample : list gr_complex) :
  wf c -> 0 <= j < d_arity c -> size sample = d_dimensionality c ->
  exists dist,
    get_distance c j sample = Ok dist
    /\ (0 <= dist)%R
    /\ (dist = 0%R <-> map_to_points c j = Ok sample).
Proof.
  intros W Hj Hs.
  exists (dist_upto c j sample (Z.to_nat (d_dimensionality c))).
  split; [apply get_distance_eq; assumption|].
  split; [apply dist_upto_nonneg|].
  rewrite map_to_points_eq by assumption.
  assert (List.length sample = Z.to_nat (d_dimensionality c)) as Hlen
      by (unfold size in Hs; lia).
  split.
  - intros Hz. f_equal.
    assert (List.length (symbol_points c j)
            = Z.to_nat (d_dimensionality c)) as Hlen'
        by (unfold symbol_points; rewrite length_map, length_seq; reflexivity).
    apply (nth_ext_default _ _ (0%R, 0%R)).
    + exact (eq_trans Hlen' (eq_sym Hlen)).
    + intros k Hk.
      assert (k < Z.to_nat (d_dimensionality c))%nat as Hk'
          by (apply (Nat.lt_le_trans _ _ _ Hk), Nat.eq_le_incl; exact Hlen').
      clear Hk. rename Hk' into Hk.
      rewrite nth_symbol_points by exact Hk.
      symmetry. apply (dist_upto_zero c j sample _ Hz). exact Hk.
  - intros E. injection E as <-. apply dist_upto_self. lia.
Qed.

Lemma get_distance_zero_iff_symbol_witness :
  wf bpsk_base /\ 0 <= 1 < d_arity bpsk_base
  /\ size [(1%R, 0%R)] = d_dimensionality bpsk_base
  /\ exists dist,
       get_distance bpsk_base 1 [(1%R, 0%R)] = Ok dist
       /\ (0 <= dist)%R
       /\ (dist = 0%R <-> map_to_points bpsk_base 1 = Ok [(1%R, 0%R)]).
Proof.
  assert (0 <= 1 < d_arity bpsk_base) as Hj by (cbn [d_arity bpsk_base]; lia).
  assert (size [(1%R, 0%R)] = d_dimensionality bpsk_base) as Hs
      by reflexivity.
  split; [exact bpsk_base_wf|]. split; [exact Hj|]. split; [exact Hs|].
  exact (get_distance_zero_iff_symbol bpsk_base 1 [(1%R, 0%R)]
           bpsk_base_wf Hj Hs).
Defined.

Lemma vec_set_ok {A : Type} (v : list A) (i : Z) (x : A) :
  0 <= i < size v -> vec_set v i x = Ok (replace_nth (Z.to_nat i) x v).
Proof.
  intros [H0 H1]. unfold vec_set.
  destruct (Z.leb_spec 0 i); [|lia].
  destruct (Z.ltb_spec i (size v)); [reflexivity | lia].
Qed.

Lemma replace_nth_middle {A : Type} (l : list A) (d x : A) (m : nat) :
  replace_nth (List.length l) x (l ++ d :: repeat d m)
  = (l ++ [x]) ++ repeat d m.
Proof.
  induction l as [|h l IH]; simpl; [reflexivity|].
  rewrite IH. reflexivity.
Qed.

(** A loop that writes cell [i] of a buffer in round [i] fills the buffer
    with the values written. *)
Lemma fill_loop {A : Type} (g : Z -> result A) (f : nat -> A) (d : A)
      (n : nat) :
  (forall k, (k < n)%nat -> g (Z.of_nat k) = Ok (f k)) ->
  for_loop 0 n (fun i v => x <- g i ;; vec_set v i x) (repeat d n)
  = Ok (map f (seq 0 n)).
Proof.
  intros Hg.
  assert (forall k, (k <= n)%nat ->
            for_loop 0 k (fun i v => x <- g i ;; vec_set v i x) (repeat d n)
            = Ok (map f (seq 0 k) ++ repeat d (n - k))) as H.
  { induction k as [|k IH]; intros Hk.
    - simpl. rewrite Nat.sub_0_r. reflexivity.
    - rewrite for_loop_snoc, IH by lia. rewrite bind_Ok, Z.add_0_l.
      rewrite Hg by lia. rewrite bind_Ok.
      assert (List.length (map f (seq 0 k)) = k) as Hlen
          by (rewrite length_map, length_seq; reflexivity).
      rewrite vec_set_ok.
      + rewrite Nat2Z.id. f_equal.
        replace (n - k)%nat with (Datatypes.S (n - Datatypes.S k)) by lia.
        cbn [repeat]. rewrite <- Hlen at 1.
        rewrite replace_nth_middle, seq_S, map_app. reflexivity.
      + unfold size. rewrite length_app, Hlen, repeat_length. lia. }
  rewrite (H n) by lia. rewrite Nat.sub_diag, app_nil_r. reflexivity.
Qed.

Lemma firstn_succ_nth {A : Type} (d : A) (l : list A) :
  forall k, (k < List.length l)%nat ->
            firstn (Datatypes.S k) l = firstn k l ++ [nth k l d].
Proof.
  induction l as [|h l IH]; intros k Hk; simpl in Hk; [lia|].
  destruct k as [|k]; [reflexivity|].
  cbn [firstn nth app]. rewrite <- IH by lia. reflexivity.
Qed.

Lemma firstn_add_chunk {A : Type} (d : A) (l : list A) (n : nat) :
  forall D, (n + D <= List.length l)%nat ->
            firstn (n + D) l
            = firstn n l ++ map (fun k => nth (n + k) l d) (seq 0 D).
Proof.
  induction D as [|D IH]; intros HD.
  - rewrite Nat.add_0_r, app_nil_r. reflexivity.
  - rewrite seq_S, map_app, app_assoc, <- IH by lia.
    replace (n + Datatypes.S D)%nat with (Datatypes.S (n + D)) by lia.
    apply firstn_succ_nth. lia.
Qed.

(** Cutting a list of [a * D] elements into [a] rows of [D] and joining the
    rows gives the list back. *)
Lemma concat_chunks {A : Type} (d : A) (l : list A) (a D : nat) :
  List.length l = (a * D)%nat ->
  List.concat (map (fun p => map (fun k => nth (p * D + k) l d) (seq 0 D))
              (seq 0 a))
  = l.
Proof.
  intros Hlen.
  assert (forall k, (k <= a)%nat ->
            List.concat (map (fun p => map (fun k => nth (p * D + k) l d) (seq 0 D))
                        (seq 0 k))
            = firstn (k * D) l) as H.
  { induction k as [|k IH]; intros Hk; [reflexivity|].
    rewrite seq_S, map_app, concat_app, IH by lia.
    cbn [map List.concat]. rewrite app_nil_r.
    replace (Datatypes.S k * D)%nat with (k * D + D)%nat by lia.
    symmetry. apply firstn_add_chunk. nia. }
  rewrite (H a) by lia. rewrite <- Hlen. apply firstn_all.
Qed.

Lemma point_nat (c : constellation) (p k : nat) :
  0 <= d_dimensionality c ->
  point c (Z.of_nat p) (Z.of_nat k)
  = nth (p * Z.to_nat (d_dimensionality c) + k) (d_constellation c)
        (0%R, 0%R).
Proof.
  intros HD. unfold point. f_equal. nia.
Qed.

Lemma v_points_eq (c : constellation) :
  wf c ->
  v_points c
  = Ok (map (fun p => symbol_points c (Z.of_nat p))
            (seq 0 (Z.to_nat (d_arity c)))).
Proof.
  intros W. unfold v_points, for_range. rewrite !Z.sub_0_r.
  apply (fill_loop _ (fun p => symbol_points c (Z.of_nat p))).
  intros p Hp. cbv beta.
  assert (0 <= Z.of_nat p < d_arity c) as Hp' by lia.
  rewrite (fill_loop _ (fun k => point c (Z.of_nat p) (Z.of_nat k))).
  - reflexivity.
  - intros k Hk. apply vec_at_point; [exact W | exact Hp' | lia].
Qed.

(** X2.  [v_points] returns one row per symbol: row [p] is the buffer that
    [map_to_points] fills for [p], and joining the rows gives the stored
    point vector back. *)
Theorem v_points_rows_are_symbols (c : constellation) :
  wf c ->
  exists rows,
    v_points c = Ok rows
    /\ size rows = d_arity c
    /\ (forall p, 0 <= p < d_arity c -> vec_at rows p = map_to_points c p)
    /\ List.concat rows = d_constellation c.
Proof.
  intros W. pose proof W as (HD & Hsz & _).
  assert (0 <= d_arity c) as Ha by (pose proof (size_nonneg (d_constellation c)); nia).
  eexists. split; [apply v_points_eq; exact W|].
  assert (size (map (fun p => symbol_points c (Z.of_nat p))
                    (seq 0 (Z.to_nat (d_arity c)))) = d_arity c) as Hrows
      by (unfold size; rewrite length_map, length_seq; lia).
  split; [exact Hrows|]. split.
  - intros p Hp. rewrite map_to_points_eq by assumption.
    rewrite (vec_at_nth _ _ (symbol_points c (Z.of_nat 0))) by lia.
    f_equal.
    pose proof (map_nth (fun p => symbol_points c (Z.of_nat p))
                  (seq 0 (Z.to_nat (d_arity c))) 0%nat (Z.to_nat p)) as E.
    cbv beta in E. etransitivity; [exact E|].
    rewrite seq_nth by lia. f_equal. lia.
  - assert (List.length (d_constellation c)
            = (Z.to_nat (d_arity c) * Z.to_nat (d_dimensionality c))%nat)
      as Hlen by (unfold size in Hsz; nia).
    etransitivity; [|exact (concat_chunks (0%R, 0%R) _ _ _ Hlen)].
    unfold symbol_points.
    f_equal. apply map_ext. intros p. apply map_ext. intros k.
    apply point_nat. lia.
Qed.

Lemma v_points_rows_are_symbols_witness :
  wf bpsk_base
  /\ exists rows,
       v_points bpsk_base = Ok rows
       /\ size rows = d_arity bpsk_base
       /\ (forall p, 0 <= p < d_arity bpsk_base ->
                     vec_at rows p = map_to_points bpsk_base p)
       /\ List.concat rows = d_constellation bpsk_base.
Proof.
  split; [exact bpsk_base_wf|].
  exact (v_points_rows_are_symbols bpsk_base bpsk_base_wf).
Defined.

Lemma map_nth_seq_all {A : Type} (d : A) (l : list A) :
  map (fun p => nth p l d) (seq 0 (List.length l)) = l.
Proof.
  induction l as [|h l IH]; [reflexivity|].
  cbn [List.length seq map nth]. f_equal.
  rewrite <- seq_shift, map_map. exact IH.
Qed.

(** X3.  [s_points] throws for every dimensionality other than 1; for
    dimensionality 1 it returns one point per symbol, and [v_points] returns
    the same points, each as a row of its own. *)
Theorem s_points_only_for_dimensionality_1 (c : constellation) :
  wf c ->
  (d_dimensionality c <> 1 -> throws (s_points c))
  /\ (d_dimensionality c = 1 ->
      exists pts,
        s_points c = Ok pts
        /\ size pts = d_arity c
        /\ v_points c = Ok (map (fun x => [x]) pts)).
Proof.
  intros W. unfold s_points. split.
  - intros HD. destruct (Z.eqb_spec (d_dimensionality c) 1) as [|_]; [lia|].
    eexists. reflexivity.
  - intros HD. rewrite HD. cbn [Z.eqb Pos.eqb negb].
    exists (d_constellation c). split; [reflexivity|].
    pose proof W as (_ & Hsz & _). rewrite HD, Z.mul_1_r in Hsz.
    split; [exact Hsz|].
    rewrite (v_points_eq c W). f_equal.
    replace (Z.to_nat (d_arity c)) with (List.length (d_constellation c))
      by (unfold size in Hsz; lia).
    etransitivity;
      [|exact (f_equal (map (fun x => [x]))
                 (map_nth_seq_all (0%R, 0%R) (d_constellation c)))].
    rewrite map_map.
    apply map_ext. intros p. unfold symbol_points, point. rewrite HD.
    change (Z.to_nat 1) with 1%nat. cbn [seq map].
    do 2 f_equal. lia.
Qed.

Lemma s_points_only_for_dimensionality_1_witness :
  wf bpsk_base
  /\ (d_dimensionality bpsk_base <> 1 -> throws (s_points bpsk_base))
  /\ (d_dimensionality bpsk_base = 1 ->
      exists pts,
        s_points bpsk_base = Ok pts
        /\ size pts = d_arity bpsk_base
        /\ v_points bpsk_base = Ok (map (fun x => [x]) pts)).
Proof.
  split; [exact bpsk_base_wf|].
  exact (s_points_only_for_dimensionality_1 bpsk_base bpsk_base_wf).
Defined.

(** ** A constellation without points *)

Lemma vec_at_nil {A : Type} (i : Z) : vec_at (@nil A) i = Undefined.
Proof.
  unfold vec_at. destruct (i <? 0); [reflexivity|].
  destruct (Z.to_nat i); reflexivity.
Qed.

(** X4.  On an object without points, such as the default constructor
    leaves, the nearest-point search reads point 0 of an empty vector,
    whatever the sample. *)
Theorem closest_point_of_no_points_is_undefined
        (c : constellation) (sample : list gr_complex) :
  d_constellation c = [] -> 1 <= d_dimensionality c ->
  get_closest_point c sample = Undefined.
Proof.
  intros Hpts HD. unfold get_closest_point, get_distance, for_range.
  rewrite Hpts, Z.sub_0_r.
  destruct (Z.to_nat (d_dimensionality c)) as [|n] eqn:E; [lia|].
  rewrite for_loop_S, vec_at_nil.
  destruct sample as [|s0 t]; [rewrite vec_at_nil|]; reflexivity.
Qed.

Lemma closest_point_of_no_points_is_undefined_witness :
  exists c,
    constellation_default = Ok c
    /\ d_arity c = 0
    /\ get_closest_point c [(0%R, 0%R)] = Undefined.
Proof.
  eexists. split; [reflexivity|]. split; [reflexivity|].
  apply closest_point_of_no_points_is_undefined; [reflexivity|].
  cbn [d_dimensionality with_arity]. lia.
Defined.

(** ** The metrics of [calc_metric] *)

(** A loop that appends one value per round collects the values in order. *)
Lemma collect_loop {A : Type} (g : Z -> result A) (f : nat -> A) (n : nat) :
  (forall k, (k < n)%nat -> g (Z.of_nat k) = Ok (f k)) ->
  for_loop 0 n (fun o metric => x <- g o ;; Ok (metric ++ [x])) []
  = Ok (map f (seq 0 n)).
Proof.
  induction n as [|n IH]; intros Hg; [reflexivity|].
  rewrite for_loop_snoc, IH by (intros k Hk; apply Hg; lia).
  rewrite bind_Ok, Z.add_0_l, Hg by lia.
  rewrite bind_Ok, seq_S, map_app. reflexivity.
Qed.

Lemma vec_at_map_seq {A : Type} (f : nat -> A) (n : nat) (o : Z) :
  0 <= o < Z.of_nat n ->
  vec_at (map f (seq 0 n)) o = Ok (f (Z.to_nat o)).
Proof.
  intros Ho.
  rewrite (vec_at_nth _ _ (f 0%nat))
    by (unfold size; rewrite length_map, length_seq; exact Ho).
  f_equal. rewrite (map_nth f (seq 0 n) 0%nat (Z.to_nat o)).
  rewrite seq_nth by lia. reflexivity.
Qed.

Lemma calc_euclidean_metric_eq (c : constellation) (sample : list gr_complex) :
  wf c -> size sample = d_dimensionality c ->
  calc_euclidean_metric c sample
  = Ok (map (fun o => dist_upto c (Z.of_nat o) sample
                        (Z.to_nat (d_dimensionality c)))
            (seq 0 (Z.to_nat (d_arity c)))).
Proof.
  intros W Hs. unfold calc_euclidean_metric, for_range. rewrite Z.sub_0_r.
  apply (collect_loop (fun o => get_distance c o sample)).
  intros k Hk. apply get_distance_eq; [exact W | lia | exact Hs].
Qed.

(** X5.  [calc_euclidean_metric] returns one entry per symbol, the distance
    that [get_distance] gives for it, and the entry of the symbol that the
    nearest-point search decides is the least of them. *)
Theorem euclidean_metric_lists_distances
        (c : constellation) (sample : list gr_complex) :
  wf c -> 1 <= d_arity c -> size sample = d_dimensionality c ->
  exists metric m,
    calc_euclidean_metric c sample = Ok metric
    /\ size metric = d_arity c
    /\ (forall o, 0 <= o < d_arity c ->
                  vec_at metric o = get_distance c o sample)
    /\ get_closest_point c sample = Ok m
    /\ (forall o, 0 <= o < d_arity c ->
                  (nth (Z.to_nat m) metric 0 <= nth (Z.to_nat o) metric 0)%R).
Proof.
  intros W Ha Hs.
  destruct (get_closest_point_scan c sample W Ha Hs) as (m & Hrun & Hm & Hmin).
  eexists. exists m. split; [apply calc_euclidean_metric_eq; assumption|].
  assert (forall o, 0 <= o < d_arity c ->
            vec_at (map (fun o => dist_upto c (Z.of_nat o) sample
                                    (Z.to_nat (d_dimensionality c)))
                        (seq 0 (Z.to_nat (d_arity c)))) o
            = Ok (dist_upto c o sample (Z.to_nat (d_dimensionality c))))
    as Hat.
  { intros o Ho. rewrite vec_at_map_seq by lia. rewrite Z2Nat.id by lia.
    reflexivity. }
  assert (forall o, 0 <= o < d_arity c ->
            nth (Z.to_nat o)
                (map (fun o => dist_upto c (Z.of_nat o) sample
                                 (Z.to_nat (d_dimensionality c)))
                     (seq 0 (Z.to_nat (d_arity c)))) 0%R
            = dist_upto c o sample (Z.to_nat (d_dimensionality c)))
    as Hnth.
  { intros o Ho. pose proof (Hat o Ho) as E.
    rewrite (vec_at_nth _ _ 0%R) in E
      by (unfold size; rewrite length_map, length_seq; lia).
    congruence. }
  split; [unfold size; rewrite length_map, length_seq; lia|].
  split; [intros o Ho; rewrite Hat, get_distance_eq by assumption; reflexivity|].
  split; [exact Hrun|].
  intros o Ho. rewrite !Hnth by assumption. apply (Hmin o Ho).
Qed.

Lemma euclidean_metric_lists_distances_witness :
  exists metric m,
    calc_euclidean_metric bpsk_base [(1%R, 0%R)] = Ok metric
    /\ size metric = d_arity bpsk_base
    /\ (forall o, 0 <= o < d_arity bpsk_base ->
                  vec_at metric o = get_distance bpsk_base o [(1%R, 0%R)])
    /\ get_closest_point bpsk_base [(1%R, 0%R)] = Ok m
    /\ (forall o, 0 <= o < d_arity bpsk_base ->
                  (nth (Z.to_nat m) metric 0 <= nth (Z.to_nat o) metric 0)%R).
Proof.
  apply (euclidean_metric_lists_distances bpsk_base [(1%R, 0%R)] bpsk_base_wf).
  - cbn [d_arity bpsk_base]. lia.
  - reflexivity.
Defined.

(** The first loop of [calc_hard_symbol_metric]: it keeps [FLT_MAX] and
    index 0 while no distance is below [FLT_MAX], and from then on the first
    index of least distance. *)
Lemma hard_symbol_scan (c : constellation) (sample : list gr_complex) :
  wf c -> size sample = d_dimensionality c ->
  let dist j := dist_upto c j sample (Z.to_nat (d_dimensionality c)) in
  forall k : nat, Z.of_nat k <= d_arity c ->
    exists minm minmi,
      for_loop 0 k
        (fun o (st : R * Z) =>
           let (minm, minmi) := st in
           dist <- get_distance c o sample ;;
           if fltb dist minm then Ok (dist, o) else Ok (minm, minmi))
        (FLT_MAX, 0)
      = Ok (minm, minmi)
      /\ ((minm = FLT_MAX /\ minmi = 0
           /\ forall j, 0 <= j < Z.of_nat k -> (FLT_MAX <= dist j)%R)
          \/ (minm = dist minmi /\ 0 <= minmi < Z.of_nat k
              /\ (dist minmi < FLT_MAX)%R
              /\ forall j, 0 <= j < Z.of_nat k ->
                           (dist minmi <= dist j)%R
                           /\ (j < minmi -> (dist minmi < dist j)%R))).
Proof.
  intros W Hs dist. induction k as [|k IH]; intros Hk.
  - exists FLT_MAX, 0. split; [reflexivity|]. left.
    repeat split. intros j Hj. lia.
  - destruct IH as (minm & minmi & Hrun & Hinv); [lia|].
    rewrite for_loop_snoc, Hrun, bind_Ok, Z.add_0_l.
    rewrite get_distance_eq by (auto; lia). rewrite bind_Ok.
    fold (dist (Z.of_nat k)).
    destruct (Rlt_dec (dist (Z.of_nat k)) minm) as [Hlt|Hge].
    + rewrite fltb_true by exact Hlt.
      exists (dist (Z.of_nat k)), (Z.of_nat k). split; [reflexivity|].
      right. split; [reflexivity|]. split; [lia|].
      destruct Hinv as [(Em & _ & Hall)|(Em & Hi & Hmax & Hmin)].
      * split; [lra|]. intros j Hj.
        destruct (Z.eq_dec j (Z.of_nat k)) as [->|Hne]; [split; [lra|lia]|].
        assert (FLT_MAX <= dist j)%R by (apply Hall; lia).
        split; intros; lra.
      * split; [lra|]. intros j Hj.
        destruct (Z.eq_dec j (Z.of_nat k)) as [->|Hne]; [split; [lra|lia]|].
        destruct (Hmin j) as [Hle _]; [lia|].
        split; intros; lra.
    + rewrite fltb_false by lra.
      exists minm, minmi. split; [reflexivity|].
      destruct Hinv as [(Em & Ei & Hall)|(Em & Hi & Hmax & Hmin)].
      * left. repeat split; try assumption. intros j Hj.
        destruct (Z.eq_dec j (Z.of_nat k)) as [->|Hne]; [lra|].
        apply Hall. lia.
      * right. split; [exact Em|]. split; [lia|]. split; [exact Hmax|].
        intros j Hj.
        destruct (Z.eq_dec j (Z.of_nat k)) as [->|Hne].
        -- split; [lra|lia].
        -- apply Hmin. lia.
Qed.

Lemma mark_loop (minmi : Z) (n : nat) :
  for_loop 0 n
    (fun o metric => Ok (metric ++ [if o =? minmi then 0%R else 1%R])) []
  = Ok (map (fun o => if Z.of_nat o =? minmi then 0%R else 1%R) (seq 0 n)).
Proof.
  induction n as [|n IH]; [reflexivity|].
  rewrite for_loop_snoc, IH, bind_Ok, Z.add_0_l, seq_S, map_app.
  reflexivity.
Qed.

(** X6.  When some symbol is nearer to the sample than [FLT_MAX],
    [calc_hard_symbol_metric] returns one entry per symbol: 0 for the symbol
    that the nearest-point search decides, 1 for every other. *)
Theorem hard_symbol_metric_marks_closest_point
        (c : constellation) (sample : list gr_complex) (j : Z) (d : R) :
  wf c -> size sample = d_dimensionality c ->
  0 <= j < d_arity c -> get_distance c j sample = Ok d -> (d < FLT_MAX)%R ->
  exists m metric,
    get_closest_point c sample = Ok m
    /\ calc_hard_symbol_metric c sample = Ok metric
    /\ size metric = d_arity c
    /\ forall o, 0 <= o < d_arity c ->
                 vec_at metric o = Ok (if o =? m then 0%R else 1%R).
Proof.
  intros W Hs Hj Hd Hlt.
  rewrite get_distance_eq in Hd by assumption. injection Hd as Hd.
  destruct (get_closest_point_scan c sample W ltac:(lia) Hs)
    as (m & Hrun & Hm & Hmin).
  destruct (hard_symbol_scan c sample W Hs (Z.to_nat (d_arity c)) ltac:(lia))
    as (minm & minmi & Hscan & Hinv).
  rewrite Z2Nat.id in Hinv by lia.
  assert (minmi = m) as ->.
  { destruct Hinv as [(_ & _ & Hall)|(_ & Hi & _ & Hfirst)].
    - specialize (Hall j Hj). lra.
    - destruct (Hmin minmi Hi) as [H1 H2].
      destruct (Hfirst m Hm) as [H3 H4].
      destruct (Z.lt_trichotomy minmi m) as [Hc|[Hc|Hc]];
        [specialize (H2 Hc); lra | exact Hc | specialize (H4 Hc); lra]. }
  exists m. eexists. split; [exact Hrun|].
  unfold calc_hard_symbol_metric, for_range. rewrite Z.sub_0_r, Hscan, bind_Ok.
  cbn [snd]. split; [apply mark_loop|].
  split; [unfold size; rewrite length_map, length_seq; lia|].
  intros o Ho. rewrite vec_at_map_seq by lia. rewrite Z2Nat.id by lia.
  reflexivity.
Qed.

Lemma hard_symbol_metric_marks_closest_point_witness :
  exists m metric,
    get_closest_point bpsk_base [(1%R, 0%R)] = Ok m
    /\ calc_hard_symbol_metric bpsk_base [(1%R, 0%R)] = Ok metric
    /\ size metric = d_arity bpsk_base
    /\ forall o, 0 <= o < d_arity bpsk_base ->
                 vec_at metric o = Ok (if o =? m then 0%R else 1%R).
Proof.
  apply (hard_symbol_metric_marks_closest_point bpsk_base [(1%R, 0%R)] 1
           (0 + norm (Csub (1%R, 0%R) (1%R, 0%R)))%R bpsk_base_wf).
  - reflexivity.
  - cbn [d_arity bpsk_base]. lia.
  - reflexivity.
  - unfold norm, Csub, real, imag, FLT_MAX. cbn [fst snd]. lra.
Defined.

(** X7.  [calc_metric] returns one metric per symbol for the Euclidean and
    the hard-symbol type, and throws for the hard-bit type and for every
    other value of the type. *)
Theorem calc_metric_by_type
        (c : constellation) (sample : list gr_complex)
        (type : trellis_metric_type_t) :
  wf c -> size sample = d_dimensionality c ->
  match type with
  | TRELLIS_EUCLIDEAN | TRELLIS_HARD_SYMBOL =>
      exists metric,
        calc_metric c sample type = Ok metric /\ size metric = d_arity c
  | _ => throws (calc_metric c sample type)
  end.
Proof.
  intros W Hs.
  assert (0 <= d_arity c) as Ha
      by (destruct W as (? & ? & ?);
          pose proof (size_nonneg (d_constellation c)); nia).
  destruct type as [| | |v]; cbn [calc_metric].
  - eexists. split; [apply calc_euclidean_metric_eq; assumption|].
    unfold size. rewrite length_map, length_seq. lia.
  - destruct (hard_symbol_scan c sample W Hs (Z.to_nat (d_arity c))
                ltac:(lia)) as (minm & minmi & Hscan & _).
    eexists. unfold calc_hard_symbol_metric, for_range.
    rewrite Z.sub_0_r, Hscan, bind_Ok. cbn [snd].
    split; [apply mark_loop|].
    unfold size. rewrite length_map, length_seq. lia.
  - eexists. reflexivity.
  - eexists. reflexivity.
Qed.

Lemma calc_metric_by_type_witness :
  exists metric,
    calc_metric bpsk_base [(1%R, 0%R)] TRELLIS_HARD_SYMBOL = Ok metric
    /\ size metric = d_arity bpsk_base.
Proof.
  exact (calc_metric_by_type bpsk_base [(1%R, 0%R)] TRELLIS_HARD_SYMBOL
           bpsk_base_wf eq_refl).
Defined.

(** ** Nearest-point search and the closed-form decisions *)

(** The nearest-point search returns [i] when [i] is the first index of
    least distance. *)
Lemma get_closest_point_first_min
      (c : constellation) (sample : list gr_complex) (i : Z) :
  wf c -> size sample = d_dimensionality c -> 0 <= i < d_arity c ->
  (forall j, 0 <= j < d_arity c ->
             (dist_upto c i sample (Z.to_nat (d_dimensionality c))
              <= dist_upto c j sample (Z.to_nat (d_dimensionality c)))%R
             /\ (j < i ->
                 (dist_upto c i sample (Z.to_nat (d_dimensionality c))
                  < dist_upto c j sample (Z.to_nat (d_dimensionality c)))%R)) ->
  get_closest_point c sample = Ok i.
Proof.
  intros W Hs Hi Hfirst.
  destruct (get_closest_point_scan c sample W ltac:(lia) Hs)
    as (m & Hrun & Hm & Hmin).
  rewrite Hrun. f_equal.
  destruct (Hmin i Hi) as [H1 H2]. destruct (Hfirst m Hm) as [H3 H4].
  destruct (Z.lt_trichotomy m i) as [Hc|[Hc|Hc]];
    [specialize (H4 Hc); lra | exact Hc | specialize (H2 Hc); lra].
Qed.

(** The same for a constellation of dimensionality 1. *)
Lemma get_closest_point_dim1 (c : constellation) (s : gr_complex) (i : Z) :
  wf c -> d_dimensionality c = 1 -> 0 <= i < d_arity c ->
  (forall j, 0 <= j < d_arity c ->
             (norm (Csub s (nth (Z.to_nat i) (d_constellation c) (0, 0)))
              <= norm (Csub s (nth (Z.to_nat j) (d_constellation c) (0, 0))))%R
             /\ (j < i ->
                 (norm (Csub s (nth (Z.to_nat i) (d_constellation c) (0, 0)))
                  < norm (Csub s (nth (Z.to_nat j) (d_constellation c) (0, 0))))%R)) ->
  get_closest_point c [s] = Ok i.
Proof.
  intros W HD Hi Hfirst.
  apply get_closest_point_first_min; try assumption.
  - rewrite HD. reflexivity.
  - intros j Hj. rewrite HD. change (Z.to_nat 1) with 1%nat.
    cbn [dist_upto nth Z.of_nat]. unfold point. rewrite HD.
    replace (Z.to_nat (i * 1 + 0)) with (Z.to_nat i) by lia.
    replace (Z.to_nat (j * 1 + 0)) with (Z.to_nat j) by lia.
    destruct (Hfirst j Hj) as [H1 H2]. split; [lra|].
    intros Hlt. specialize (H2 Hlt). lra.
Qed.

(** X8.  With the distances of [get_distance] taken in exact real
    arithmetic, the closed-form decision of [constellation_bpsk] is the
    decision of the nearest-point search over its two points, for every
    sample. *)
Theorem bpsk_decision_is_nearest_point :
  exists o,
    constellation_bpsk.make = Ok o
    /\ forall s : gr_complex,
         decision_maker o [s] = get_closest_point (base o) [s].
Proof.
  eexists. split; [exact constellation_bpsk_ctor_eq|].
  intros [x y]. cbn [base cls decision_maker].
  rewrite bpsk_points_closest by reflexivity. reflexivity.
Qed.

Ltac four_points :=
  match goal with
  | H : 0 <= ?j < 4 |- _ =>
      let E := fresh in
      assert (j = 0 \/ j = 1 \/ j = 2 \/ j = 3) as E by lia;
      destruct E as [->|[->|[-> | ->]]]
  end.

Ltac index_nats :=
  repeat match goal with
    | |- context [Z.to_nat ?z] =>
        let n := eval compute in (Z.to_nat z) in
        change (Z.to_nat z) with n
    end.

Ltac nearest_of_four i :=
  apply (get_closest_point_dim1 _ _ i);
  [ unfold wf, size, UINT_MOD; cbn; lia
  | reflexivity
  | cbn; lia
  | let j := fresh "j" in
    let Hj := fresh "Hj" in
    intros j Hj; cbn in Hj; four_points;
    index_nats;
    cbn [d_constellation with_arity with_points nth];
    unfold norm, Csub, real, imag, SQRT_TWO; cbn [fst snd];
    (split; [lra | intro; first [lia | lra]]) ].

(** X9.  With the distances of [get_distance] taken in exact real
    arithmetic, the closed-form decision of [constellation_qpsk] is the
    decision of the nearest-point search over its four points, for every
    sample, also on the axes, where two points are equally near. *)
Theorem qpsk_decision_is_nearest_point :
  exists o,
    constellation_qpsk.make = Ok o
    /\ forall s : gr_complex,
         decision_maker o [s] = get_closest_point (base o) [s].
Proof.
  eexists. split; [reflexivity|].
  intros [x y]. cbn [base cls decision_maker].
  unfold constellation_qpsk.decision_maker, real, imag.
  cbn [vec_at Z.ltb Z.compare Z.to_nat nth_error bind fst snd].
  symmetry.
  destruct (Rlt_dec 0 x) as [Hx|Hx]; destruct (Rlt_dec 0 y) as [Hy|Hy];
    fcmp; cbn [b2z Z.mul Z.add Pos.mul Pos.add].
  - nearest_of_four 3.
  - nearest_of_four 1.
  - nearest_of_four 2.
  - nearest_of_four 0.
Qed.

(** X10.  With the distances of [get_distance] taken in exact real
    arithmetic: off the two axes the closed-form decision of
    [constellation_dqpsk] is the decision of the nearest-point search over
    its four points.  On the positive imaginary axis, where the points 0 and
    1 are equally near, the closed form answers 1 and the search answers 0. *)
Theorem dqpsk_decision_is_nearest_point_off_axes :
  exists o,
    constellation_dqpsk.make = Ok o
    /\ (forall x y : R,
          x <> 0%R -> y <> 0%R ->
          decision_maker o [(x, y)] = get_closest_point (base o) [(x, y)])
    /\ (forall y : R,
          (0 < y)%R ->
          decision_maker o [(0%R, y)] = Ok 1
          /\ get_closest_point (base o) [(0%R, y)] = Ok 0).
Proof.
  eexists. split; [reflexivity|]. split.
  - intros x y Hx0 Hy0. cbn [base cls decision_maker].
    unfold constellation_dqpsk.decision_maker, real, imag.
    cbn [vec_at Z.ltb Z.compare Z.to_nat nth_error bind fst snd].
    symmetry.
    destruct (Rlt_dec 0 x) as [Hx|Hx]; destruct (Rlt_dec 0 y) as [Hy|Hy];
      fcmp.
    + nearest_of_four 0.
    + nearest_of_four 3.
    + nearest_of_four 1.
    + nearest_of_four 2.
  - intros y Hy. cbn [base cls decision_maker]. split.
    + unfold constellation_dqpsk.decision_maker, real, imag.
      cbn [vec_at Z.ltb Z.compare Z.to_nat nth_error bind fst snd].
      fcmp. reflexivity.
    + nearest_of_four 0.
Qed.

Ltac eight_points :=
  match goal with
  | H : 0 <= ?j < 8 |- _ =>
      let E := fresh in
      assert (j = 0 \/ j = 1 \/ j = 2 \/ j = 3
              \/ j = 4 \/ j = 5 \/ j = 6 \/ j = 7) as E by lia;
      destruct E as [->|[->|[->|[->|[->|[->|[-> | ->]]]]]]]
  end.

(** Inside an octant, with [ax] and [ay] the two positive coordinates and
    [w] their positive difference, the products with [s] and [c - s] are
    positive. *)
Lemma octant_products (c s ax ay w : R) :
  (0 < s < c)%R -> (0 < ax)%R -> (0 < ay)%R -> (0 < w)%R ->
  (0 < s * ax /\ 0 < s * ay /\ 0 < s * w
   /\ 0 < (c - s) * ax /\ 0 < (c - s) * ay /\ 0 < (c - s) * w)%R.
Proof.
  intros [Hs Hc] Hx Hy Hw.
  repeat split; apply Rmult_lt_0_compat; lra.
Qed.

Ltac octant i ax ay w le_abs le_re le_im :=
  match goal with
  | Hsc : (0 < sin (PI / 8) < cos (PI / 8))%R |- _ =>
      let P1 := fresh in let P2 := fresh in let P3 := fresh in
      let P4 := fresh in let P5 := fresh in let P6 := fresh in
      destruct (octant_products _ _ ax ay w Hsc)
        as (P1 & P2 & P3 & P4 & P5 & P6); try lra
  end;
  match goal with
  | |- constellation_8psk.decision_maker [(?x, ?y)] = _ =>
      rewrite (psk8_decision_eq x y le_abs le_re le_im) by abs_cmp
  end;
  symmetry;
  apply (get_closest_point_dim1 _ _ i);
  [ unfold wf, size, UINT_MOD; cbn; lia
  | reflexivity
  | cbn; lia
  | let j := fresh "j" in
    let Hj := fresh "Hj" in
    intros j Hj; cbn in Hj; eight_points; index_nats;
    cbn [d_constellation with_arity with_points nth];
    unfold norm, Csub, real, imag; cbn [fst snd];
    repeat match goal with
      | E : cos (_ * (PI / 8)) = _ |- _ => rewrite E
      | E : sin (_ * (PI / 8)) = _ |- _ => rewrite E
      end;
    (split; [lra | intro; first [lia | lra]]) ].

(** X11.  With the stored points and the distances of [get_distance] taken
    in exact real arithmetic (cos and sin as real functions, distances not
    rounded): strictly inside each of the eight octants (off the axes and
    the diagonals) the closed-form decision of [constellation_8psk] is the
    decision of the nearest-point search over its eight points. *)
Theorem psk8_decision_is_nearest_point_inside_octants :
  exists o,
    constellation_8psk.make = Ok o
    /\ forall x y : R,
         x <> 0%R -> y <> 0%R -> Rabs x <> Rabs y ->
         decision_maker o [(x, y)] = get_closest_point (base o) [(x, y)].
Proof.
  eexists. split; [reflexivity|].
  intros x y Hx0 Hy0 Habs.
  pose proof sin_cos_PI8 as Hsc.
  destruct psk8_angles
    as ([C1 S1] & [C7 S7] & [C15 S15] & [C9 S9] & [C3 S3] & [C5 S5]
        & [C13 S13] & [C11 S11]).
  assert ((0 < y < x) \/ (0 < x < y) \/ (0 < - x < y) \/ (0 < y < - x)
          \/ (0 < - y < - x) \/ (0 < - x < - y) \/ (0 < x < - y)
          \/ (0 < - y < x))%R as Hoct.
  { unfold Rabs in Habs.
    destruct (Rcase_abs x), (Rcase_abs y);
      destruct (Rtotal_order x y) as [?|[?|?]];
      destruct (Rtotal_order x (- y)) as [?|[?|?]]; lra. }
  unfold decision_maker. cbn [cls base].
  destruct Hoct as [H|[H|[H|[H|[H|[H|[H|H]]]]]]].
  - octant 0 x y (x - y)%R false false false.
  - octant 4 x y (y - x)%R true false false.
  - octant 5 (- x)%R y (y - - x)%R true true false.
  - octant 1 (- x)%R y (- x - y)%R false true false.
  - octant 3 (- x)%R (- y)%R (- x - - y)%R false true true.
  - octant 7 (- x)%R (- y)%R (- y - - x)%R true true true.
  - octant 6 x (- y)%R (- y - x)%R true false true.
  - octant 2 x (- y)%R (x - - y)%R false false true.
Qed.

(** X12.  The closed-form decisions of [constellation_bpsk],
    [constellation_qpsk], [constellation_dqpsk] and [constellation_8psk]
    return, for every sample, the index of one of the points that the
    constructor stored. *)
Theorem closed_form_decision_is_a_symbol
        (o : object) (s : gr_complex) (rest : list gr_complex) :
  constellation_bpsk.make = Ok o \/ constellation_qpsk.make = Ok o
  \/ constellation_dqpsk.make = Ok o \/ constellation_8psk.make = Ok o ->
  exists i, decision_maker o (s :: rest) = Ok i /\ 0 <= i < d_arity (base o).
Proof.
  intros [H|[H|[H|H]]].
  - assert (exists b, constellation_bpsk.make = Ok (mk_object b Bpsk)
                      /\ d_arity b = 2) as (b & E & Ha)
        by (eexists; split; reflexivity).
    rewrite E in H. injection H as <-. unfold decision_maker.
    cbn [cls base]. rewrite Ha. unfold constellation_bpsk.decision_maker.
    change (vec_at (s :: rest) 0) with (Ok s). rewrite bind_Ok.
    destruct (fltb 0 (real s)); eexists; (split; [reflexivity | cbn; lia]).
  - assert (exists b, constellation_qpsk.make = Ok (mk_object b Qpsk)
                      /\ d_arity b = 4) as (b & E & Ha)
        by (eexists; split; reflexivity).
    rewrite E in H. injection H as <-. unfold decision_maker.
    cbn [cls base]. rewrite Ha. unfold constellation_qpsk.decision_maker.
    change (vec_at (s :: rest) 0) with (Ok s). rewrite bind_Ok.
    destruct (fltb 0 (real s)), (fltb 0 (imag s));
      eexists; (split; [reflexivity | cbn; lia]).
  - assert (exists b, constellation_dqpsk.make = Ok (mk_object b Dqpsk)
                      /\ d_arity b = 4) as (b & E & Ha)
        by (eexists; split; reflexivity).
    rewrite E in H. injection H as <-. unfold decision_maker.
    cbn [cls base]. rewrite Ha. unfold constellation_dqpsk.decision_maker.
    change (vec_at (s :: rest) 0) with (Ok s). rewrite bind_Ok.
    destruct (fltb 0 (real s)), (fltb 0 (imag s));
      eexists; (split; [reflexivity | cbn; lia]).
  - assert (exists b, constellation_8psk.make = Ok (mk_object b Psk8)
                      /\ d_arity b = 8) as (b & E & Ha)
        by (eexists; split; reflexivity).
    rewrite E in H. injection H as <-. unfold decision_maker.
    cbn [cls base]. rewrite Ha. unfold constellation_8psk.decision_maker.
    change (vec_at (s :: rest) 0) with (Ok s). rewrite bind_Ok.
    destruct (fleb (Rabs (real s)) (Rabs (imag s))), (fleb (real s) 0),
      (fleb (imag s) 0);
      eexists; (split; [reflexivity | cbn; lia]).
Qed.

Lemma closed_form_decision_is_a_symbol_witness :
  exists o i,
    constellation_dqpsk.make = Ok o
    /\ decision_maker o [(0%R, 0%R)] = Ok i /\ 0 <= i < d_arity (base o).
Proof.
  eexists.
  destruct (closed_form_decision_is_a_symbol _ (0%R, 0%R) []
              (or_intror (or_intror (or_introl eq_refl)))) as (i & Hi & Hr).
  exists i. split; [reflexivity|]. split; [exact Hi | exact Hr].
Defined.

(** ** The phase error *)

Lemma atan2_scale (k y x : R) :
  (0 < k)%R -> atan2 (k * y) (k * x) = atan2 y x.
Proof.
  intros Hk. unfold atan2.
  destruct (Rtotal_order 0 x) as [Hx|[Hx|Hx]].
  - assert (0 < k * x)%R by (apply Rmult_lt_0_compat; lra).
    rewrite !fltb_true by lra. f_equal. field. lra.
  - subst x. rewrite Rmult_0_r. rewrite !(fltb_false 0 0) by lra.
    destruct (Rtotal_order 0 y) as [Hy|[Hy|Hy]].
    + assert (0 < k * y)%R by (apply Rmult_lt_0_compat; lra).
      rewrite !fltb_true by lra. reflexivity.
    + subst y. rewrite Rmult_0_r. reflexivity.
    + assert (0 < k * - y)%R by (apply Rmult_lt_0_compat; lra).
      rewrite (fltb_false 0 (k * y)), (fltb_false 0 y) by lra.
      rewrite (fltb_true (k * y) 0), (fltb_true y 0) by lra. reflexivity.
  - assert (0 < k * - x)%R by (apply Rmult_lt_0_compat; lra).
    rewrite (fltb_false 0 (k * x)), (fltb_false 0 x) by lra.
    rewrite (fltb_true (k * x) 0), (fltb_true x 0) by lra.
    replace (k * y / (k * x))%R with (y / x)%R by (field; lra).
    destruct (Rtotal_order 0 y) as [Hy|[Hy|Hy]].
    + assert (0 < k * y)%R by (apply Rmult_lt_0_compat; lra).
      rewrite (fltb_false (k * y) 0), (fltb_false y 0) by lra. reflexivity.
    + subst y. rewrite Rmult_0_r. reflexivity.
    + assert (0 < k * - y)%R by (apply Rmult_lt_0_compat; lra).
      rewrite (fltb_true (k * y) 0), (fltb_true y 0) by lra. reflexivity.
Qed.

Lemma vec_at_Ok_range {A : Type} (v : list A) (i : Z) (a : A) :
  vec_at v i = Ok a -> 0 <= i < size v.
Proof.
  unfold vec_at, size. destruct (Z.ltb_spec i 0); [discriminate|].
  destruct (nth_error v (Z.to_nat i)) eqn:E; [|discriminate].
  intros _. assert (nth_error v (Z.to_nat i) <> None) as N by congruence.
  apply nth_error_Some in N. lia.
Qed.

(** X13.  For a constellation of dimensionality 1, a sample that is the
    decided point turned by the angle [theta] and scaled by a positive
    factor gets the phase error [- theta] from [decision_maker_pe]. *)
Theorem phase_error_of_turned_point
        (o : object) (m : Z) (p : gr_complex) (r theta : R) :
  wf (base o) -> d_dimensionality (base o) = 1 ->
  vec_at (d_constellation (base o)) m = Ok p ->
  p <> (0%R, 0%R) -> (0 < r)%R -> (- PI < theta <= PI)%R ->
  decision_maker o [Cscale (Cmul p (cos theta, sin theta)) r] = Ok m ->
  exists phase_error,
    decision_maker_pe o [Cscale (Cmul p (cos theta, sin theta)) r]
    = Ok (m, phase_error)
    /\ phase_error = (- theta)%R.
Proof.
  intros W HD Hp Hne Hr Hth Hdec.
  pose proof (vec_at_Ok_range _ _ _ Hp) as Hm.
  pose proof W as (_ & _ & Hlt).
  unfold decision_maker_pe. rewrite Hdec, bind_Ok, HD.
  unfold for_range. change (Z.to_nat (1 - 0)) with 1%nat.
  cbn [for_loop].
  change (vec_at [Cscale (Cmul p (cos theta, sin theta)) r] 0)
    with (Ok (Cscale (Cmul p (cos theta, sin theta)) r)).
  rewrite bind_Ok, Z.add_0_r, wrap_u32_small, Hp by lia.
  cbn [bind]. eexists. split; [reflexivity|].
  destruct p as [px py].
  assert (0 < px * px + py * py)%R as Hnorm.
  { destruct (Req_dec px 0) as [Ex|Ex]; destruct (Req_dec py 0) as [Ey|Ey];
      [exfalso; apply Hne; congruence | nra | nra | nra]. }
  assert (0 < r * (px * px + py * py))%R as HK
      by (apply Rmult_lt_0_compat; lra).
  unfold arg, Cmul, Cscale, conj, real, imag. cbn [fst snd].
  replace (((px * cos theta - py * sin theta) * r * - py
            + (px * sin theta + py * cos theta) * r * px))%R
    with (r * (px * px + py * py) * sin theta)%R by ring.
  replace (((px * cos theta - py * sin theta) * r * px
            - (px * sin theta + py * cos theta) * r * - py))%R
    with (r * (px * px + py * py) * cos theta)%R by ring.
  rewrite atan2_scale by exact HK. rewrite atan2_sin_cos by exact Hth. lra.
Qed.

Lemma phase_error_of_turned_point_witness :
  exists phase_error,
    decision_maker_pe (mk_object bpsk_base Bpsk)
      [Cscale (Cmul (1%R, 0%R) (cos 0, sin 0)) 1]
    = Ok (1, phase_error)
    /\ phase_error = (- 0)%R.
Proof.
  pose proof PI_RGT_0 as Hpi.
  apply (phase_error_of_turned_point (mk_object bpsk_base Bpsk) 1
           (1%R, 0%R) 1 0).
  - exact bpsk_base_wf.
  - reflexivity.
  - reflexivity.
  - intros E. injection E as E. lra.
  - lra.
  - lra.
  - unfold decision_maker, constellation_bpsk.decision_maker, Cscale, Cmul,
      real, imag.
    cbn [cls vec_at Z.ltb Z.compare Z.to_nat nth_error bind fst snd].
    rewrite cos_0, sin_0. rewrite fltb_true by lra. reflexivity.
Defined.

(** ** Sectors *)

Lemma atan2_range (y x : R) : (- PI < atan2 y x <= PI)%R.
Proof.
  pose proof PI_RGT_0 as Hpi. unfold atan2.
  destruct (Rtotal_order 0 x) as [Hx|[Hx|Hx]].
  - rewrite fltb_true by exact Hx.
    pose proof (atan_bound (y / x)). lra.
  - subst x. rewrite !(fltb_false 0 0) by lra.
    destruct (Rlt_dec 0 y); [rewrite fltb_true by lra; lra|].
    rewrite (fltb_false 0 y) by lra.
    destruct (Rlt_dec y 0); [rewrite fltb_true by lra; lra|].
    rewrite fltb_false by lra. lra.
  - rewrite (fltb_false 0 x), (fltb_true x 0) by lra.
    pose proof (atan_bound (y / x)) as Hb.
    destruct (Rlt_dec y 0) as [Hy|Hy].
    + rewrite fltb_true by exact Hy.
      assert (0 < y / x)%R as Hq.
      { replace (y / x)%R with ((- y) * / (- x))%R by (field; lra).
        apply Rmult_lt_0_compat; [lra|]. apply Rinv_0_lt_compat. lra. }
      pose proof (atan_increasing _ _ Hq) as Hi. rewrite atan_0 in Hi. lra.
    + rewrite fltb_false by lra.
      assert (y / x <= 0)%R as Hq.
      { replace (y / x)%R with (- (y * / (- x)))%R by (field; lra).
        assert (0 <= y * / (- x))%R; [|lra].
        apply Rmult_le_pos; [lra|]. apply Rlt_le, Rinv_0_lt_compat. lra. }
      destruct Hq as [Hq|Hq].
      * pose proof (atan_increasing _ _ Hq) as Hi. rewrite atan_0 in Hi. lra.
      * rewrite Hq, atan_0. lra.
Qed.

(** The wedge that [constellation_psk::get_sector] computes lies in the
    table for every sample, from two wedges on. *)
Lemma psk_get_sector_range
      (st : sector_state) (s : gr_complex) (rest : list gr_complex) :
  2 <= n_sectors st <= INT_MAX ->
  exists sector,
    constellation_psk.get_sector st (s :: rest) = Ok sector
    /\ 0 <= sector < n_sectors st.
Proof.
  intros Hn. pose proof PI_RGT_0 as Hpi.
  unfold constellation_psk.get_sector.
  change (vec_at (s :: rest) 0) with (Ok s). rewrite bind_Ok.
  pose proof (atan2_range (imag s) (real s)) as Hph. fold (arg s) in Hph.
  set (n := n_sectors st) in *.
  assert (2 <= IZR n)%R as Hnr by (apply IZR_le; lia).
  set (q := (arg s / (2 * PI / IZR n) + 5 / 10)%R).
  assert (- IZR n / 2 + 5 / 10 < q <= IZR n / 2 + 5 / 10)%R as Hq.
  { unfold q.
    replace (arg s / (2 * PI / IZR n))%R
      with ((arg s / (2 * PI)) * IZR n)%R by (field; lra).
    assert (- (1 / 2) < arg s / (2 * PI) <= 1 / 2)%R as Ht.
    { split.
      - apply (Rmult_lt_reg_r (2 * PI)); [lra|].
        unfold Rdiv at 2. rewrite Rmult_assoc, Rinv_l by lra. lra.
      - apply (Rmult_le_reg_r (2 * PI)); [lra|].
        unfold Rdiv at 1. rewrite Rmult_assoc, Rinv_l by lra. lra. }
    split; nra. }
  destruct (Zfloor_bound q) as [Hf0 Hf1].
  set (f := Zfloor q) in *.
  assert (- n <= 2 * f <= n + 1) as Hf.
  { split.
    - assert (IZR (- n) < IZR (2 * f + 1))%R as H
          by (rewrite opp_IZR, plus_IZR, mult_IZR; lra).
      apply lt_IZR in H. lia.
    - assert (IZR (2 * f) <= IZR (n + 1))%R as H
          by (rewrite plus_IZR, mult_IZR; lra).
      apply le_IZR in H. exact H. }
  rewrite float_to_int_IZR by (unfold INT_MIN, INT_MAX in *; lia).
  eexists. split; [reflexivity|].
  destruct (Z.ltb_spec f 0) as [Hneg|Hpos].
  - rewrite (wrap_u32_small (f + n)) by (unfold INT_MAX, UINT_MOD in *; lia).
    rewrite wrap_i32_small by (unfold INT_MAX in *; lia).
    rewrite wrap_u32_small by (unfold INT_MAX, UINT_MOD in *; lia). lia.
  - rewrite wrap_u32_small by (unfold INT_MAX, UINT_MOD in *; lia). lia.
Qed.

Lemma get_closest_point_no_points
      (c : constellation) (sample : list gr_complex) :
  d_constellation c = [] -> 1 <= d_dimensionality c ->
  get_closest_point c sample = Undefined.
Proof.
  intros Hpts HD. unfold get_closest_point, get_distance, for_range.
  rewrite Hpts, Z.sub_0_r.
  destruct (Z.to_nat (d_dimensionality c)) as [|n] eqn:E; [lia|].
  rewrite for_loop_S, vec_at_nil.
  destruct sample as [|s0 t]; [rewrite vec_at_nil|]; reflexivity.
Qed.

(** An entry that [find_sector_values] stored by nearest-point search is
    the index of a symbol. *)
Lemma closest_point_is_a_symbol
      (c : constellation) (s : gr_complex) (v : Z) :
  wf c -> d_dimensionality c = 1 -> get_closest_point c [s] = Ok v ->
  0 <= v < d_arity c.
Proof.
  intros W HD Hv.
  destruct (Z_lt_le_dec (d_arity c) 1) as [Hlt|Hge].
  - exfalso. pose proof W as (_ & Hsz & _).
    pose proof (size_nonneg (d_constellation c)) as H0.
    assert (size (d_constellation c) = 0) as Hz by nia.
    apply size_zero_nil in Hz.
    rewrite (get_closest_point_no_points c [s] Hz) in Hv by lia.
    discriminate.
  - destruct (get_closest_point_scan c [s] W Hge) as (m & Hrun & Hm & _);
      [rewrite HD; reflexivity|].
    rewrite Hrun in Hv. injection Hv as <-. exact Hm.
Qed.

(** X14.  An object that [constellation_psk::make] built with at least two
    wedges decides, for every sample, the index of one of its symbols: the
    wedge of the sample lies in the table, and the table holds symbol
    indices. *)
Theorem psk_decision_is_a_symbol
        (constell : list gr_complex) (pre_diff_code : list Z) (n : Z)
        (o : object) (s : gr_complex) (rest : list gr_complex) :
  constellation_psk.make constell pre_diff_code n = Ok o ->
  2 <= n <= INT_MAX -> size constell < UINT_MOD ->
  exists sector i,
    match cls o with
    | Psk st => constellation_psk.get_sector st (s :: rest) = Ok sector
    | _ => False
    end
    /\ 0 <= sector < n
    /\ decision_maker o (s :: rest) = Ok i
    /\ 0 <= i < d_arity (base o).
Proof.
  intros Hmake Hn Hsz. unfold constellation_psk.make in Hmake.
  destruct (constellation_ctor constell pre_diff_code
              (wrap_u32 (size constell)) 1) as [b| | |] eqn:Hb;
    try discriminate Hmake.
  rewrite bind_Ok in Hmake.
  destruct (constellation_sector.find_sector_values _ _) as [values| | |]
    eqn:Hv; try discriminate Hmake.
  rewrite bind_Ok in Hmake. injection Hmake as <-. cbn [cls base].
  pose proof (constellation_ctor_wf _ _ _ _ _ Hb ltac:(lia) Hsz) as W.
  destruct (constellation_ctor_ok _ _ _ _ _ Hb) as (_ & _ & _ & HD & _).
  destruct (find_sector_values_ok _ _ _ Hv) as [Hsize Hf].
  destruct (psk_get_sector_range (mk_sector n values) s rest Hn)
    as (sector & Hsec & Hrange).
  cbn [n_sectors] in Hrange.
  assert (vec_at values sector = Ok (nth (Z.to_nat sector) values 0)) as Hat
      by (apply vec_at_nth; lia).
  exists sector, (nth (Z.to_nat sector) values 0).
  split; [exact Hsec|]. split; [exact Hrange|]. split.
  - unfold decision_maker, constellation_sector.decision_maker.
    cbn [cls sector_values]. rewrite Hsec, bind_Ok. exact Hat.
  - apply (closest_point_is_a_symbol b
             (constellation_psk.sector_center n sector)); try assumption.
    rewrite <- Hat, <- Hf by lia. reflexivity.
Qed.

Lemma psk_decision_is_a_symbol_witness :
  exists o sector i,
    constellation_psk.make bpsk_points [] 2 = Ok o
    /\ match cls o with
       | Psk st => constellation_psk.get_sector st [(1%R, 1%R)] = Ok sector
       | _ => False
       end
    /\ 0 <= sector < 2
    /\ decision_maker o [(1%R, 1%R)] = Ok i
    /\ 0 <= i < d_arity (base o).
Proof.
  destruct two_wedge_psk_ctor as (b & Hb).
  destruct (psk_decision_is_a_symbol bpsk_points [] 2 _ (1%R, 1%R) [] Hb)
    as (sector & i & H1 & H2 & H3 & H4).
  - unfold INT_MAX. lia.
  - unfold size, UINT_MOD. cbn. lia.
  - exists (mk_object b (Psk (mk_sector 2 [1; 0]))), sector, i.
    repeat split; try assumption; lia.
Defined.

Lemma one_wedge_psk_ctor :
  exists b,
    constellation_psk.make bpsk_points [] 1
    = Ok (mk_object b (Psk (mk_sector 1 [1]))).
Proof.
  destruct (bpsk_points_ctor [] 2 (or_introl eq_refl))
    as (b & Hb & _ & Hpts & _ & HD & Ha & _).
  exists b. unfold constellation_psk.make.
  change (wrap_u32 (size bpsk_points)) with 2. rewrite Hb, bind_Ok.
  unfold constellation_sector.find_sector_values, for_range,
    constellation_psk.calc_sector_value,
    constellation_psk.sector_center.
  change (Z.to_nat (1 - 0)) with 1%nat.
  rewrite for_loop_S. rewrite (bpsk_points_closest b) by assumption.
  replace (0 * (2 * PI) / 1)%R with 0%R by lra.
  rewrite cos_0, (fltb_true 0 1) by lra.
  reflexivity.
Qed.

(** X15.  With a single wedge the table has one entry, and a sample on the
    negative real axis has the phase [PI], half a wedge: [get_sector]
    returns 1 and the decision reads past the table. *)
Theorem psk_single_wedge_reads_past_table
        (constell : list gr_complex) (pre_diff_code : list Z)
        (o : object) (x : R) :
  constellation_psk.make constell pre_diff_code 1 = Ok o ->
  (x < 0)%R ->
  match cls o with
  | Psk st =>
      size (sector_values st) = 1
      /\ constellation_psk.get_sector st [(x, 0%R)] = Ok 1
  | _ => False
  end
  /\ decision_maker o [(x, 0%R)] = Undefined.
Proof.
  intros Hmake Hx. pose proof PI_RGT_0 as Hpi.
  unfold constellation_psk.make in Hmake.
  destruct (constellation_ctor constell pre_diff_code
              (wrap_u32 (size constell)) 1) as [b| | |] eqn:Hb;
    try discriminate Hmake.
  rewrite bind_Ok in Hmake.
  destruct (constellation_sector.find_sector_values _ _) as [values| | |]
    eqn:Hv; try discriminate Hmake.
  rewrite bind_Ok in Hmake. injection Hmake as <-. cbn [cls base].
  destruct (find_sector_values_ok _ _ _ Hv) as [Hsize _].
  change (Z.max 0 1) with 1 in Hsize.
  assert (constellation_psk.get_sector (mk_sector 1 values) [(x, 0%R)]
          = Ok 1) as Hsec.
  { unfold constellation_psk.get_sector.
    change (vec_at [(x, 0%R)] 0) with (Ok (x, 0%R)). rewrite bind_Ok.
    unfold arg, real, imag. cbn [fst snd n_sectors].
    rewrite atan2_neg_real_axis by (try exact Hx; reflexivity).
    replace (PI / (2 * PI / 1) + 5 / 10)%R with (IZR 1) by (field; lra).
    rewrite ZfloorZ. rewrite float_to_int_IZR by (unfold INT_MIN, INT_MAX; lia).
    reflexivity. }
  split; [split; [exact Hsize | exact Hsec]|].
  unfold decision_maker, constellation_sector.decision_maker.
  cbn [cls sector_values]. rewrite Hsec, bind_Ok.
  apply vec_at_outside. lia.
Qed.

Lemma psk_single_wedge_reads_past_table_witness :
  exists o,
    constellation_psk.make bpsk_points [] 1 = Ok o
    /\ match cls o with
       | Psk st =>
           size (sector_values st) = 1
           /\ constellation_psk.get_sector st [((-1)%R, 0%R)] = Ok 1
       | _ => False
       end
    /\ decision_maker o [((-1)%R, 0%R)] = Undefined.
Proof.
  destruct one_wedge_psk_ctor as (b & Hb).
  exists (mk_object b (Psk (mk_sector 1 [1]))). split; [exact Hb|].
  apply (psk_single_wedge_reads_past_table bpsk_points [] _ (-1) Hb). lra.
Defined.

(** X16.  An object that [constellation_rect] built with sector counts of
    at least 1 whose product fits [unsigned int] decides, for every sample
    for which the two conversions to [int] of [get_sector] are defined (a
    non-zero width, and a value [x / width + n / 2] whose integer part fits
    [int]; quotients in real arithmetic), the index of one of its symbols. *)
Theorem rect_decision_is_a_symbol
        (constell : list gr_complex) (pre_diff_code : list Z)
        (rot real_sectors imag_sectors : Z) (w_re w_im : R)
        (b : constellation) (st : sector_state) (r : rect_state)
        (s : gr_complex) (rest : list gr_complex) :
  constellation_rect.construct constell pre_diff_code rot real_sectors
    imag_sectors w_re w_im = Ok (b, st, r) ->
  1 <= real_sectors -> 1 <= imag_sectors ->
  real_sectors * imag_sectors < UINT_MOD -> size constell < UINT_MOD ->
  axis_defined (real s) (d_width_real_sectors r) real_sectors ->
  axis_defined (imag s) (d_width_imag_sectors r) imag_sectors ->
  exists i,
    decision_maker (mk_object b (Rect st r)) (s :: rest) = Ok i
    /\ 0 <= i < d_arity b.
Proof.
  intros Hbuild Hnr Hni Hfit Hsz Hdre Hdim.
  destruct (constellation_rect_build_ok _ _ _ _ _ _ _ _ _ _ Hbuild)
    as (Hb & Hr & Hn & Hvals).
  pose proof (constellation_ctor_wf _ _ _ _ _ Hb ltac:(lia) Hsz) as W.
  destruct (constellation_ctor_ok _ _ _ _ _ Hb) as (_ & _ & _ & HD & _).
  assert (n_real_sectors r = real_sectors /\ n_imag_sectors r = imag_sectors)
    as [Enr Eni] by (rewrite Hr; split; reflexivity).
  destruct (rect_get_sector_range r s rest) as (sector & Hsec & Hrange);
    [rewrite Enr; nia | rewrite Eni; nia
    | rewrite Enr; exact Hdre | rewrite Eni; exact Hdim |].
  rewrite Enr, Eni in Hrange.
  destruct (find_sector_values_ok _ _ _ Hvals) as [Hsize Hf].
  rewrite Hn, wrap_u32_small in Hsize, Hf by nia.
  assert (vec_at (sector_values st) sector
          = Ok (nth (Z.to_nat sector) (sector_values st) 0)) as Hat
      by (apply vec_at_nth; lia).
  exists (nth (Z.to_nat sector) (sector_values st) 0). split.
  - unfold decision_maker, constellation_sector.decision_maker.
    cbn [cls]. rewrite Hsec, bind_Ok. exact Hat.
  - apply (closest_point_is_a_symbol b
             (constellation_rect.calc_sector_center r sector));
      try assumption.
    rewrite <- Hat, <- Hf by lia. reflexivity.
Qed.

Lemma rect_decision_is_a_symbol_witness :
  exists b i,
    constellation_rect.construct bpsk_points [] 2 2 1 1%R 1%R
    = Ok (b, mk_sector 2 [0; 1], two_bins)
    /\ axis_defined 1 (d_width_real_sectors two_bins) 2
    /\ axis_defined 1 (d_width_imag_sectors two_bins) 1
    /\ decision_maker (mk_object b (Rect (mk_sector 2 [0; 1]) two_bins))
         [(1%R, 1%R)] = Ok i
    /\ 0 <= i < d_arity b.
Proof.
  destruct two_bin_rect_build as (b & Hb & _).
  assert (axis_defined 1 (d_width_real_sectors two_bins) 2) as Hdre
      by (unfold two_bins; axis_numbers).
  assert (axis_defined 1 (d_width_imag_sectors two_bins) 1) as Hdim
      by (unfold two_bins; axis_numbers).
  destruct (rect_decision_is_a_symbol _ _ _ _ _ _ _ _ _ _ (1%R, 1%R) [] Hb)
    as (i & H1 & H2).
  - lia.
  - lia.
  - unfold UINT_MOD. lia.
  - unfold size, UINT_MOD. cbn. lia.
  - exact Hdre.
  - exact Hdim.
  - exists b, i. split; [exact Hb|]. split; [exact Hdre|].
    split; [exact Hdim|]. split; [exact H1 | exact H2].
Defined.

(** X17.  In real arithmetic (the centre not rounded to [float]),
    [constellation_rect::get_sector] finds, at the centre that
    [calc_sector_center] computes for a sector, that sector again. *)
Theorem rect_sector_of_center_is_the_sector (r : rect_state) (s : Z) :
  1 <= n_real_sectors r <= INT_MAX -> 1 <= n_imag_sectors r <= INT_MAX ->
  n_real_sectors r * n_imag_sectors r < UINT_MOD ->
  d_width_real_sectors r <> 0%R -> d_width_imag_sectors r <> 0%R ->
  0 <= s < n_real_sectors r * n_imag_sectors r ->
  constellation_rect.get_sector r [constellation_rect.calc_sector_center r s]
  = Ok s.
Proof.
  intros Hnr Hni Hfit Hwr Hwi Hs.
  assert (s = (s / n_imag_sectors r) * n_imag_sectors r
              + s mod n_imag_sectors r) as Hdiv.
  { rewrite Z.mul_comm. apply Z.div_mod. lia. }
  pose proof (Z.mod_pos_bound s (n_imag_sectors r)) as Hki.
  assert (0 <= s / n_imag_sectors r) as Hkr0 by (apply Z.div_pos; lia).
  assert (s / n_imag_sectors r < n_real_sectors r) as Hkr1.
  { apply Z.div_lt_upper_bound; [lia|]. rewrite Z.mul_comm. lia. }
  rewrite Hdiv at 1.
  rewrite calc_sector_center_eq by lia.
  rewrite rect_get_sector_center by (first [assumption | lia]).
  rewrite <- Hdiv, wrap_u32_small by lia. reflexivity.
Qed.

Lemma rect_sector_of_center_is_the_sector_witness :
  constellation_rect.get_sector two_bins
    [constellation_rect.calc_sector_center two_bins 1]
  = Ok 1.
Proof.
  apply rect_sector_of_center_is_the_sector;
    cbn [two_bins n_real_sectors n_imag_sectors d_width_real_sectors
         d_width_imag_sectors];
    first [lra | unfold INT_MAX, UINT_MOD; lia].
Defined.

(** X18.  In real arithmetic (centre, phase and quotient not rounded to
    [float]), [constellation_psk::get_sector] finds, at the point of the
    unit circle that [calc_sector_value] takes as the centre of a wedge,
    that wedge again. *)
Theorem psk_sector_of_center_is_the_sector (st : sector_state) (s : Z) :
  1 <= n_sectors st < UINT_MOD -> 0 <= s < n_sectors st ->
  constellation_psk.get_sector st
    [constellation_psk.sector_center (n_sectors st) s]
  = Ok s.
Proof.
  intros Hn Hs. apply psk_get_sector_center; assumption.
Qed.

Lemma psk_sector_of_center_is_the_sector_witness :
  constellation_psk.get_sector (mk_sector 8 [])
    [constellation_psk.sector_center 8 5]
  = Ok 5.
Proof.
  apply (psk_sector_of_center_is_the_sector (mk_sector 8 []) 5);
    cbn [n_sectors]; unfold UINT_MOD; lia.
Defined.

(** ** The bounding box of [max_min_axes] *)

(** The loop of [max_min_axes]: each of the four bounds ends at the start
    value or at a coordinate of a point, below (above) the start value and
    every point. *)
Lemma axes_loop_spec (l : list gr_complex) :
  forall a0 b0 A0 B0 : R,
  exists a b A B : R,
    fold_left
      (fun (st : R * R * R * R) p =>
         let '(re_min, im_min, re_max, im_max) := st in
         let re_max := if fltb re_max (real p) then real p else re_max in
         let im_max := if fltb im_max (imag p) then imag p else im_max in
         let re_min := if fltb (real p) re_min then real p else re_min in
         let im_min := if fltb (imag p) im_min then imag p else im_min in
         (re_min, im_min, re_max, im_max))
      l (a0, b0, A0, B0)
    = (a, b, A, B)
    /\ ((a <= a0)%R /\ (forall p, In p l -> (a <= real p)%R)
        /\ (a = a0 \/ exists p, In p l /\ real p = a))
    /\ ((b <= b0)%R /\ (forall p, In p l -> (b <= imag p)%R)
        /\ (b = b0 \/ exists p, In p l /\ imag p = b))
    /\ ((A0 <= A)%R /\ (forall p, In p l -> (real p <= A)%R)
        /\ (A = A0 \/ exists p, In p l /\ real p = A))
    /\ ((B0 <= B)%R /\ (forall p, In p l -> (imag p <= B)%R)
        /\ (B = B0 \/ exists p, In p l /\ imag p = B)).
Proof.
  induction l as [|p l IH]; intros a0 b0 A0 B0.
  - exists a0, b0, A0, B0. split; [reflexivity|].
    repeat split; try lra; try (intros p []); left; reflexivity.
  - cbn [fold_left].
    set (a1 := if fltb (real p) a0 then real p else a0).
    set (b1 := if fltb (imag p) b0 then imag p else b0).
    set (A1 := if fltb A0 (real p) then real p else A0).
    set (B1 := if fltb B0 (imag p) then imag p else B0).
    assert ((a1 <= a0)%R /\ (a1 <= real p)%R /\ (a1 = a0 \/ real p = a1))
      as (Ha1 & Ha2 & Ha3)
        by (unfold a1, fltb; destruct (Rlt_dec _ _); repeat split;
            first [lra | left; reflexivity | right; reflexivity]).
    assert ((b1 <= b0)%R /\ (b1 <= imag p)%R /\ (b1 = b0 \/ imag p = b1))
      as (Hb1 & Hb2 & Hb3)
        by (unfold b1, fltb; destruct (Rlt_dec _ _); repeat split;
            first [lra | left; reflexivity | right; reflexivity]).
    assert ((A0 <= A1)%R /\ (real p <= A1)%R /\ (A1 = A0 \/ real p = A1))
      as (HA1 & HA2 & HA3)
        by (unfold A1, fltb; destruct (Rlt_dec _ _); repeat split;
            first [lra | left; reflexivity | right; reflexivity]).
    assert ((B0 <= B1)%R /\ (imag p <= B1)%R /\ (B1 = B0 \/ imag p = B1))
      as (HB1 & HB2 & HB3)
        by (unfold B1, fltb; destruct (Rlt_dec _ _); repeat split;
            first [lra | left; reflexivity | right; reflexivity]).
    destruct (IH a1 b1 A1 B1)
      as (a & b & A & B & Hrun & (Ia1 & Ia2 & Ia3) & (Ib1 & Ib2 & Ib3)
          & (IA1 & IA2 & IA3) & (IB1 & IB2 & IB3)).
    exists a, b, A, B. split; [exact Hrun|].
    split; [|split; [|split]].
    + split; [lra|]. split.
      * intros q [<-|Hq]; [lra | apply Ia2; exact Hq].
      * destruct Ia3 as [E|(q & Hq & E)].
        -- destruct Ha3 as [E'|E']; [left; lra|].
           right. exists p. split; [left; reflexivity | lra].
        -- right. exists q. split; [right; exact Hq | exact E].
    + split; [lra|]. split.
      * intros q [<-|Hq]; [lra | apply Ib2; exact Hq].
      * destruct Ib3 as [E|(q & Hq & E)].
        -- destruct Hb3 as [E'|E']; [left; lra|].
           right. exists p. split; [left; reflexivity | lra].
        -- right. exists q. split; [right; exact Hq | exact E].
    + split; [lra|]. split.
      * intros q [<-|Hq]; [lra | apply IA2; exact Hq].
      * destruct IA3 as [E|(q & Hq & E)].
        -- destruct HA3 as [E'|E']; [left; lra|].
           right. exists p. split; [left; reflexivity | lra].
        -- right. exists q. split; [right; exact Hq | exact E].
    + split; [lra|]. split.
      * intros q [<-|Hq]; [lra | apply IB2; exact Hq].
      * destruct IB3 as [E|(q & Hq & E)].
        -- destruct HB3 as [E'|E']; [left; lra|].
           right. exists p. split; [left; reflexivity | lra].
        -- right. exists q. split; [right; exact Hq | exact E].
Qed.

(** X19.  For a non-empty point set inside the start values of the loop and
    with no point on an axis, [max_min_axes] stores the tight bounding box:
    every point lies within the four bounds, and each bound is a coordinate
    of some point. *)
Theorem max_min_axes_is_the_bounding_box (c : constellation) :
  d_constellation c <> [] ->
  (forall p, In p (d_constellation c) ->
             (- big < real p < big)%R /\ (- big < imag p < big)%R
             /\ real p <> 0%R /\ imag p <> 0%R) ->
  (forall p, In p (d_constellation c) ->
             (d_re_min (max_min_axes c) <= real p
              <= d_re_max (max_min_axes c))%R
             /\ (d_im_min (max_min_axes c) <= imag p
                 <= d_im_max (max_min_axes c))%R)
  /\ (exists p, In p (d_constellation c)
                /\ real p = d_re_min (max_min_axes c))
  /\ (exists p, In p (d_constellation c)
                /\ real p = d_re_max (max_min_axes c))
  /\ (exists p, In p (d_constellation c)
                /\ imag p = d_im_min (max_min_axes c))
  /\ (exists p, In p (d_constellation c)
                /\ imag p = d_im_max (max_min_axes c)).
Proof.
  intros Hne Hin. unfold max_min_axes.
  destruct (axes_loop_spec (d_constellation c) big big (- big) (- big))
    as (a & b & A & B & Hrun & (_ & Ia2 & Ia3) & (_ & Ib2 & Ib3)
        & (_ & IA2 & IA3) & (_ & IB2 & IB3)).
  cbv zeta in Hrun. rewrite Hrun.
  destruct (d_constellation c) as [|p0 l] eqn:El; [contradiction|].
  assert (In p0 (p0 :: l)) as H0 by (left; reflexivity).
  destruct (Hin p0 H0) as (Hre & Him & _ & _).
  pose proof (Ia2 p0 H0). pose proof (Ib2 p0 H0).
  pose proof (IA2 p0 H0). pose proof (IB2 p0 H0).
  destruct Ia3 as [E|(pa & Hpa & Ea)]; [lra|].
  destruct Ib3 as [E|(pb & Hpb & Eb)]; [lra|].
  destruct IA3 as [E|(pA & HpA & EA)]; [lra|].
  destruct IB3 as [E|(pB & HpB & EB)]; [lra|].
  assert (a <> 0%R) as Na by (rewrite <- Ea; apply (Hin pa Hpa)).
  assert (b <> 0%R) as Nb by (rewrite <- Eb; apply (Hin pb Hpb)).
  assert (A <> 0%R) as NA by (rewrite <- EA; apply (Hin pA HpA)).
  assert (B <> 0%R) as NB by (rewrite <- EB; apply (Hin pB HpB)).
  rewrite (feqb_false b 0), (feqb_false B 0), (feqb_false a 0),
    (feqb_false A 0) by assumption.
  cbn [with_axes d_re_min d_re_max d_im_min d_im_max].
  split; [|split; [|split; [|split]]].
  - intros p Hp. specialize (Ia2 p Hp). specialize (Ib2 p Hp).
    specialize (IA2 p Hp). specialize (IB2 p Hp). lra.
  - exists pa. split; assumption.
  - exists pA. split; assumption.
  - exists pb. split; assumption.
  - exists pB. split; assumption.
Qed.

Lemma max_min_axes_is_the_bounding_box_witness :
  let c := with_points bpsk_base [(1%R, 2%R); ((-3)%R, (-1)%R)] [] false 2 1 in
  (forall p, In p (d_constellation c) ->
             (d_re_min (max_min_axes c) <= real p
              <= d_re_max (max_min_axes c))%R
             /\ (d_im_min (max_min_axes c) <= imag p
                 <= d_im_max (max_min_axes c))%R)
  /\ (exists p, In p (d_constellation c)
                /\ real p = d_re_min (max_min_axes c))
  /\ (exists p, In p (d_constellation c)
                /\ real p = d_re_max (max_min_axes c))
  /\ (exists p, In p (d_constellation c)
                /\ imag p = d_im_min (max_min_axes c))
  /\ (exists p, In p (d_constellation c)
                /\ imag p = d_im_max (max_min_axes c)).
Proof.
  intros c. apply (max_min_axes_is_the_bounding_box c).
  - discriminate.
  - intros p [<-|[<-|[]]]; unfold big, real, imag; cbn [fst snd];
      repeat split; lra.
Defined.

(** X20.  For a non-empty set of points on the real axis, [max_min_axes]
    finds both imaginary bounds 0 and replaces them: the imaginary bounds
    become the real bounds, which are the least and the greatest real
    part. *)
Theorem max_min_axes_of_real_points (c : constellation) :
  d_constellation c <> [] ->
  (forall p, In p (d_constellation c) ->
             (- big < real p < big)%R /\ imag p = 0%R) ->
  d_im_min (max_min_axes c) = d_re_min (max_min_axes c)
  /\ d_im_max (max_min_axes c) = d_re_max (max_min_axes c)
  /\ (forall p, In p (d_constellation c) ->
                (d_re_min (max_min_axes c) <= real p
                 <= d_re_max (max_min_axes c))%R)
  /\ (exists p, In p (d_constellation c)
                /\ real p = d_re_min (max_min_axes c))
  /\ (exists p, In p (d_constellation c)
                /\ real p = d_re_max (max_min_axes c)).
Proof.
  intros Hne Hin. unfold max_min_axes.
  destruct (axes_loop_spec (d_constellation c) big big (- big) (- big))
    as (a & b & A & B & Hrun & (_ & Ia2 & Ia3) & (_ & Ib2 & Ib3)
        & (_ & IA2 & IA3) & (_ & IB2 & IB3)).
  cbv zeta in Hrun. rewrite Hrun.
  destruct (d_constellation c) as [|p0 l] eqn:El; [contradiction|].
  assert (In p0 (p0 :: l)) as H0 by (left; reflexivity).
  destruct (Hin p0 H0) as (Hre & Him).
  pose proof (Ia2 p0 H0). pose proof (Ib2 p0 H0).
  pose proof (IA2 p0 H0). pose proof (IB2 p0 H0).
  assert (- big < 0 < big)%R as Hbig by (unfold big; lra).
  destruct Ia3 as [E|(pa & Hpa & Ea)]; [lra|].
  destruct Ib3 as [E|(pb & Hpb & Eb)]; [lra|].
  destruct IA3 as [E|(pA & HpA & EA)]; [lra|].
  destruct IB3 as [E|(pB & HpB & EB)]; [lra|].
  assert (b = 0%R) as Zb by (rewrite <- Eb; apply (Hin pb Hpb)).
  assert (B = 0%R) as ZB by (rewrite <- EB; apply (Hin pB HpB)).
  rewrite (feqb_true b 0), (feqb_true B 0) by assumption.
  assert ((if feqb a 0 then a else a) = a) as Ra by (destruct (feqb a 0); reflexivity).
  assert ((if feqb A 0 then A else A) = A) as RA by (destruct (feqb A 0); reflexivity).
  rewrite Ra, RA.
  cbn [with_axes d_re_min d_re_max d_im_min d_im_max].
  split; [reflexivity|]. split; [reflexivity|]. split; [|split].
  - intros p Hp. specialize (Ia2 p Hp). specialize (IA2 p Hp). lra.
  - exists pa. split; assumption.
  - exists pA. split; assumption.
Qed.

Lemma max_min_axes_of_real_points_witness :
  d_im_min (max_min_axes bpsk_base) = d_re_min (max_min_axes bpsk_base)
  /\ d_im_max (max_min_axes bpsk_base) = d_re_max (max_min_axes bpsk_base)
  /\ (forall p, In p (d_constellation bpsk_base) ->
                (d_re_min (max_min_axes bpsk_base) <= real p
                 <= d_re_max (max_min_axes bpsk_base))%R)
  /\ (exists p, In p (d_constellation bpsk_base)
                /\ real p = d_re_min (max_min_axes bpsk_base))
  /\ (exists p, In p (d_constellation bpsk_base)
                /\ real p = d_re_max (max_min_axes bpsk_base)).
Proof.
  apply max_min_axes_of_real_points.
  - discriminate.
  - intros p [<-|[<-|[]]]; unfold big, real, imag; cbn [fst snd];
      (split; [lra | reflexivity]).
Defined.

(** ** Soft decisions *)

Lemma replace_nth_length {A : Type} (n : nat) (x : A) (v : list A) :
  List.length (replace_nth n x v) = List.length v.
Proof.
  revert n. induction v as [|h t IH]; intros [|n]; simpl; try reflexivity.
  rewrite IH. reflexivity.
Qed.

Lemma nth_replace_nth {A : Type} (n m : nat) (x d : A) (v : list A) :
  (n < List.length v)%nat ->
  nth m (replace_nth n x v) d = if Nat.eqb m n then x else nth m v d.
Proof.
  revert n m. induction v as [|h t IH]; intros n m Hn; simpl in Hn; [lia|].
  destruct n as [|n], m as [|m]; simpl; try reflexivity. apply IH. lia.
Qed.

(** A loop whose rounds each return a state and take an invariant from
    round [k] to round [k + 1] returns a state in which the invariant holds
    for the number of rounds. *)
Lemma for_loop_rounds {S : Type} (P : nat -> S -> Prop)
      (body : Z -> S -> result S) (n : nat) (s : S) :
  P 0%nat s ->
  (forall k s, (k < n)%nat -> P k s ->
               exists s', body (Z.of_nat k) s = Ok s' /\ P (Datatypes.S k) s') ->
  exists s', for_loop 0 n body s = Ok s' /\ P n s'.
Proof.
  intros H0. induction n as [|n IH]; intros Hstep.
  - exists s. split; [reflexivity | exact H0].
  - destruct IH as (s1 & Hrun & H1);
      [intros k s0 Hk; apply Hstep; lia|].
    destruct (Hstep n s1 ltac:(lia) H1) as (s2 & Hbody & H2).
    exists s2. rewrite for_loop_snoc, Hrun, bind_Ok, Z.add_0_l.
    split; assumption.
Qed.

Lemma tmp_holds_ext (c : constellation) (sample : gr_complex) (npwr : R)
      (k : Z) (f g : Z -> nat) (tmp : list R) :
  (forall j, 0 <= j < k -> f j = g j) ->
  tmp_holds c sample npwr k f tmp -> tmp_holds c sample npwr k g tmp.
Proof.
  intros Hfg [Hlen Hval]. split; [exact Hlen|].
  intros j b Hj. rewrite <- Hfg by exact Hj. apply Hval. exact Hj.
Qed.

(** One round of the inner loop of [calc_soft_dec], for point [i] and bit
    position [jd]. *)
Lemma soft_dec_inner_round (c : constellation) (sample : gr_complex)
      (npwr : R) (k : Z) (d : R) (i jd : nat) (tmp : list R) :
  d = soft_weight c sample npwr i ->
  (i < List.length (d_pre_diff_code c))%nat -> Z.of_nat jd < k ->
  tmp_holds c sample npwr k
    (fun j => if j <? Z.of_nat jd then Datatypes.S i else i) tmp ->
  exists tmp',
    (let j := Z.of_nat jd in
     let mask := Z.shiftl 1 j in
     code <- vec_at (d_pre_diff_code c) (Z.of_nat i) ;;
     let bit := Z.shiftr (Z.land code mask) j in
     if bit =? 0
     then t <- vec_at tmp (2 * j + 0) ;;
          vec_set tmp (2 * j + 0) (t + d)%R
     else t <- vec_at tmp (2 * j + 1) ;;
          vec_set tmp (2 * j + 1) (t + d)%R)
    = Ok tmp'
    /\ tmp_holds c sample npwr k
         (fun j => if j <? Z.of_nat (Datatypes.S jd) then Datatypes.S i else i)
         tmp'.
Proof.
  intros Hd Hi Hjd [Hlen Hval]. cbv zeta.
  rewrite (vec_at_nth _ _ 0) by (unfold size; lia).
  rewrite Nat2Z.id, bind_Ok. fold (code_bit c i (Z.of_nat jd)).
  assert (forall slot : bool,
            Bool.eqb (negb (code_bit c i (Z.of_nat jd) =? 0)) slot = true ->
            exists tmp',
              (t <- vec_at tmp (2 * Z.of_nat jd + b2z slot) ;;
               vec_set tmp (2 * Z.of_nat jd + b2z slot) (t + d)%R) = Ok tmp'
              /\ tmp_holds c sample npwr k
                   (fun j => if j <? Z.of_nat (Datatypes.S jd)
                             then Datatypes.S i else i) tmp') as Hslot.
  { intros slot Hhit.
    assert (0 <= 2 * Z.of_nat jd + b2z slot < size tmp) as Hin
        by (unfold size; destruct slot; cbn [b2z]; lia).
    rewrite (vec_at_nth _ _ 0%R) by exact Hin.
    rewrite bind_Ok, vec_set_ok by exact Hin.
    eexists. split; [reflexivity|]. split.
    - rewrite replace_nth_length. exact Hlen.
    - intros j b Hj. rewrite nth_replace_nth by (unfold size in Hin; lia).
      rewrite !Hval by lia.
      destruct (Nat.eqb_spec (Z.to_nat (2 * j + b2z b))
                  (Z.to_nat (2 * Z.of_nat jd + b2z slot))) as [E|E].
      + assert (j = Z.of_nat jd /\ b = slot) as [-> ->]
            by (destruct b, slot; cbn [b2z] in *; split;
                first [reflexivity | lia]).
        destruct (Z.ltb_spec (Z.of_nat jd) (Z.of_nat jd)); [lia|].
        destruct (Z.ltb_spec (Z.of_nat jd) (Z.of_nat (Datatypes.S jd)));
          [|lia].
        cbn [bit_sum]. rewrite Hhit, Hd. reflexivity.
      + destruct (Z.eq_dec j (Z.of_nat jd)) as [->|Hne].
        * assert (b = negb slot) as ->
              by (destruct b, slot; cbn [b2z] in *;
                  first [reflexivity | exfalso; apply E; reflexivity]).
          destruct (Z.ltb_spec (Z.of_nat jd) (Z.of_nat jd)); [lia|].
          destruct (Z.ltb_spec (Z.of_nat jd) (Z.of_nat (Datatypes.S jd)));
            [|lia].
          cbn [bit_sum].
          destruct (negb (code_bit c i (Z.of_nat jd) =? 0)), slot;
            cbn in Hhit |- *; first [reflexivity | discriminate].
        * destruct (Z.ltb_spec j (Z.of_nat jd));
            destruct (Z.ltb_spec j (Z.of_nat (Datatypes.S jd)));
            first [reflexivity | lia]. }
  destruct (Z.eqb_spec (code_bit c i (Z.of_nat jd)) 0) as [Hb|Hb].
  - apply (Hslot false). reflexivity.
  - apply (Hslot true). reflexivity.
Qed.

(** One round of the outer loop: the weight of point [i] is added at every
    bit position. *)
Lemma soft_dec_outer_round (c : constellation) (sample : gr_complex)
      (npwr : R) (k : Z) (i : nat) (tmp : list R) :
  0 <= k ->
  (i < List.length (d_constellation c))%nat ->
  (i < List.length (d_pre_diff_code c))%nat ->
  tmp_holds c sample npwr k (fun _ => i) tmp ->
  exists tmp',
    (p <- vec_at (d_constellation c) (Z.of_nat i) ;;
     let dist := (Cabs (Csub sample p) * Cabs (Csub sample p))%R in
     let d := exp (- dist / (2 * npwr
                             * (d_scalefactor c * d_scalefactor c)))%R in
     for_range 0 k
       (fun j tmp =>
          let mask := Z.shiftl 1 j in
          code <- vec_at (d_pre_diff_code c) (Z.of_nat i) ;;
          let bit := Z.shiftr (Z.land code mask) j in
          if bit =? 0
          then t <- vec_at tmp (2 * j + 0) ;;
               vec_set tmp (2 * j + 0) (t + d)%R
          else t <- vec_at tmp (2 * j + 1) ;;
               vec_set tmp (2 * j + 1) (t + d)%R)
       tmp)
    = Ok tmp'
    /\ tmp_holds c sample npwr k (fun _ => Datatypes.S i) tmp'.
Proof.
  intros Hk Hip Hic Hinv.
  rewrite (vec_at_nth _ _ (0%R, 0%R))
    by (unfold size; split; [lia | apply Nat2Z.inj_lt; exact Hip]).
  rewrite Nat2Z.id, bind_Ok. cbv zeta.
  fold (soft_weight c sample npwr i).
  unfold for_range. rewrite Z.sub_0_r.
  destruct (for_loop_rounds
              (fun jd tmp =>
                 tmp_holds c sample npwr k
                   (fun j => if j <? Z.of_nat jd then Datatypes.S i else i)
                   tmp)
              (fun j tmp =>
                 code <- vec_at (d_pre_diff_code c) (Z.of_nat i) ;;
                 if Z.shiftr (Z.land code (Z.shiftl 1 j)) j =? 0
                 then t <- vec_at tmp (2 * j + 0) ;;
                      vec_set tmp (2 * j + 0)
                        (t + soft_weight c sample npwr i)%R
                 else t <- vec_at tmp (2 * j + 1) ;;
                      vec_set tmp (2 * j + 1)
                        (t + soft_weight c sample npwr i)%R)
              (Z.to_nat k) tmp) as (tmp' & Hrun & Hinv').
  - apply (tmp_holds_ext _ _ _ _ (fun _ => i)); [|exact Hinv].
    intros j Hj. destruct (Z.ltb_spec j (Z.of_nat 0)); [lia | reflexivity].
  - intros jd tmp1 Hjd H1.
    apply (soft_dec_inner_round c sample npwr k _ i jd tmp1 eq_refl Hic);
      [lia | exact H1].
  - exists tmp'. split; [exact Hrun|].
    apply (tmp_holds_ext _ _ _ _
             (fun j => if j <? Z.of_nat (Z.to_nat k)
                       then Datatypes.S i else i)); [|exact Hinv'].
    intros j Hj. destruct (Z.ltb_spec j (Z.of_nat (Z.to_nat k)));
      [reflexivity | lia].
Qed.

(** X21.  With a pre-diff code of the length of the point vector,
    [calc_soft_dec] returns [k] values, [k] the integer part of the base-2
    logarithm of the number of points: for each bit position [j] below [k]
    the entry [k - 1 - j] is the scaled difference of the logarithms of two
    sums of the weights [exp(-|sample - p|^2 / (2 npwr scale))], over the
    points whose code has bit [j] set and over those where it is clear. *)
Theorem calc_soft_dec_is_bitwise_llr
        (c : constellation) (sample : gr_complex) (npwr : R) :
  1 <= size (d_constellation c) <= INT_MAX ->
  size (d_pre_diff_code c) = size (d_constellation c) ->
  exists llr,
    calc_soft_dec c sample npwr = Ok llr
    /\ size llr
       = float_to_int (ln (IZR (size (d_constellation c))) / ln 2)
    /\ forall j,
         0 <= j < float_to_int (ln (IZR (size (d_constellation c))) / ln 2) ->
         vec_at llr
           (float_to_int (ln (IZR (size (d_constellation c))) / ln 2)
            - 1 - j)
         = Ok ((ln (bit_sum c sample npwr j true
                      (List.length (d_constellation c)))
                - ln (bit_sum c sample npwr j false
                        (List.length (d_constellation c))))
               * (d_scalefactor c * d_scalefactor c))%R.
Proof.
  intros HM Hcode. unfold calc_soft_dec.
  rewrite wrap_i32_small by lia.
  destruct (Z.leb_spec (size (d_constellation c)) 0) as [|_]; [lia|].
  set (k := float_to_int (ln (IZR (size (d_constellation c))) / ln 2)).
  assert (0 <= k) as Hk.
  { destruct (Z.eq_dec (size (d_constellation c)) 1) as [E|E].
    - unfold k. rewrite E, ln_1. unfold Rdiv. rewrite Rmult_0_l.
      rewrite float_to_int_IZR by (unfold INT_MIN, INT_MAX; lia). lia.
    - pose proof (bits_per_symbol_bounds (size (d_constellation c))
                    ltac:(lia)). unfold k. lia. }
  cbv zeta.
  destruct (for_loop_rounds
              (fun i tmp => tmp_holds c sample npwr k (fun _ => i) tmp)
              (fun i tmp =>
                 p <- vec_at (d_constellation c) i ;;
                 for_range 0 k
                   (fun j tmp =>
                      code <- vec_at (d_pre_diff_code c) i ;;
                      if Z.shiftr (Z.land code (Z.shiftl 1 j)) j =? 0
                      then t <- vec_at tmp (2 * j + 0) ;;
                           vec_set tmp (2 * j + 0)
                             (t + exp (- (Cabs (Csub sample p)
                                          * Cabs (Csub sample p))
                                       / (2 * npwr
                                          * (d_scalefactor c
                                             * d_scalefactor c))))%R
                      else t <- vec_at tmp (2 * j + 1) ;;
                           vec_set tmp (2 * j + 1)
                             (t + exp (- (Cabs (Csub sample p)
                                          * Cabs (Csub sample p))
                                       / (2 * npwr
                                          * (d_scalefactor c
                                             * d_scalefactor c))))%R)
                   tmp)
              (Z.to_nat (size (d_constellation c)))
              (repeat 0%R (Z.to_nat (2 * k))))
    as (tmp & Hrun & [Hlen Hval]).
  - split; [apply repeat_length|].
    intros j b Hj. cbn [bit_sum]. apply nth_repeat.
  - intros i tmp1 Hi H1.
    apply (soft_dec_outer_round c sample npwr k i tmp1 Hk);
      [unfold size in *; lia | unfold size in *; lia | exact H1].
  - unfold for_range at 1. rewrite Z.sub_0_r, Hrun, bind_Ok.
    unfold size at 1 in Hval. rewrite Nat2Z.id in Hval.
    unfold for_range. rewrite Z.sub_0_r.
    destruct (for_loop_rounds
                (fun (n : nat) (s : list R) =>
                   List.length s = Z.to_nat k
                   /\ forall j, 0 <= j < Z.of_nat n ->
                        nth (Z.to_nat (k - 1 - j)) s 0%R
                        = ((ln (bit_sum c sample npwr j true
                                  (List.length (d_constellation c)))
                            - ln (bit_sum c sample npwr j false
                                    (List.length (d_constellation c))))
                           * (d_scalefactor c * d_scalefactor c))%R)
                (fun i s =>
                   t1 <- vec_at tmp (2 * i + 1) ;;
                   t0 <- vec_at tmp (2 * i + 0) ;;
                   vec_set s (k - 1 - i)
                     ((ln t1 - ln t0)
                      * (d_scalefactor c * d_scalefactor c))%R)
                (Z.to_nat k) (repeat 0%R (Z.to_nat k)))
      as (llr & Hrun2 & [Hlen2 Hval2]).
    + split; [apply repeat_length|]. intros j Hj. lia.
    + intros n s1 Hn [Hl1 Hv1].
      rewrite (vec_at_nth _ _ 0%R) by (unfold size; lia). rewrite bind_Ok.
      rewrite (vec_at_nth _ _ 0%R) by (unfold size; lia). rewrite bind_Ok.
      rewrite vec_set_ok by (unfold size; lia).
      eexists. split; [reflexivity|]. split.
      * rewrite replace_nth_length. exact Hl1.
      * intros j Hj. rewrite nth_replace_nth by lia.
        destruct (Nat.eqb_spec (Z.to_nat (k - 1 - j))
                    (Z.to_nat (k - 1 - Z.of_nat n))) as [E|E].
        -- assert (j = Z.of_nat n) as -> by lia.
           rewrite <- (Hval (Z.of_nat n) true) by lia.
           rewrite <- (Hval (Z.of_nat n) false) by lia.
           reflexivity.
        -- apply Hv1. lia.
    + exists llr. split; [exact Hrun2|].
      split; [unfold size; lia|].
      intros j Hj. rewrite (vec_at_nth _ _ 0%R) by (unfold size; lia).
      f_equal. apply Hval2. lia.
Qed.

Lemma calc_soft_dec_is_bitwise_llr_witness :
  let c := with_points bpsk_base bpsk_points [0; 1] true 2 1 in
  exists llr,
    calc_soft_dec c (0%R, 0%R) 1 = Ok llr
    /\ size llr
       = float_to_int (ln (IZR (size (d_constellation c))) / ln 2)
    /\ forall j,
         0 <= j < float_to_int (ln (IZR (size (d_constellation c))) / ln 2) ->
         vec_at llr
           (float_to_int (ln (IZR (size (d_constellation c))) / ln 2)
            - 1 - j)
         = Ok ((ln (bit_sum c (0%R, 0%R) 1 j true
                      (List.length (d_constellation c)))
                - ln (bit_sum c (0%R, 0%R) 1 j false
                        (List.length (d_constellation c))))
               * (d_scalefactor c * d_scalefactor c))%R.
Proof.
  intros c. apply (calc_soft_dec_is_bitwise_llr c (0%R, 0%R) 1).
  - unfold size, INT_MAX. cbn. lia.
  - reflexivity.
Defined.

(** One axis of [lut_index]: the clamped and scaled coordinate falls on one
    of the cells 0 .. [L - 1], when the range of the axis is positive and
    at most the table scale [L]. *)
Lemma lut_axis_cell (lo hi x : R) (L : Z) :
  1 <= L -> (0 < hi - lo <= IZR L)%R ->
  0 <= Zfloor ((- lo + fmin hi (fmax lo x))
               * (IZR L / (hi - lo) - (hi - lo) / IZR L))%R
    <= L - 1.
Proof.
  intros HL [Hr0 Hr1].
  assert (1 <= IZR L)%R as HLr by (apply IZR_le; lia).
  set (u := (- lo + fmin hi (fmax lo x))%R).
  assert (0 <= u <= hi - lo)%R as [Hu0 Hu1].
  { unfold u, fmin, fmax, fltb.
    repeat match goal with
      | |- context [Rlt_dec ?a ?b] => destruct (Rlt_dec a b)
      end; lra. }
  set (w := (hi - lo)%R) in *.
  assert (0 < / w)%R as Hiw by (apply Rinv_0_lt_compat; lra).
  assert (0 < / IZR L)%R as HiL by (apply Rinv_0_lt_compat; lra).
  assert (w * / IZR L <= 1)%R as Hq.
  { apply (Rmult_le_reg_r (IZR L)); [lra|].
    rewrite Rmult_assoc, Rinv_l by lra. lra. }
  assert (1 <= IZR L * / w)%R as Hp.
  { apply (Rmult_le_reg_r w); [lra|].
    rewrite Rmult_assoc, Rinv_l by lra. lra. }
  assert (0 <= IZR L / w - w / IZR L)%R as Hs by (unfold Rdiv; lra).
  assert (w * (IZR L / w - w / IZR L) = IZR L - w * w * / IZR L)%R as Hprod
      by (field; lra).
  assert (0 < w * w * / IZR L)%R as Hpos
      by (apply Rmult_lt_0_compat; [apply Rmult_lt_0_compat; lra | lra]).
  assert (0 <= u * (IZR L / w - w / IZR L) < IZR L)%R as [Hv0 Hv1].
  { split; [apply Rmult_le_pos; lra|].
    assert (u * (IZR L / w - w / IZR L)
            <= w * (IZR L / w - w / IZR L))%R
      by (apply Rmult_le_compat_r; lra).
    lra. }
  split.
  - apply Zfloor_lub. exact Hv0.
  - destruct (Zfloor_bound (u * (IZR L / w - w / IZR L))) as [Hb _].
    assert (IZR (Zfloor (u * (IZR L / w - w / IZR L))) < IZR L)%R as Hlt
        by lra.
    apply lt_IZR in Hlt. lia.
Qed.

(** The index of [lut_index] is a cell of an [L] by [L] grid. *)
Lemma lut_index_cells (c : constellation) (sample : gr_complex) (L : Z) :
  d_lut_scale c = IZR L -> 1 <= L -> L * L <= INT_MAX ->
  (0 < d_re_max c - d_re_min c <= IZR L)%R ->
  (0 < d_im_max c - d_im_min c <= IZR L)%R ->
  0 <= lut_index c sample <= L * L - 1.
Proof.
  intros HL H1 Hsq Hre Him. unfold lut_index. rewrite HL.
  pose proof (lut_axis_cell (d_re_min c) (d_re_max c) (real sample) L H1 Hre)
    as Hx.
  pose proof (lut_axis_cell (d_im_min c) (d_im_max c) (imag sample) L H1 Him)
    as Hy.
  set (xf := Zfloor _) in Hx. set (yf := Zfloor _) in Hy.
  fold xf yf. rewrite <- mult_IZR, <- plus_IZR.
  rewrite float_to_int_IZR by (unfold INT_MIN, INT_MAX in *; nia).
  nia.
Qed.

(** X22.  With a table scale [L] (an integer whose square fits [int]) and
    both axis ranges positive and at most [L], the index that
    [soft_decision_maker] computes lies between 0 and [L * L - 1] for every
    sample (in real arithmetic): neither the test against [max_index] nor
    the test for a negative index succeeds, and the result is the table
    entry at the index. *)
Theorem table_lookup_guards_never_fire
        (default_npwr : R) (c : constellation) (sample : gr_complex) (L : Z) :
  d_lut_scale c = IZR L -> 1 <= L -> L * L <= INT_MAX ->
  (0 < d_re_max c - d_re_min c <= IZR L)%R ->
  (0 < d_im_max c - d_im_min c <= IZR L)%R ->
  has_soft_dec_lut c = true ->
  0 <= lut_index c sample <= L * L - 1
  /\ soft_decision_maker default_npwr c sample
     = vec_at (d_soft_dec_lut c) (lut_index c sample).
Proof.
  intros HL H1 Hsq Hre Him Hlut.
  pose proof (lut_index_cells c sample L HL H1 Hsq Hre Him) as Hrange.
  split; [exact Hrange|].
  unfold soft_decision_maker. rewrite Hlut, HL.
  rewrite <- mult_IZR.
  rewrite float_to_int_IZR by (unfold INT_MIN, INT_MAX in *; nia).
  destruct (Z.ltb_spec (L * L) (lut_index c sample)); [lia|].
  destruct (Z.ltb_spec (lut_index c sample) 0); [lia|].
  reflexivity.
Qed.

Lemma table_lookup_guards_never_fire_witness :
  let c := with_lut (with_axes bpsk_base (-1) 1 (-1) 1) [[0%R]] 1 2 in
  0 <= lut_index c (0%R, 0%R) <= 2 * 2 - 1
  /\ soft_decision_maker 1 c (0%R, 0%R)
     = vec_at (d_soft_dec_lut c) (lut_index c (0%R, 0%R)).
Proof.
  intros c. apply (table_lookup_guards_never_fire 1 c (0%R, 0%R) 2).
  - reflexivity.
  - lia.
  - unfold INT_MAX. lia.
  - cbn. lra.
  - cbn. lra.
  - reflexivity.
Defined.

(** ** Construction *)

(** X23.  Building a second object from the stored points of a constructed
    one changes nothing: the points already have unit mean magnitude, the
    second scale factor is 1 and the same points are stored (in real
    arithmetic). *)
Theorem constructor_keeps_normalised_points
        (constell : list gr_complex) (pre_diff_code : list Z)
        (rotational_symmetry dimensionality : Z) (c : constellation) :
  constellation_ctor constell pre_diff_code rotational_symmetry dimensionality
  = Ok c ->
  summed_mag constell <> 0%R ->
  exists c',
    constellation_ctor (d_constellation c) pre_diff_code rotational_symmetry
      dimensionality = Ok c'
    /\ d_scalefactor c' = 1%R
    /\ d_constellation c' = d_constellation c
    /\ d_arity c' = d_arity c.
Proof.
  intros Hc Hsum.
  destruct (constellation_ctor_ok _ _ _ _ _ Hc)
    as (Hsf & Hpts & _ & _ & Ha & HD & Hm & Hcode & _).
  pose proof (summed_mag_nonneg constell) as Hnn.
  assert (constell <> []) as Hne by (intros ->; apply Hsum; reflexivity).
  assert (0 < IZR (size constell))%R as Hsz.
  { apply IZR_lt. unfold size. destruct constell; [contradiction|].
    simpl. lia. }
  assert (0 <= d_scalefactor c)%R as Hs0.
  { rewrite Hsf. apply Rlt_le, Rdiv_lt_0_compat; lra. }
  assert (size (d_constellation c) = size constell) as Hsize
      by (rewrite Hpts; unfold size; rewrite length_map; reflexivity).
  assert (summed_mag (d_constellation c) = IZR (size (d_constellation c)))
    as Hunit.
  { rewrite Hsize. rewrite Hpts at 1. rewrite summed_mag_scale by exact Hs0.
    rewrite Hsf. field. lra. }
  assert (d_constellation c <> []) as Hne'.
  { intros E. apply Hne. apply size_zero_nil. rewrite <- Hsize, E.
    reflexivity. }
  assert (exists c', constellation_ctor (d_constellation c) pre_diff_code
                       rotational_symmetry dimensionality = Ok c')
    as [c' Hc'].
  { unfold constellation_ctor, calc_arity.
    cbn [d_dimensionality d_constellation].
    replace (size (map (fun p =>
                          Cscale p (IZR (size (d_constellation c))
                                    / summed_mag (d_constellation c))%R)
                       (d_constellation c)))
      with (size constell)
      by (unfold size in *; rewrite length_map; lia).
    rewrite Hsize.
    destruct (Z.eqb_spec dimensionality 0) as [|_]; [contradiction|].
    destruct (Z.eqb_spec (size constell mod dimensionality) 0) as [_|];
      [|contradiction].
    destruct (Z.eqb_spec (size pre_diff_code) 0) as [E0|E0].
    - rewrite bind_Ok. eexists. reflexivity.
    - destruct Hcode as [->|Hcode]; [exfalso; apply E0; reflexivity|].
      rewrite Hcode, Z.eqb_refl. cbn [negb]. rewrite bind_Ok.
      eexists. reflexivity. }
  exists c'. split; [exact Hc'|].
  destruct (constellation_ctor_unit_scale _ _ _ _ _ Hc' Hunit Hne')
    as [Hsf' Hpts'].
  split; [exact Hsf'|]. split; [exact Hpts'|].
  destruct (constellation_ctor_ok _ _ _ _ _ Hc')
    as (_ & _ & _ & _ & Ha' & _).
  rewrite Ha', Ha, Hsize. reflexivity.
Qed.

Lemma constructor_keeps_normalised_points_witness :
  exists b c',
    constellation_ctor bpsk_points [] 2 1 = Ok b
    /\ constellation_ctor (d_constellation b) [] 2 1 = Ok c'
    /\ d_scalefactor c' = 1%R
    /\ d_constellation c' = d_constellation b
    /\ d_arity c' = d_arity b.
Proof.
  destruct (bpsk_points_ctor [] 2 (or_introl eq_refl)) as (b & Hb & _).
  destruct (constructor_keeps_normalised_points _ _ _ _ _ Hb)
    as (c' & H1 & H2 & H3 & H4).
  - rewrite summed_mag_bpsk_points. lra.
  - exists b, c'. repeat split; assumption.
Defined.

Lemma powerRZ_2_IZR (p : Z) : 0 <= p -> powerRZ 2 p = IZR (2 ^ p).
Proof.
  intros Hp. rewrite <- (Z2Nat.id p) by exact Hp.
  rewrite <- pow_powerRZ, pow_IZR. reflexivity.
Qed.

(** X24.  After [set_soft_dec_lut] with a table of [2^precision] by
    [2^precision] cells, on points whose bounding box is at most
    [2^precision] wide and high, [soft_decision_maker] returns a cell of the
    supplied table for every sample: the lookup stays inside the table (in
    real arithmetic). *)
Theorem supplied_table_is_read_in_bounds
        (default_npwr : R) (c : constellation) (soft_dec_lut : list (list R))
        (precision : Z) (sample : gr_complex) :
  0 <= precision <= 15 ->
  size soft_dec_lut = 2 ^ precision * 2 ^ precision ->
  (0 < d_re_max (max_min_axes c) - d_re_min (max_min_axes c)
   <= IZR (2 ^ precision))%R ->
  (0 < d_im_max (max_min_axes c) - d_im_min (max_min_axes c)
   <= IZR (2 ^ precision))%R ->
  exists llr,
    soft_decision_maker default_npwr
      (set_soft_dec_lut c soft_dec_lut precision) sample = Ok llr
    /\ vec_at soft_dec_lut
         (lut_index (set_soft_dec_lut c soft_dec_lut precision) sample)
       = Ok llr.
Proof.
  intros Hp Hsize Hre Him.
  assert (1 <= 2 ^ precision <= 2 ^ 15) as HL.
  { split; [|apply Z.pow_le_mono_r; lia].
    pose proof (Z.pow_pos_nonneg 2 precision ltac:(lia) ltac:(lia)). lia. }
  change (2 ^ 15) with 32768 in HL.
  set (c' := set_soft_dec_lut c soft_dec_lut precision).
  assert (d_lut_scale c' = IZR (2 ^ precision)) as Hscale
      by (unfold c', set_soft_dec_lut; cbn [with_lut d_lut_scale];
          apply powerRZ_2_IZR; lia).
  assert (d_re_min c' = d_re_min (max_min_axes c)
          /\ d_re_max c' = d_re_max (max_min_axes c)
          /\ d_im_min c' = d_im_min (max_min_axes c)
          /\ d_im_max c' = d_im_max (max_min_axes c)
          /\ d_soft_dec_lut c' = soft_dec_lut) as (E1 & E2 & E3 & E4 & E5)
      by (repeat split; reflexivity).
  assert (0 <= lut_index c' sample <= 2 ^ precision * 2 ^ precision - 1)
    as Hrange.
  { apply lut_index_cells; try assumption; try lia.
    unfold INT_MAX. nia. }
  assert (has_soft_dec_lut c' = true) as Hlut.
  { unfold has_soft_dec_lut. rewrite E5.
    destruct (Z.ltb_spec 0 (size soft_dec_lut)); [reflexivity | nia]. }
  exists (nth (Z.to_nat (lut_index c' sample)) soft_dec_lut []).
  assert (vec_at soft_dec_lut (lut_index c' sample)
          = Ok (nth (Z.to_nat (lut_index c' sample)) soft_dec_lut [])) as Hat
      by (apply vec_at_nth; lia).
  split; [|exact Hat].
  unfold soft_decision_maker. rewrite Hlut, Hscale, <- mult_IZR.
  rewrite float_to_int_IZR by (unfold INT_MIN, INT_MAX; nia).
  destruct (Z.ltb_spec (2 ^ precision * 2 ^ precision) (lut_index c' sample));
    [lia|].
  destruct (Z.ltb_spec (lut_index c' sample) 0); [lia|].
  rewrite E5. exact Hat.
Qed.

Lemma supplied_table_is_read_in_bounds_witness :
  exists llr,
    soft_decision_maker 1
      (set_soft_dec_lut bpsk_base [[1%R]; [2%R]; [3%R]; [4%R]] 1)
      (0%R, 0%R) = Ok llr
    /\ vec_at [[1%R]; [2%R]; [3%R]; [4%R]]
         (lut_index
            (set_soft_dec_lut bpsk_base [[1%R]; [2%R]; [3%R]; [4%R]] 1)
            (0%R, 0%R))
       = Ok llr.
Proof.
  destruct (max_min_axes_bpsk bpsk_base eq_refl) as (E1 & E2 & E3 & E4).
  apply (supplied_table_is_read_in_bounds 1 bpsk_base
           [[1%R]; [2%R]; [3%R]; [4%R]] 1 (0%R, 0%R)).
  - lia.
  - reflexivity.
  - rewrite E1, E2. simpl. lra.
  - rewrite E3, E4. simpl. lra.
Defined.

(** X25.  With dimensionality 0 the constructor first checks the length of
    the pre-diff code and throws on a mismatch; otherwise it reaches
    [calc_arity], which takes the size of the point vector modulo 0. *)
Theorem constructor_with_dimensionality_0
        (constell : list gr_complex) (pre_diff_code : list Z)
        (rotational_symmetry : Z) :
  (size pre_diff_code = 0 \/ size pre_diff_code = size constell ->
   constellation_calcdist.make constell pre_diff_code rotational_symmetry 0
   = Undefined)
  /\ (size pre_diff_code <> 0 /\ size pre_diff_code <> size constell ->
      throws (constellation_calcdist.make constell pre_diff_code
                rotational_symmetry 0)).
Proof.
  unfold constellation_calcdist.make, constellation_ctor, calc_arity.
  cbn [d_dimensionality]. split.
  - intros [E|E].
    + rewrite E. reflexivity.
    + destruct (Z.eqb_spec (size pre_diff_code) 0); [reflexivity|].
      rewrite E, Z.eqb_refl. reflexivity.
  - intros [H0 H1].
    destruct (Z.eqb_spec (size pre_diff_code) 0); [contradiction|].
    destruct (Z.eqb_spec (size pre_diff_code) (size constell));
      [contradiction|].
    eexists. reflexivity.
Qed.

Lemma constructor_with_dimensionality_0_witness :
  constellation_calcdist.make bpsk_points [] 2 0 = Undefined.
Proof.
  apply (constructor_with_dimensionality_0 bpsk_points [] 2).
  left. reflexivity.
Defined.

(** X26.  The constructor of [constellation_rect] multiplies both widths by
    the scale factor that it applied to the points, so the grid follows the
    points: the sector of a scaled sample in the grid of the object is the
    sector of the sample in the grid of the widths as given. *)
Theorem rect_grid_scales_with_points
        (constell : list gr_complex) (pre_diff_code : list Z)
        (rot real_sectors imag_sectors : Z) (w_re w_im : R)
        (b : constellation) (st : sector_state) (r : rect_state)
        (s : gr_complex) (rest rest' : list gr_complex) :
  constellation_rect.construct constell pre_diff_code rot real_sectors
    imag_sectors w_re w_im = Ok (b, st, r) ->
  d_scalefactor b <> 0%R -> w_re <> 0%R -> w_im <> 0%R ->
  constellation_rect.get_sector r (Cscale s (d_scalefactor b) :: rest)
  = constellation_rect.get_sector
      (mk_rect real_sectors imag_sectors w_re w_im) (s :: rest').
Proof.
  intros Hbuild Hsf Hwr Hwi.
  destruct (constellation_rect_build_ok _ _ _ _ _ _ _ _ _ _ Hbuild)
    as (_ & Hr & _).
  rewrite Hr. unfold constellation_rect.get_sector.
  change (vec_at (Cscale s (d_scalefactor b) :: rest) 0)
    with (Ok (Cscale s (d_scalefactor b))).
  change (vec_at (s :: rest') 0) with (Ok s).
  rewrite !bind_Ok.
  unfold quotient_to_int, Cscale, real, imag.
  cbn [fst snd n_real_sectors n_imag_sectors d_width_real_sectors
       d_width_imag_sectors].
  replace (fst s * d_scalefactor b / (w_re * d_scalefactor b))%R
    with (fst s / w_re)%R by (field; split; assumption).
  replace (snd s * d_scalefactor b / (w_im * d_scalefactor b))%R
    with (snd s / w_im)%R by (field; split; assumption).
  rewrite (feqb_false (w_re * d_scalefactor b) 0)
    by (apply Rmult_integral_contrapositive_currified; assumption).
  rewrite (feqb_false (w_im * d_scalefactor b) 0)
    by (apply Rmult_integral_contrapositive_currified; assumption).
  rewrite (feqb_false w_re 0), (feqb_false w_im 0) by assumption.
  reflexivity.
Qed.

Lemma rect_grid_scales_with_points_witness :
  exists b,
    constellation_rect.construct bpsk_points [] 2 2 1 1%R 1%R
    = Ok (b, mk_sector 2 [0; 1], two_bins)
    /\ constellation_rect.get_sector two_bins
         [Cscale (1%R, 1%R) (d_scalefactor b)]
       = constellation_rect.get_sector (mk_rect 2 1 1 1) [(1%R, 1%R)].
Proof.
  destruct two_bin_rect_build as (b & Hb & _).
  destruct (constellation_rect_build_ok _ _ _ _ _ _ _ _ _ _ Hb)
    as (Hc & _).
  destruct (constellation_ctor_unit_scale _ _ _ _ _ Hc) as [Hsf _];
    [rewrite summed_mag_bpsk_points; reflexivity | discriminate |].
  exists b. split; [exact Hb|].
  apply (rect_grid_scales_with_points _ _ _ _ _ _ _ _ _ _ (1%R, 1%R) [] []
           Hb); [rewrite Hsf|..]; lra.
Defined.

(** X27.  [constellation_psk::get_sector] looks at the phase of the sample
    only: scaling a sample by a positive factor does not change its
    sector. *)
Theorem psk_sector_ignores_magnitude
        (st : sector_state) (s : gr_complex) (k : R)
        (rest rest' : list gr_complex) :
  (0 < k)%R ->
  constellation_psk.get_sector st (Cscale s k :: rest)
  = constellation_psk.get_sector st (s :: rest').
Proof.
  intros Hk. unfold constellation_psk.get_sector.
  change (vec_at (Cscale s k :: rest) 0) with (Ok (Cscale s k)).
  change (vec_at (s :: rest') 0) with (Ok s).
  rewrite !bind_Ok.
  assert (arg (Cscale s k) = arg s) as ->; [|reflexivity].
  unfold arg, Cscale, real, imag. cbn [fst snd].
  rewrite (Rmult_comm (snd s) k), (Rmult_comm (fst s) k).
  apply atan2_scale. exact Hk.
Qed.

Lemma psk_sector_ignores_magnitude_witness :
  constellation_psk.get_sector (mk_sector 8 []) [Cscale (1%R, 1%R) 3]
  = constellation_psk.get_sector (mk_sector 8 []) [(1%R, 1%R)].
Proof.
  apply (psk_sector_ignores_magnitude (mk_sector 8 []) (1%R, 1%R) 3 [] []).
  lra.
Defined.



